(** * HomeApplianceService: the live audio service and the call transcript

    A shallow embedding of [src/services/geminiService.ts] (the class
    [GeminiLiveService]) and of the transcript updater that [App] passes to
    [connect] as its [onMessage] callback, followed by the handlers of the
    page ([App]: starting and ending a call, the callbacks it hands to the
    service, its clean-up).

    Conventions.
    - A JavaScript string is the list of its UTF-16 code units.
    - A JavaScript number that holds a time (seconds) is an exact rational
      [Q]; rounding of doubles is not modelled.
    - An [async] function is cut at its [await]s: each synchronous stretch is
      one function on the state, and a suspended stretch is a [Continuation]
      kept in the runtime's table until the awaited promise settles. *)

From stdpp Require Import base gmap sets list.
From Stdlib Require Import QArith Qminmax Lqa.

Close Scope Q_scope.

(** ** JavaScript strings *)

Module JS.

Definition code_unit := N.
Definition str := list code_unit.

(** WhiteSpace and LineTerminator code points of ECMAScript, the ones
    [String.prototype.trim] strips. All of them are single code units. *)
Definition is_white_space (c : code_unit) : bool :=
  ((c =? 0x9) || (c =? 0xA) || (c =? 0xB) || (c =? 0xC) || (c =? 0xD)
   || (c =? 0x20) || (c =? 0xA0) || (c =? 0x1680)
   || ((0x2000 <=? c) && (c <=? 0x200A))
   || (c =? 0x2028) || (c =? 0x2029) || (c =? 0x202F) || (c =? 0x205F)
   || (c =? 0x3000) || (c =? 0xFEFF))%N.

Fixpoint trimStart (s : str) : str :=
  match s with
  | [] => []
  | c :: r => if is_white_space c then trimStart r else s
  end.

Definition trimEnd (s : str) : str := rev (trimStart (rev s)).

Definition trim (s : str) : str := trimEnd (trimStart s).

(** Truthiness of a string: the empty string is the only falsy one. *)
Definition truthy (s : str) : bool :=
  match s with [] => false | _ :: _ => true end.

(** [a[i]] on an array: [undefined] outside [0 .. length-1]. *)
Definition index {A} (a : list A) (i : Z) : option A :=
  if (i <? 0)%Z then None else a !! Z.to_nat i.

End JS.

(** ** The transcript ([ChatMessage] and the [setMessages] updater) *)

Inductive Role := user | model.

Definition Role_eqb (a b : Role) : bool :=
  match a, b with
  | user, user | model, model => true
  | _, _ => false
  end.

Record ChatMessage := mkChatMessage {
  id : JS.str;
  role : Role;
  text : JS.str;
  timestamp : Z;
  isFinal : bool
}.

(** What the environment supplies when a message is created:
    [Date.now().toString() + Math.random()] and [new Date()]. *)
Record Stamp := mkStamp { stamp_id : JS.str; stamp_time : Z }.

(** The arguments of one [onMessage(text, isUser, isFinal)] call. *)
Record Fragment := mkFragment {
  f_text : JS.str;
  f_isUser : bool;
  f_isFinal : bool
}.

Definition role_of (isUser : bool) : Role := if isUser then user else model.

(** The function handed to [setMessages] (App, the fourth argument of
    [service.connect]). *)
Definition onMessage (f : Fragment) (st : Stamp) (prev : list ChatMessage)
  : list ChatMessage :=
  let newMsgs := prev in
  let lastMsgIndex := (Z.of_nat (length newMsgs) - 1)%Z in
  let lastMsg := JS.index newMsgs lastMsgIndex in
  match lastMsg with
  | Some lastMsg =>
      if Role_eqb (role lastMsg) (role_of (f_isUser f)) && negb (isFinal lastMsg)
      then
        <[Z.to_nat lastMsgIndex :=
            {| id := id lastMsg; role := role lastMsg;
               text := text lastMsg ++ f_text f;
               timestamp := timestamp lastMsg;
               isFinal := f_isFinal f |}]> newMsgs
      else
        if negb (JS.truthy (JS.trim (f_text f))) then prev
        else newMsgs ++ [ {| id := stamp_id st; role := role_of (f_isUser f);
                             text := f_text f; timestamp := stamp_time st;
                             isFinal := f_isFinal f |} ]
  | None =>
      if negb (JS.truthy (JS.trim (f_text f))) then prev
      else newMsgs ++ [ {| id := stamp_id st; role := role_of (f_isUser f);
                           text := f_text f; timestamp := stamp_time st;
                           isFinal := f_isFinal f |} ]
  end.

(** Feeding a run of callback invocations, oldest first. *)
Definition feed (fs : list (Fragment * Stamp)) (prev : list ChatMessage)
  : list ChatMessage :=
  fold_left (fun acc fs => onMessage (fst fs) (snd fs) acc) fs prev.

(** The text shown for each utterance, with its final flag. *)
Definition utterances (ms : list ChatMessage) : list (Role * JS.str * bool) :=
  map (fun m => (role m, text m, isFinal m)) ms.

(** A fragment is blank when trimming leaves nothing. *)
Definition blank (s : JS.str) : bool := negb (JS.truthy (JS.trim s)).

(** There is a pending utterance of the fragment's speaker to append to. *)
Definition pending_for (isUser : bool) (prev : list ChatMessage) : bool :=
  match last prev with
  | Some m => Role_eqb (role m) (role_of isUser) && negb (isFinal m)
  | None => false
  end.

(** ** Inbound messages ([LiveServerMessage] of the SDK, the fields read) *)

Module Msg.

Record Blob := mkBlob { data : option JS.str }.
Record Part := mkPart { inlineData : option Blob }.
Record Content := mkContent { parts : option (list Part) }.
Record Transcription := mkTranscription { text : option JS.str }.

Record LiveServerContent := mkServerContent {
  inputTranscription : option Transcription;
  outputTranscription : option Transcription;
  modelTurn : option Content;
  turnComplete : option bool;
  interrupted : option bool
}.

Record LiveServerMessage := mkMessage {
  serverContent : option LiveServerContent
}.

(** [!!x] for an optional boolean. *)
Definition bang2 (b : option bool) : bool := default false b.

(** [x ?? ''] *)
Definition or_empty (s : option JS.str) : JS.str := default [] s.

(** [message.serverContent?.modelTurn?.parts?.[0]?.inlineData?.data] *)
Definition base64Audio (message : LiveServerMessage) : option JS.str :=
  sc ← serverContent message;
  mt ← modelTurn sc;
  ps ← parts mt;
  p ← JS.index ps 0;
  b ← inlineData p;
  data b.

(** [!!message.serverContent?.turnComplete] *)
Definition is_turnComplete (message : LiveServerMessage) : bool :=
  bang2 (sc ← serverContent message; turnComplete sc).

(** Truthiness of [message.serverContent?.interrupted]. *)
Definition is_interrupted (message : LiveServerMessage) : bool :=
  bang2 (sc ← serverContent message; interrupted sc).

End Msg.

(** ** Audio objects of the browser *)

(** An [AudioBuffer]: [frames] sample frames (its [length]) at
    [sampleRate] Hz. *)
Record AudioBuffer := mkAudioBuffer { frames : N; sampleRate : positive }.

(** [audioBuffer.duration], in seconds. *)
Definition duration (b : AudioBuffer) : Q := Z.of_N (frames b) # sampleRate b.

(** An [AudioBufferSourceNode] as [handleServerMessage] leaves it: buffer
    set, connected to the gain node, the ['ended'] listener attached, and
    [start(when)] called. [stop()] and the ['ended'] event flip the flags. *)
Record SourceNode := mkSourceNode {
  buffer : AudioBuffer;
  connectedTo : nat;
  onended_delete : bool;
  startedAt : Q;
  stopped : bool;
  ended : bool
}.

Definition stop (n : SourceNode) : SourceNode :=
  {| buffer := buffer n; connectedTo := connectedTo n;
     onended_delete := onended_delete n; startedAt := startedAt n;
     stopped := true; ended := ended n |}.

Definition finish (n : SourceNode) : SourceNode :=
  {| buffer := buffer n; connectedTo := connectedTo n;
     onended_delete := onended_delete n; startedAt := startedAt n;
     stopped := stopped n; ended := true |}.

(** A node is still sounding, or scheduled to, until stopped or ended. *)
Definition live (n : SourceNode) : bool := negb (stopped n) && negb (ended n).

Inductive Exception :=
| NotAllowedError
| NotFoundError
| InvalidStateError
| TypeError
| EncodingError.

Inductive LogEntry :=
| log_mic_denied (err : Exception)
| log_session_opened
| log_decode_error (err : Exception)
| log_model_interrupted.

(** A suspended stretch of an [async] method. *)
Inductive Continuation :=
| KGetUserMedia                      (* connect, at [await getUserMedia] *)
| KDecode (interrupted : bool)       (* handleServerMessage, at [await decodeAudioData] *)
| KCloseInput                        (* disconnect, at [await inputAudioContext.close()] *)
| KCloseOutput.                      (* disconnect, at [await outputAudioContext.close()] *)

(** How a synchronous stretch ends. *)
Inductive Outcome :=
| Done
| Suspended (k : nat)
| Thrown (err : Exception).

(** ** The fields of [GeminiLiveService] *)

Record GeminiLiveService := mkService {
  session : option nat;
  inputAudioContext : option nat;
  outputAudioContext : option nat;
  stream : option nat;
  processor : option nat;
  source : option nat;
  nextStartTime : Q;
  outputNode : option nat;
  sources : gset nat
}.

(** [new GeminiLiveService()] *)
Definition new_service : GeminiLiveService :=
  {| session := None; inputAudioContext := None; outputAudioContext := None;
     stream := None; processor := None; source := None; nextStartTime := 0;
     outputNode := None; sources := ∅ |}.

(** ** The browser around it *)

Record Runtime := mkRuntime {
  currentTime : Q;                 (* outputAudioContext.currentTime; one
                                      clock, a service being connected once *)
  nodes : gmap nat SourceNode;     (* the buffer sources created so far *)
  closedContexts : gset nat;       (* audio contexts on which close() ran *)
  stoppedStreams : gset nat;       (* streams whose tracks were stopped *)
  disconnectedNodes : gset nat;    (* capture nodes that were disconnected *)
  sessionCloses : list nat;        (* close() requests on the session *)
  micRequests : nat;               (* getUserMedia calls *)
  console : list LogEntry;
  emitted : list Fragment;         (* onMessage calls, oldest first *)
  tasks : gmap nat Continuation;   (* suspended stretches *)
  nextTask : nat;
  nextObject : nat
}.

Record State := mkState { this : GeminiLiveService; rt : Runtime }.

Definition boot : Runtime :=
  {| currentTime := 0; nodes := ∅; closedContexts := ∅; stoppedStreams := ∅;
     disconnectedNodes := ∅; sessionCloses := []; micRequests := 0;
     console := []; emitted := []; tasks := ∅; nextTask := 0; nextObject := 0 |}.

Definition initial : State := {| this := new_service; rt := boot |}.

(** ** Field updates *)

Definition set_session v (t : GeminiLiveService) :=
  mkService v (inputAudioContext t) (outputAudioContext t) (stream t)
    (processor t) (source t) (nextStartTime t) (outputNode t) (sources t).
Definition set_inputAudioContext v (t : GeminiLiveService) :=
  mkService (session t) v (outputAudioContext t) (stream t)
    (processor t) (source t) (nextStartTime t) (outputNode t) (sources t).
Definition set_outputAudioContext v (t : GeminiLiveService) :=
  mkService (session t) (inputAudioContext t) v (stream t)
    (processor t) (source t) (nextStartTime t) (outputNode t) (sources t).
Definition set_stream v (t : GeminiLiveService) :=
  mkService (session t) (inputAudioContext t) (outputAudioContext t) v
    (processor t) (source t) (nextStartTime t) (outputNode t) (sources t).
Definition set_processor v (t : GeminiLiveService) :=
  mkService (session t) (inputAudioContext t) (outputAudioContext t) (stream t)
    v (source t) (nextStartTime t) (outputNode t) (sources t).
Definition set_source v (t : GeminiLiveService) :=
  mkService (session t) (inputAudioContext t) (outputAudioContext t) (stream t)
    (processor t) v (nextStartTime t) (outputNode t) (sources t).
Definition set_nextStartTime v (t : GeminiLiveService) :=
  mkService (session t) (inputAudioContext t) (outputAudioContext t) (stream t)
    (processor t) (source t) v (outputNode t) (sources t).
Definition set_outputNode v (t : GeminiLiveService) :=
  mkService (session t) (inputAudioContext t) (outputAudioContext t) (stream t)
    (processor t) (source t) (nextStartTime t) v (sources t).
Definition set_sources v (t : GeminiLiveService) :=
  mkService (session t) (inputAudioContext t) (outputAudioContext t) (stream t)
    (processor t) (source t) (nextStartTime t) (outputNode t) v.

Definition set_currentTime v (r : Runtime) :=
  mkRuntime v (nodes r) (closedContexts r) (stoppedStreams r)
    (disconnectedNodes r) (sessionCloses r) (micRequests r) (console r)
    (emitted r) (tasks r) (nextTask r) (nextObject r).
Definition set_nodes v (r : Runtime) :=
  mkRuntime (currentTime r) v (closedContexts r) (stoppedStreams r)
    (disconnectedNodes r) (sessionCloses r) (micRequests r) (console r)
    (emitted r) (tasks r) (nextTask r) (nextObject r).
Definition set_closedContexts v (r : Runtime) :=
  mkRuntime (currentTime r) (nodes r) v (stoppedStreams r)
    (disconnectedNodes r) (sessionCloses r) (micRequests r) (console r)
    (emitted r) (tasks r) (nextTask r) (nextObject r).
Definition set_stoppedStreams v (r : Runtime) :=
  mkRuntime (currentTime r) (nodes r) (closedContexts r) v
    (disconnectedNodes r) (sessionCloses r) (micRequests r) (console r)
    (emitted r) (tasks r) (nextTask r) (nextObject r).
Definition set_disconnectedNodes v (r : Runtime) :=
  mkRuntime (currentTime r) (nodes r) (closedContexts r) (stoppedStreams r)
    v (sessionCloses r) (micRequests r) (console r)
    (emitted r) (tasks r) (nextTask r) (nextObject r).
Definition set_sessionCloses v (r : Runtime) :=
  mkRuntime (currentTime r) (nodes r) (closedContexts r) (stoppedStreams r)
    (disconnectedNodes r) v (micRequests r) (console r)
    (emitted r) (tasks r) (nextTask r) (nextObject r).
Definition set_micRequests v (r : Runtime) :=
  mkRuntime (currentTime r) (nodes r) (closedContexts r) (stoppedStreams r)
    (disconnectedNodes r) (sessionCloses r) v (console r)
    (emitted r) (tasks r) (nextTask r) (nextObject r).
Definition set_console v (r : Runtime) :=
  mkRuntime (currentTime r) (nodes r) (closedContexts r) (stoppedStreams r)
    (disconnectedNodes r) (sessionCloses r) (micRequests r) v
    (emitted r) (tasks r) (nextTask r) (nextObject r).
Definition set_emitted v (r : Runtime) :=
  mkRuntime (currentTime r) (nodes r) (closedContexts r) (stoppedStreams r)
    (disconnectedNodes r) (sessionCloses r) (micRequests r) (console r)
    v (tasks r) (nextTask r) (nextObject r).
Definition set_tasks v (r : Runtime) :=
  mkRuntime (currentTime r) (nodes r) (closedContexts r) (stoppedStreams r)
    (disconnectedNodes r) (sessionCloses r) (micRequests r) (console r)
    (emitted r) v (nextTask r) (nextObject r).
Definition set_nextTask v (r : Runtime) :=
  mkRuntime (currentTime r) (nodes r) (closedContexts r) (stoppedStreams r)
    (disconnectedNodes r) (sessionCloses r) (micRequests r) (console r)
    (emitted r) (tasks r) v (nextObject r).
Definition set_nextObject v (r : Runtime) :=
  mkRuntime (currentTime r) (nodes r) (closedContexts r) (stoppedStreams r)
    (disconnectedNodes r) (sessionCloses r) (micRequests r) (console r)
    (emitted r) (tasks r) (nextTask r) v.

Definition on_this (f : GeminiLiveService → GeminiLiveService) (s : State) :=
  {| this := f (this s); rt := rt s |}.
Definition on_rt (f : Runtime → Runtime) (s : State) :=
  {| this := this s; rt := f (rt s) |}.

(** ** Runtime services *)

(** A new browser object; its identity is the counter's value. *)
Definition alloc (s : State) : nat * State :=
  (nextObject (rt s), on_rt (set_nextObject (S (nextObject (rt s)))) s).

Definition log (e : LogEntry) (s : State) : State :=
  on_rt (fun r => set_console (console r ++ [e]) r) s.

Definition emit (f : Fragment) (s : State) : State :=
  on_rt (fun r => set_emitted (emitted r ++ [f]) r) s.

(** Reaching an [await] on a pending promise: the rest of the method is
    parked under a new task number. *)
Definition suspend (c : Continuation) (s : State) : State * Outcome :=
  let k := nextTask (rt s) in
  (on_rt (fun r => set_nextTask (S k) (set_tasks (<[k := c]> (tasks r)) r)) s,
   Suspended k).

Definition unpark (k : nat) (s : State) : State :=
  on_rt (fun r => set_tasks (delete k (tasks r)) r) s.

(** [set.forEach(src => src.stop())] on the node table. *)
Definition stop_all (set : gset nat) (ns : gmap nat SourceNode)
  : gmap nat SourceNode :=
  map_imap (fun h n => Some (if bool_decide (h ∈ set) then stop n else n)) ns.

(** [audioContext.close()]: a context that was already closed (or is being
    closed) rejects with InvalidStateError; otherwise it is closed and the
    promise resolves later. *)
Definition close_context (c : nat) (s : State) : option State :=
  if bool_decide (c ∈ closedContexts (rt s)) then None
  else Some (on_rt (fun r => set_closedContexts ({[c]} ∪ closedContexts r) r) s).

(** ** [handleServerMessage] *)

(** Lines 140-145: the two transcription callbacks. *)
Definition transcriptions (message : Msg.LiveServerMessage) (s : State) : State :=
  let s :=
    match sc ← Msg.serverContent message; Msg.inputTranscription sc with
    | Some t => emit {| f_text := Msg.or_empty (Msg.text t); f_isUser := true;
                        f_isFinal := Msg.is_turnComplete message |} s
    | None => s
    end in
  match sc ← Msg.serverContent message; Msg.outputTranscription sc with
  | Some t => emit {| f_text := Msg.or_empty (Msg.text t); f_isUser := false;
                      f_isFinal := Msg.is_turnComplete message |} s
  | None => s
  end.

(** The guard of line 149:
    [base64Audio && this.outputAudioContext && this.outputNode]. *)
Definition audio_branch (message : Msg.LiveServerMessage) (s : State) : bool :=
  match Msg.base64Audio message with
  | Some d => JS.truthy d
              && bool_decide (is_Some (outputAudioContext (this s)))
              && bool_decide (is_Some (outputNode (this s)))
  | None => false
  end.

(** Lines 177-182: the interruption branch. *)
Definition interruption (interrupted : bool) (s : State) : State :=
  if interrupted then
    let s := log log_model_interrupted s in
    let s := on_rt (fun r => set_nodes (stop_all (sources (this s)) (nodes r)) r) s in
    on_this (fun t => set_nextStartTime 0 (set_sources ∅ t)) s
  else s.

(** Lines 159-169: create the source, wire it, start it at the cursor,
    advance the cursor, remember the source. With the output context gone,
    [this.outputAudioContext.createBufferSource()] is a TypeError, which
    the surrounding [try] catches. *)
Definition schedule (audioBuffer : AudioBuffer) (s : State) : State :=
  match outputAudioContext (this s), outputNode (this s) with
  | Some _, Some g =>
      let '(h, s) := alloc s in
      let n := {| buffer := audioBuffer; connectedTo := g;
                  onended_delete := true;
                  startedAt := nextStartTime (this s);
                  stopped := false; ended := false |} in
      let s := on_rt (fun r => set_nodes (<[h := n]> (nodes r)) r) s in
      on_this (fun t =>
                 set_sources ({[h]} ∪ sources t)
                   (set_nextStartTime (nextStartTime t + duration audioBuffer) t)) s
  | _, _ => log (log_decode_error TypeError) s
  end.

(** The method up to its [await]: transcriptions, then either the audio
    branch (re-anchor the cursor, start decoding, suspend) or, with no audio
    to play, straight on to the interruption branch. *)
Definition handleServerMessage (message : Msg.LiveServerMessage) (s : State)
  : State * Outcome :=
  let s := transcriptions message s in
  if audio_branch message s then
    let s := on_this (fun t =>
               set_nextStartTime
                 (Qmax (nextStartTime t) (currentTime (rt s))) t) s in
    suspend (KDecode (Msg.is_interrupted message)) s
  else (interruption (Msg.is_interrupted message) s, Done).

(** The method after its [await]: [r] is what
    [decodeAudioData(decode(base64Audio), ctx, 24000)] settled with. Both
    helpers come from [utils/audioUtils], which is not modelled: their
    outcome (a buffer, or the exception thrown) is an input here. An exception thrown before anything is awaited is the case of
    the settling following at once. *)
Definition handleServerMessage_k (interrupted : bool)
    (r : Exception + AudioBuffer) (s : State) : State * Outcome :=
  let s :=
    match r with
    | inr audioBuffer => schedule audioBuffer s
    | inl err => log (log_decode_error err) s
    end in
  (interruption interrupted s, Done).

(** ** [connect] and the [onopen] callback *)

(** Lines 52-67: both audio contexts, the gain node, the microphone
    request. *)
Definition connect (s : State) : State * Outcome :=
  let '(a, s) := alloc s in
  let s := on_this (set_inputAudioContext (Some a)) s in
  let '(b, s) := alloc s in
  let s := on_this (set_outputAudioContext (Some b)) s in
  let '(g, s) := alloc s in
  let s := on_this (set_outputNode (Some g)) s in
  let s := on_rt (fun r => set_micRequests (S (micRequests r)) r) s in
  suspend KGetUserMedia s.

(** Lines 68-105: [getUserMedia] settled. A rejection is logged and thrown
    again; otherwise the stream is kept and the live session is opened. *)
Definition connect_k (r : Exception + unit) (s : State) : State * Outcome :=
  match r with
  | inl err => (log (log_mic_denied err) s, Thrown err)
  | inr _ =>
      let '(m, s) := alloc s in
      let s := on_this (set_stream (Some m)) s in
      let '(p, s) := alloc s in
      (on_this (set_session (Some p)) s, Done)
  end.

(** Lines 108-133 *)
Definition startInputStreaming (s : State) : State :=
  match inputAudioContext (this s), stream (this s) with
  | Some _, Some _ =>
      let '(src, s) := alloc s in
      let s := on_this (set_source (Some src)) s in
      let '(p, s) := alloc s in
      on_this (set_processor (Some p)) s
  | _, _ => s
  end.

Definition onopen (s : State) : State :=
  startInputStreaming (log log_session_opened s).

(** ** [disconnect] *)

(** Step 5 (lines 220-222). *)
Definition cleanup (s : State) : State * Outcome :=
  let s := on_rt (fun r => set_nodes (stop_all (sources (this s)) (nodes r)) r) s in
  (on_this (fun t => set_nextStartTime 0 (set_sources ∅ t)) s, Done).

(** Lines 214-217, then step 5. *)
Definition disconnect_output (s : State) : State * Outcome :=
  match outputAudioContext (this s) with
  | Some c =>
      match close_context c s with
      | Some s => suspend KCloseOutput s
      | None => (s, Thrown InvalidStateError)
      end
  | None => cleanup s
  end.

Definition disconnect_output_k (s : State) : State * Outcome :=
  cleanup (on_this (set_outputAudioContext None) s).

(** Lines 210-213, then on to the output context. *)
Definition disconnect_input (s : State) : State * Outcome :=
  match inputAudioContext (this s) with
  | Some c =>
      match close_context c s with
      | Some s => suspend KCloseInput s
      | None => (s, Thrown InvalidStateError)
      end
  | None => disconnect_output s
  end.

Definition disconnect_input_k (s : State) : State * Outcome :=
  disconnect_output (on_this (set_inputAudioContext None) s).

(** Lines 186-207, then on to the contexts. *)
Definition disconnect (s : State) : State * Outcome :=
  let s :=
    match session (this s) with
    | Some p => on_rt (fun r => set_sessionCloses (sessionCloses r ++ [p]) r) s
    | None => s
    end in
  let s :=
    match processor (this s) with
    | Some p =>
        on_this (set_processor None)
          (on_rt (fun r => set_disconnectedNodes ({[p]} ∪ disconnectedNodes r) r) s)
    | None => s
    end in
  let s :=
    match source (this s) with
    | Some p =>
        on_this (set_source None)
          (on_rt (fun r => set_disconnectedNodes ({[p]} ∪ disconnectedNodes r) r) s)
    | None => s
    end in
  let s :=
    match stream (this s) with
    | Some m =>
        on_this (set_stream None)
          (on_rt (fun r => set_stoppedStreams ({[m]} ∪ stoppedStreams r) r) s)
    | None => s
    end in
  disconnect_input s.

(** ** Events: what the browser and the callers make happen, one at a time *)

Inductive Event :=
| Tick (dt : Q)                                   (* the output clock advances *)
| CallConnect                                     (* [service.connect(...)] *)
| MicSettled (k : nat) (r : Exception + unit)     (* getUserMedia settles *)
| SessionOpen                                     (* the [onopen] callback *)
| ServerMessage (m : Msg.LiveServerMessage)       (* the [onmessage] callback *)
| DecodeSettled (k : nat) (r : Exception + AudioBuffer)
| SourceEnded (h : nat)                           (* an ['ended'] event *)
| CallDisconnect                                  (* [service.disconnect()] *)
| CloseSettled (k : nat).                         (* a context's close() resolves *)

(** The ['ended'] listener of line 163, run by the event on source [h]. *)
Definition fire_ended (h : nat) (s : State) : State :=
  match nodes (rt s) !! h with
  | Some n =>
      if ended n then s
      else
        let s := on_rt (fun r => set_nodes (<[h := finish n]> (nodes r)) r) s in
        if onended_delete n
        then on_this (fun t => set_sources (sources t ∖ {[h]}) t) s
        else s
  | None => s
  end.

Definition dispatch (e : Event) (s : State) : State * Outcome :=
  match e with
  | Tick dt =>
      (if Qle_bool 0 dt
       then on_rt (fun r => set_currentTime (currentTime r + dt) r) s
       else s, Done)
  | CallConnect => connect s
  | MicSettled k r =>
      match tasks (rt s) !! k with
      | Some KGetUserMedia => connect_k r (unpark k s)
      | _ => (s, Done)
      end
  | SessionOpen =>
      (match session (this s) with Some _ => onopen s | None => s end, Done)
  | ServerMessage m => handleServerMessage m s
  | DecodeSettled k r =>
      match tasks (rt s) !! k with
      | Some (KDecode i) => handleServerMessage_k i r (unpark k s)
      | _ => (s, Done)
      end
  | SourceEnded h => (fire_ended h s, Done)
  | CallDisconnect => disconnect s
  | CloseSettled k =>
      match tasks (rt s) !! k with
      | Some KCloseInput => disconnect_input_k (unpark k s)
      | Some KCloseOutput => disconnect_output_k (unpark k s)
      | _ => (s, Done)
      end
  end.

Definition step (e : Event) (s : State) : State := fst (dispatch e s).

Definition run (es : list Event) (s : State) : State :=
  fold_left (fun s e => step e s) es s.

(** Events of the surroundings only: the clock and ['ended']. *)
Definition ambient (e : Event) : bool :=
  match e with
  | Tick _ | SourceEnded _ => true
  | _ => false
  end.

(** Events that run the code resetting the cursor (the interruption branch,
    or step 5 of disconnect). *)
Definition may_reset (e : Event) (s : State) : bool :=
  match e with
  | ServerMessage m => Msg.is_interrupted m && negb (audio_branch m (transcriptions m s))
  | DecodeSettled k _ =>
      match tasks (rt s) !! k with
      | Some (KDecode i) => i
      | _ => false
      end
  | CallDisconnect | CloseSettled _ => true
  | _ => false
  end.

(** ** Methods run with nothing in between at their [await]s *)

(** One inbound message handled to the end, the decode settling with [r]. *)
Definition handle (m : Msg.LiveServerMessage) (r : Exception + AudioBuffer)
    (s : State) : State :=
  match handleServerMessage m s with
  | (s', Suspended k) => step (DecodeSettled k r) s'
  | (s', _) => s'
  end.

Fixpoint settle_closes (fuel : nat) (p : State * Outcome) : State * Outcome :=
  match fuel with
  | O => p
  | S fuel =>
      match p with
      | (s, Suspended k) => settle_closes fuel (dispatch (CloseSettled k) s)
      | _ => p
      end
  end.

(** [await service.disconnect()]: at most two closes to wait for. *)
Definition disconnect_await (s : State) : State * Outcome :=
  settle_closes 2 (disconnect s).

(** [connect] awaited, [getUserMedia] settling with [r]. *)
Definition connect_await (r : Exception + unit) (s : State) : State * Outcome :=
  match connect s with
  | (s', Suspended k) => dispatch (MicSettled k r) s'
  | p => p
  end.

(** The fragments of the worked example, as UTF-16 code units. *)
Definition ni_hao : JS.str := [0x4F60; 0x597D]%N.
Definition wo_yao_baoxiu : JS.str := [0xFF0C; 0x6211; 0x8981; 0x62A5; 0x4FEE]%N.
Definition bingxiang : JS.str := [0x51B0; 0x7BB1]%N.
Definition st0 : Stamp := {| stamp_id := [0x31]%N; stamp_time := 1 |}.
Definition st1 : Stamp := {| stamp_id := [0x32]%N; stamp_time := 2 |}.
Definition st2 : Stamp := {| stamp_id := [0x33]%N; stamp_time := 3 |}.

Definition frag (t : JS.str) (isUser isFinal : bool) : Fragment :=
  {| f_text := t; f_isUser := isUser; f_isFinal := isFinal |}.

(** ** Well-formed states *)

(** What every state reached from [initial] satisfies: clock and cursor are
    not negative; [sources] holds exactly the sources that are neither
    stopped nor ended; every source carries the ['ended'] listener; object
    and task numbers in use are below the counters. *)
Record wf (s : State) : Prop := mkWf {
  wf_clock : (0 <= currentTime (rt s))%Q;
  wf_cursor : (0 <= nextStartTime (this s))%Q;
  wf_sources : ∀ h, h ∈ sources (this s) ↔
                    ∃ n, nodes (rt s) !! h = Some n ∧ live n = true;
  wf_listener : ∀ h n, nodes (rt s) !! h = Some n → onended_delete n = true;
  wf_nodes_fresh : ∀ h, is_Some (nodes (rt s) !! h) → h < nextObject (rt s);
  wf_closed_fresh : ∀ c, c ∈ closedContexts (rt s) → c < nextObject (rt s);
  wf_input_fresh : ∀ c, inputAudioContext (this s) = Some c →
                        c < nextObject (rt s);
  wf_output_fresh : ∀ c, outputAudioContext (this s) = Some c →
                         c < nextObject (rt s);
  wf_tasks_fresh : ∀ k, is_Some (tasks (rt s) !! k) → k < nextTask (rt s)
}.

(** No source is sounding or scheduled. *)
Definition silent (s : State) : Prop :=
  ∀ h n, nodes (rt s) !! h = Some n → live n = false.

(** The audio contexts the service holds are two different, open ones. *)
Definition contexts_open (s : State) : Prop :=
  (∀ c, inputAudioContext (this s) = Some c → c ∉ closedContexts (rt s))
  ∧ (∀ c, outputAudioContext (this s) = Some c → c ∉ closedContexts (rt s))
  ∧ (∀ c, inputAudioContext (this s) = Some c →
          outputAudioContext (this s) ≠ Some c).

(** After a teardown of [s] that ended in [s']: nothing is held any more,
    and what [s] held has been released in the browser. *)
Record released (s s' : State) : Prop := mkReleased {
  rel_processor : processor (this s') = None;
  rel_source : source (this s') = None;
  rel_stream : stream (this s') = None;
  rel_input : inputAudioContext (this s') = None;
  rel_output : outputAudioContext (this s') = None;
  rel_sources : sources (this s') = ∅;
  rel_cursor : nextStartTime (this s') = 0%Q;
  rel_processor_off : ∀ p, processor (this s) = Some p →
                           p ∈ disconnectedNodes (rt s');
  rel_source_off : ∀ p, source (this s) = Some p →
                        p ∈ disconnectedNodes (rt s');
  rel_stream_off : ∀ m, stream (this s) = Some m → m ∈ stoppedStreams (rt s');
  rel_input_off : ∀ c, inputAudioContext (this s) = Some c →
                       c ∈ closedContexts (rt s');
  rel_output_off : ∀ c, outputAudioContext (this s) = Some c →
                        c ∈ closedContexts (rt s');
  rel_handles_off : ∀ h n, h ∈ sources (this s) →
                           nodes (rt s') !! h = Some n → stopped n = true
}.


(** ** Sample inputs *)

Definition audio_part (d : JS.str) : Msg.Part :=
  Msg.mkPart (Some (Msg.mkBlob (Some d))).

Definition empty_part : Msg.Part := Msg.mkPart None.

(** A message whose model turn has the parts [ps]. *)
Definition turn (ps : list Msg.Part) (interrupted : option bool)
  : Msg.LiveServerMessage :=
  Msg.mkMessage (Some (Msg.mkServerContent None None
                         (Some (Msg.mkContent (Some ps))) None interrupted)).

(** A message that only signals the interruption. *)
Definition interrupt_only : Msg.LiveServerMessage :=
  Msg.mkMessage (Some (Msg.mkServerContent None None None None (Some true))).

Definition some_base64 : JS.str := [0x41; 0x41; 0x3D; 0x3D]%N.

(** One second and half a second of audio at 24 kHz. *)
Definition one_second : AudioBuffer := {| frames := 24000; sampleRate := 24000 |}.
Definition half_second : AudioBuffer := {| frames := 12000; sampleRate := 24000 |}.

(** A call in progress: connected, microphone granted, session open. *)
Definition in_call : State :=
  run [CallConnect; MicSettled 0 (inr tt); SessionOpen] initial.

(** The [onMessage] calls one message gives rise to. *)
Definition fragments (message : Msg.LiveServerMessage) : list Fragment :=
  match sc ← Msg.serverContent message; Msg.inputTranscription sc with
  | Some t => [ {| f_text := Msg.or_empty (Msg.text t); f_isUser := true;
                   f_isFinal := Msg.is_turnComplete message |} ]
  | None => []
  end ++
  match sc ← Msg.serverContent message; Msg.outputTranscription sc with
  | Some t => [ {| f_text := Msg.or_empty (Msg.text t); f_isUser := false;
                   f_isFinal := Msg.is_turnComplete message |} ]
  | None => []
  end.

(** ** Relations between states used in the statements *)

(** What a stretch of ambient events (clock ticks, ['ended'] events) leaves
    alone: the cursor, the output context and gain node, the parked
    continuations and both counters; the clock does not run backwards and no
    source comes back to life. *)
Record calm (s s' : State) : Prop := mkCalm {
  calm_cursor : nextStartTime (this s') = nextStartTime (this s);
  calm_output : outputAudioContext (this s') = outputAudioContext (this s);
  calm_gain : outputNode (this s') = outputNode (this s);
  calm_tasks : tasks (rt s') = tasks (rt s);
  calm_nextTask : nextTask (rt s') = nextTask (rt s);
  calm_nextObject : nextObject (rt s') = nextObject (rt s);
  calm_clock : (currentTime (rt s) <= currentTime (rt s'))%Q;
  calm_silent : silent s → silent s'
}.

(** Every source of [s'] was already in [s], with the same start time and
    buffer. *)
Definition kept (s s' : State) : Prop :=
  ∀ h n', nodes (rt s') !! h = Some n' →
    ∃ n, nodes (rt s) !! h = Some n
         ∧ startedAt n' = startedAt n ∧ buffer n' = buffer n.


(** A call in which one second of audio was scheduled at clock 5. *)
Definition playing : State :=
  handle (turn [audio_part some_base64] None) (inr one_second)
    (step (Tick 5) in_call).

(** The message with server content [sc], its model turn replaced by one
    with the parts [ps]. *)
Definition with_parts (sc : Msg.LiveServerContent) (ps : list Msg.Part)
  : Msg.LiveServerMessage :=
  Msg.mkMessage
    (Some (Msg.mkServerContent (Msg.inputTranscription sc)
             (Msg.outputTranscription sc)
             (Some (Msg.mkContent (Some ps)))
             (Msg.turnComplete sc) (Msg.interrupted sc))).

(** The inline audio of one part, if any. *)
Definition part_audio (p : Msg.Part) : option JS.str :=
  b ← Msg.inlineData p; Msg.data b.


(** A run of fragments of one speaker: a first one, any number more, none
    of them final, and a final one. *)
Definition speech (isUser : bool) (t0 : JS.str) (st : Stamp)
    (ts : list (JS.str * Stamp)) (tf : JS.str) (stf : Stamp)
  : list (Fragment * Stamp) :=
  (frag t0 isUser false, st)
  :: map (fun ts => (frag (fst ts) isUser false, snd ts)) ts
  ++ [(frag tf isUser true, stf)].

(** The events that are stretches of [disconnect]. *)
Definition teardown_phase (e : Event) : bool :=
  match e with
  | CallDisconnect | CloseSettled _ => true
  | _ => false
  end.

(** ** Further runs used in the statements *)


(** Where the cursor is after segments of the buffers [bs] have been laid
    end to end from [t]. *)
Definition laid_out (bs : list AudioBuffer) (t : Q) : Q :=
  fold_left (fun t b => (t + duration b)%Q) bs t.

(** Lines 186-207 of [disconnect] on their own: the session is asked to
    close, capture nodes are disconnected, the stream's tracks stopped. *)
Definition release_capture (s : State) : State :=
  let s :=
    match session (this s) with
    | Some p => on_rt (fun r => set_sessionCloses (sessionCloses r ++ [p]) r) s
    | None => s
    end in
  let s :=
    match processor (this s) with
    | Some p =>
        on_this (set_processor None)
          (on_rt (fun r => set_disconnectedNodes ({[p]} ∪ disconnectedNodes r) r) s)
    | None => s
    end in
  let s :=
    match source (this s) with
    | Some p =>
        on_this (set_source None)
          (on_rt (fun r => set_disconnectedNodes ({[p]} ∪ disconnectedNodes r) r) s)
    | None => s
    end in
  match stream (this s) with
  | Some m =>
      on_this (set_stream None)
        (on_rt (fun r => set_stoppedStreams ({[m]} ∪ stoppedStreams r) r) s)
  | None => s
  end.

(** The state in which the close() promise of context [c] has resolved and
    the stretch parked as [k] is about to run. *)
Definition after_close (c : nat) (k : Continuation) (x : State) : State :=
  unpark (nextTask (rt x))
    (fst (suspend k
            (on_rt (fun r => set_closedContexts ({[c]} ∪ closedContexts r) r) x))).

(** Lines 214-222 and lines 210-222 of [disconnect] with their closes
    awaited, as one function each. *)
Definition torn_output (x : State) : State :=
  match outputAudioContext (this x) with
  | Some c =>
      fst (cleanup (on_this (set_outputAudioContext None)
                      (after_close c KCloseOutput x)))
  | None => fst (cleanup x)
  end.

Definition torn_input (x : State) : State :=
  match inputAudioContext (this x) with
  | Some a =>
      torn_output (on_this (set_inputAudioContext None)
                     (after_close a KCloseInput x))
  | None => torn_output x
  end.

(** ** Relations between transcripts used in the statements *)

(** [m'] is [m] with, at most, more text at the end. *)
Definition grown (m m' : ChatMessage) : Prop :=
  id m' = id m ∧ role m' = role m ∧ timestamp m' = timestamp m
  ∧ ∃ more, text m' = text m ++ more.

(** Two entries in a row are of different speakers unless the first one is
    final. *)
Definition well_separated (ms : list ChatMessage) : Prop :=
  ∀ i a b, ms !! i = Some a → ms !! S i = Some b →
    isFinal a = true ∨ role a ≠ role b.

(** * The page: [App] (src/unnamed/part_001) *)

(** The component's state variables, its reference to the current service
    and the handlers that set them. A state setter takes effect at once;
    what is rendered is read off the state ([start_shown]). The RMS that
    [onaudioprocess] finds is an input of the event; the audio it sends and
    what [onclose] and [onerror] write to the console are not recorded. *)

Inductive ConnectionState := DISCONNECTED | CONNECTING | CONNECTED | ERROR.

(** A handler of the page that awaits a method of a service. *)
Inductive Awaiter :=
| AwaitStart     (* [handleStartCall], at line 34 *)
| AwaitEnd.      (* [handleEndCall], at line 78 *)

(** The state of the component and the services it has created so far.
    Every service comes with the browser objects of its own (its audio
    contexts and their clock, its stream, its nodes, its suspended
    stretches): a [State] each. [serviceRef] holds the place of a service
    in [services]. *)
Record App := mkApp {
  connectionState : ConnectionState;
  messages : list ChatMessage;
  micVolume : Q;
  serviceRef : option nat;
  services : list State;
  awaiting : gmap (nat * nat) Awaiter;  (* service, task ↦ who awaits it *)
  updates : nat;                        (* runs of the updater of line 39 *)
  alerts : nat;                         (* [alert] calls *)
  errors : list Exception               (* [console.error] of line 71 *)
}.

(** The component when it is first rendered (lines 8-11). *)
Definition mounted : App :=
  {| connectionState := DISCONNECTED; messages := []; micVolume := 0;
     serviceRef := None; services := []; awaiting := ∅; updates := 0;
     alerts := 0; errors := [] |}.

Definition set_connectionState v (a : App) :=
  mkApp v (messages a) (micVolume a) (serviceRef a) (services a) (awaiting a)
    (updates a) (alerts a) (errors a).
Definition set_messages v (a : App) :=
  mkApp (connectionState a) v (micVolume a) (serviceRef a) (services a)
    (awaiting a) (updates a) (alerts a) (errors a).
Definition set_micVolume v (a : App) :=
  mkApp (connectionState a) (messages a) v (serviceRef a) (services a)
    (awaiting a) (updates a) (alerts a) (errors a).
Definition set_serviceRef v (a : App) :=
  mkApp (connectionState a) (messages a) (micVolume a) v (services a)
    (awaiting a) (updates a) (alerts a) (errors a).
Definition set_services v (a : App) :=
  mkApp (connectionState a) (messages a) (micVolume a) (serviceRef a) v
    (awaiting a) (updates a) (alerts a) (errors a).
Definition set_awaiting v (a : App) :=
  mkApp (connectionState a) (messages a) (micVolume a) (serviceRef a)
    (services a) v (updates a) (alerts a) (errors a).
Definition set_updates v (a : App) :=
  mkApp (connectionState a) (messages a) (micVolume a) (serviceRef a)
    (services a) (awaiting a) v (alerts a) (errors a).
Definition set_alerts v (a : App) :=
  mkApp (connectionState a) (messages a) (micVolume a) (serviceRef a)
    (services a) (awaiting a) (updates a) v (errors a).
Definition set_errors v (a : App) :=
  mkApp (connectionState a) (messages a) (micVolume a) (serviceRef a)
    (services a) (awaiting a) (updates a) (alerts a) v.

(** What happens to the page, one thing at a time. *)
Inductive PageEvent :=
| ClickStart                        (* the button of lines 177-183 *)
| ClickEnd                          (* the button of lines 193-198 *)
| Unmount                           (* the clean-up of lines 86-92 *)
| Browser (i : nat) (e : Event)     (* an event of the browser for service [i] *)
| SessionClosed (i : nat)           (* [onclose] of the session of service [i] *)
| SessionError (i : nat)            (* [onerror] of the session of service [i] *)
| AudioProcess (i : nat) (vol : Q). (* [onaudioprocess], with the RMS found *)

(** Line 176: which of the two buttons is rendered. *)
Definition start_shown (a : App) : bool :=
  match connectionState a with
  | DISCONNECTED | ERROR => true
  | CONNECTING | CONNECTED => false
  end.

(** The task a settling promise resumes, if the service has one of that
    kind. *)
Definition settles (e : Event) (s : State) : option nat :=
  match e with
  | MicSettled k _ =>
      match tasks (rt s) !! k with Some KGetUserMedia => Some k | _ => None end
  | DecodeSettled k _ =>
      match tasks (rt s) !! k with Some (KDecode _) => Some k | _ => None end
  | CloseSettled k =>
      match tasks (rt s) !! k with
      | Some KCloseInput | Some KCloseOutput => Some k
      | _ => None
      end
  | _ => None
  end.

Section Page.

(** [process.env.API_KEY] is set. *)
Variable apiKey : bool.

(** What [Date.now()], [Math.random()] and [new Date()] give in the n-th
    run of the updater. *)
Variable now : nat → Stamp.

(** The [onMessage] callback of lines 38-67, called for each of [fs]. *)
Definition deliver (fs : list Fragment) (a : App) : App :=
  set_updates (updates a + length fs)
    (set_messages
       (feed (zip fs (now <$> seq (updates a) (length fs))) (messages a)) a).

(** The rest of a handler, once the method it awaits has ended with [o]:
    lines 70-73 of [handleStartCall], lines 79-82 of [handleEndCall]. *)
Definition settled (w : option Awaiter) (o : Outcome) (a : App) : App :=
  match w, o with
  | Some AwaitStart, Thrown e =>
      set_connectionState ERROR (set_errors (errors a ++ [e]) a)
  | Some AwaitEnd, Done =>
      set_micVolume 0
        (set_connectionState DISCONNECTED (set_serviceRef None a))
  | _, _ => a
  end.

(** A stretch [f] of a method of service [i] runs; [w] awaits the method.
    The fragments the stretch hands to [onMessage] reach the transcript. *)
Definition run_stretch (i : nat) (w : option Awaiter)
    (f : State → State * Outcome) (a : App) : App :=
  match services a !! i with
  | None => a
  | Some s =>
      let '(s', o) := f s in
      let a := set_services (<[i := s']> (services a)) a in
      let a := deliver (drop (length (emitted (rt s))) (emitted (rt s'))) a in
      match o with
      | Suspended k =>
          match w with
          | Some w => set_awaiting (<[(i, k) := w]> (awaiting a)) a
          | None => a
          end
      | _ => settled w o a
      end
  end.

(** Lines 21-34 *)
Definition handleStartCall (a : App) : App :=
  if negb apiKey then set_alerts (S (alerts a)) a
  else
    let a := set_connectionState CONNECTING a in
    let a := set_messages [] a in
    let service := length (services a) in
    let a := set_services (services a ++ [initial]) a in
    let a := set_serviceRef (Some service) a in
    run_stretch service (Some AwaitStart) connect a.

(** Lines 76-82; with a service, lines 79-82 are in [settled]. *)
Definition handleEndCall (a : App) : App :=
  match serviceRef a with
  | Some i => run_stretch i (Some AwaitEnd) disconnect a
  | None => set_micVolume 0 (set_connectionState DISCONNECTED a)
  end.

(** Lines 87-91: [disconnect] is called and not awaited. *)
Definition unmount (a : App) : App :=
  match serviceRef a with
  | Some i => run_stretch i None disconnect a
  | None => a
  end.

(** An event of the browser for service [i]. Calling [connect] and
    [disconnect] is for the handlers above, not for the browser. The
    callback of line 35 follows [onopen], line 89. *)
Definition browser_event (i : nat) (e : Event) (a : App) : App :=
  match services a !! i with
  | None => a
  | Some s =>
      match e with
      | CallConnect | CallDisconnect => a
      | MicSettled _ _ | DecodeSettled _ _ | CloseSettled _ =>
          match settles e s with
          | Some k =>
              run_stretch i (awaiting a !! (i, k)) (dispatch e)
                (set_awaiting (delete (i, k) (awaiting a)) a)
          | None => a
          end
      | SessionOpen =>
          let a := run_stretch i None (dispatch e) a in
          match session (this s) with
          | Some _ => set_connectionState CONNECTED a
          | None => a
          end
      | Tick _ | ServerMessage _ | SourceEnded _ =>
          run_stretch i None (dispatch e) a
      end
  end.

Definition page_step (e : PageEvent) (a : App) : App :=
  match e with
  | ClickStart => if start_shown a then handleStartCall a else a
  | ClickEnd => if start_shown a then a else handleEndCall a
  | Unmount => unmount a
  | Browser i e => browser_event i e a
  | SessionClosed i =>                                    (* lines 36, 96 *)
      match s ← services a !! i; session (this s) with
      | Some _ => set_connectionState DISCONNECTED a
      | None => a
      end
  | SessionError i =>                                     (* lines 37, 100 *)
      match s ← services a !! i; session (this s) with
      | Some _ => set_connectionState ERROR a
      | None => a
      end
  | AudioProcess i vol =>                                 (* lines 68, 123 *)
      match s ← services a !! i; processor (this s) with
      | Some _ => set_micVolume vol a
      | None => a
      end
  end.

Definition page_run (es : list PageEvent) (a : App) : App :=
  fold_left (fun a e => page_step e a) es a.

End Page.

(** ** Relations between states of a service used for the page *)

(** The continuations of [disconnect]. *)
Definition closing (c : Continuation) : bool :=
  match c with
  | KCloseInput | KCloseOutput => true
  | _ => false
  end.

(** No [disconnect] of the service is under way. *)
Definition no_teardown (s : State) : Prop :=
  ∀ k c, tasks (rt s) !! k = Some c → closing c = false.

(** Between [s] and [s'] the service kept the audio contexts it held and
    nothing was released in the browser: no context closed, no stream
    stopped, no capture node disconnected, no session asked to close. *)
Definition nothing_released (s s' : State) : Prop :=
  inputAudioContext (this s') = inputAudioContext (this s)
  ∧ outputAudioContext (this s') = outputAudioContext (this s)
  ∧ closedContexts (rt s') = closedContexts (rt s)
  ∧ stoppedStreams (rt s') = stoppedStreams (rt s)
  ∧ disconnectedNodes (rt s') = disconnectedNodes (rt s)
  ∧ sessionCloses (rt s') = sessionCloses (rt s).

(** The clock of the worked examples. *)
Definition tick_stamp (n : nat) : Stamp :=
  {| stamp_id := [N.of_nat n]; stamp_time := Z.of_nat n |}.

(** The event is a click on the start button. *)
Definition is_start (e : PageEvent) : bool :=
  match e with
  | ClickStart => true
  | _ => false
  end.

(** * Properties *)

(** ** The transcript *)

Section Transcript.

Implicit Types (f : Fragment) (st : Stamp) (prev : list ChatMessage).

Lemma index_last {A} (l : list A) :
  JS.index l (Z.of_nat (List.length l) - 1) = last l.
Proof.
  unfold JS.index. rewrite last_lookup.
  destruct l as [|a l]; [reflexivity|].
  cbn [List.length].
  destruct (Z.ltb_spec (Z.of_nat (S (List.length l)) - 1) 0) as [H|H]; [lia|].
  f_equal. lia.
Qed.

(** The updater, by cases on the last entry. *)
Lemma onMessage_pending f st init m :
  Role_eqb (role m) (role_of (f_isUser f)) && negb (isFinal m) = true →
  onMessage f st (init ++ [m]) =
    init ++ [ {| id := id m; role := role m; text := text m ++ f_text f;
                 timestamp := timestamp m; isFinal := f_isFinal f |} ].
Proof.
  intros Hp. unfold onMessage.
  rewrite index_last, last_snoc, Hp.
  rewrite length_app. cbn [List.length].
  replace (Z.to_nat (Z.of_nat (List.length init + 1) - 1))
    with (List.length init + 0)%nat by lia.
  rewrite insert_app_r. reflexivity.
Qed.

Lemma onMessage_fresh f st prev :
  pending_for (f_isUser f) prev = false →
  onMessage f st prev =
    if blank (f_text f) then prev
    else prev ++ [ {| id := stamp_id st; role := role_of (f_isUser f);
                      text := f_text f; timestamp := stamp_time st;
                      isFinal := f_isFinal f |} ].
Proof.
  unfold pending_for, onMessage, blank. rewrite index_last.
  destruct (last prev) as [m|]; [|reflexivity].
  intros ->. reflexivity.
Qed.

Lemma pending_for_snoc isUser init m :
  pending_for isUser (init ++ [m]) =
    Role_eqb (role m) (role_of isUser) && negb (isFinal m).
Proof. unfold pending_for. by rewrite last_snoc. Qed.

Lemma pending_for_inv isUser prev :
  pending_for isUser prev = true →
  ∃ init m, prev = init ++ [m]
            ∧ role m = role_of isUser ∧ isFinal m = false.
Proof.
  unfold pending_for. destruct (last prev) as [m|] eqn:E; [|discriminate].
  intros H. apply last_Some in E as [init ->].
  exists init, m. split; [reflexivity|].
  apply andb_prop in H as [Hr Hf].
  split.
  - destruct (role m), isUser; simpl in *; congruence.
  - by destruct (isFinal m).
Qed.

End Transcript.

(** Trimming leaves nothing exactly when every code unit is white space. *)
Lemma trimStart_nil (t : JS.str) :
  JS.trimStart t = [] ↔ forallb JS.is_white_space t = true.
Proof.
  induction t as [|c t IH]; cbn; [done|].
  destruct (JS.is_white_space c); [exact IH|]. split; discriminate.
Qed.

Lemma trimStart_snoc_solid (l : JS.str) (c : JS.code_unit) :
  JS.is_white_space c = false → JS.trimStart (l ++ [c]) ≠ [].
Proof.
  intros Hc. induction l as [|d l IH]; cbn.
  - by rewrite Hc.
  - destruct (JS.is_white_space d); [exact IH|discriminate].
Qed.

Lemma trimStart_head (t r : JS.str) (c : JS.code_unit) :
  JS.trimStart t = c :: r → JS.is_white_space c = false.
Proof.
  induction t as [|d t IH]; cbn; [discriminate|].
  destruct (JS.is_white_space d) eqn:E; [exact IH|].
  intros [= <- _]. exact E.
Qed.

Lemma blank_all_white (t : JS.str) :
  blank t = forallb JS.is_white_space t.
Proof.
  unfold blank, JS.trim, JS.trimEnd.
  destruct (forallb JS.is_white_space t) eqn:E.
  - apply trimStart_nil in E. by rewrite E.
  - destruct (JS.trimStart t) as [|c r] eqn:Et.
    + apply trimStart_nil in Et. congruence.
    + pose proof (trimStart_head _ _ _ Et) as Hc.
      cbn [rev]. pose proof (trimStart_snoc_solid (rev r) c Hc) as Hne.
      destruct (JS.trimStart (rev r ++ [c])) as [|d l] eqn:El; [done|].
      cbn [rev]. by destruct (rev l).
Qed.

(** C10. A fragment whose text is empty or only white space, arriving when
    the last entry is not a pending utterance of the same speaker, is
    dropped: the transcript is returned as it was, whatever the fragment's
    [isFinal] flag. *)
Theorem blank_fragment_discarded (t : JS.str) (isUser isFinal : bool)
    (st : Stamp) (prev : list ChatMessage) :
  forallb JS.is_white_space t = true →
  pending_for isUser prev = false →
  onMessage (frag t isUser isFinal) st prev = prev.
Proof.
  intros Hb Hp. rewrite onMessage_fresh by exact Hp.
  cbn [frag f_text]. by rewrite blank_all_white, Hb.
Qed.

Lemma blank_fragment_discarded_witness :
  onMessage (frag [0x20; 0x3000; 0xA]%N true true) st0
    [mkChatMessage [0x31]%N user ni_hao 1 true]
  = [mkChatMessage [0x31]%N user ni_hao 1 true].
Proof.
  apply (blank_fragment_discarded [0x20; 0x3000; 0xA]%N true true st0
           [mkChatMessage [0x31]%N user ni_hao 1 true]); reflexivity.
Defined.

(** C7, as stated, fails: after the final utterance of the example, a next
    fragment from the same speaker that is only white space starts no new
    utterance; the transcript keeps its single entry. *)
Lemma blank_after_final_starts_nothing :
  utterances
    (feed [(frag ni_hao true false, st0);
           (frag wo_yao_baoxiu true true, st1);
           (frag [0x20]%N true false, st2)] [])
  = [(user, ni_hao ++ wo_yao_baoxiu, true)].
Proof. reflexivity. Qed.

(** Non-final fragments of the speaker of the pending last entry pile up
    on it. *)
Lemma feed_pending (isUser : bool) (ts : list (JS.str * Stamp))
    (init : list ChatMessage) (m : ChatMessage) :
  role m = role_of isUser → isFinal m = false →
  feed (map (fun ts => (frag (fst ts) isUser false, snd ts)) ts) (init ++ [m])
  = init ++ [ {| id := id m; role := role m;
                 text := text m ++ concat (map fst ts);
                 timestamp := timestamp m; isFinal := false |} ].
Proof.
  revert m. induction ts as [|[t st] ts IH]; intros m Hr Hf.
  - cbn. rewrite app_nil_r. by destruct m; cbn in *; subst.
  - cbn [map feed fold_left fst snd].
    rewrite onMessage_pending.
    2:{ rewrite Hr, Hf. cbn [frag f_isUser]. by destruct isUser. }
    fold (feed (map (fun ts => (frag (fst ts) isUser false, snd ts)) ts)).
    rewrite IH by done. cbn. by rewrite <- app_assoc.
Qed.

Lemma feed_speech (isUser : bool) (t0 : JS.str) (st : Stamp)
    (ts : list (JS.str * Stamp)) (tf : JS.str) (stf : Stamp)
    (prev : list ChatMessage) :
  pending_for isUser prev = false →
  forallb JS.is_white_space t0 = false →
  feed (speech isUser t0 st ts tf stf) prev
  = prev ++ [ {| id := stamp_id st; role := role_of isUser;
                 text := t0 ++ concat (map fst ts) ++ tf;
                 timestamp := stamp_time st; isFinal := true |} ].
Proof.
  intros Hp Hb. unfold speech, feed. cbn [fold_left fst snd].
  rewrite fold_left_app. cbn [fold_left fst snd].
  rewrite (onMessage_fresh (frag t0 isUser false) st prev) by exact Hp.
  rewrite blank_all_white.
  cbn [frag f_text f_isUser f_isFinal]. rewrite Hb.
  pose proof (feed_pending isUser ts prev
    {| id := stamp_id st; role := role_of isUser; text := t0;
       timestamp := stamp_time st; isFinal := false |} eq_refl eq_refl) as H.
  unfold feed in H. rewrite H. cbn [id role text timestamp].
  rewrite onMessage_pending.
  2:{ cbn. by destruct isUser. }
  cbn. by rewrite <- app_assoc.
Qed.

(** C7, amended. A fragment that finds a pending utterance of its speaker as
    the last entry is concatenated onto it, and that utterance takes the
    fragment's [isFinal]. A fragment that finds none (the transcript is
    empty, or its last entry is final, even if of the same speaker, or is the
    other speaker's) and whose text is not blank starts a new utterance. So
    a run of fragments of one speaker that begins with a non-blank one and
    ends with the first final one gives a single final utterance, the
    concatenation of their texts. On the example: the first two fragments
    give one final utterance, the third a second one. *)
Theorem transcript_accumulation (f : Fragment) (st : Stamp)
    (prev : list ChatMessage) :
  (pending_for (f_isUser f) prev = true →
     ∃ init m, prev = init ++ [m]
       ∧ onMessage f st prev =
           init ++ [ {| id := id m; role := role m;
                        text := text m ++ f_text f;
                        timestamp := timestamp m; isFinal := f_isFinal f |} ])
  ∧ (pending_for (f_isUser f) prev = false →
     forallb JS.is_white_space (f_text f) = false →
       onMessage f st prev =
         prev ++ [ {| id := stamp_id st; role := role_of (f_isUser f);
                      text := f_text f; timestamp := stamp_time st;
                      isFinal := f_isFinal f |} ])
  ∧ (∀ ts tf stf,
       pending_for (f_isUser f) prev = false →
       forallb JS.is_white_space (f_text f) = false →
       utterances (feed (speech (f_isUser f) (f_text f) st ts tf stf) prev)
       = utterances prev
         ++ [(role_of (f_isUser f),
              f_text f ++ concat (map fst ts) ++ tf, true)])
  ∧ utterances (feed [(frag ni_hao true false, st0);
                      (frag wo_yao_baoxiu true true, st1)] [])
      = [(user, ni_hao ++ wo_yao_baoxiu, true)]
  ∧ utterances (feed [(frag ni_hao true false, st0);
                      (frag wo_yao_baoxiu true true, st1);
                      (frag bingxiang true false, st2)] [])
      = [(user, ni_hao ++ wo_yao_baoxiu, true); (user, bingxiang, false)].
Proof.
  split; [|split; [|split; [|split; reflexivity]]].
  - intros Hp. destruct (pending_for_inv _ _ Hp) as (init & m & -> & Hr & Hf).
    exists init, m. split; [reflexivity|].
    apply onMessage_pending.
    rewrite pending_for_snoc in Hp. exact Hp.
  - intros Hp Hb. rewrite onMessage_fresh by exact Hp.
    by rewrite blank_all_white, Hb.
  - intros ts tf stf Hp Hb. rewrite feed_speech by done.
    unfold utterances. rewrite map_app. reflexivity.
Qed.

Lemma transcript_accumulation_witness :
  onMessage (frag bingxiang true false) st2
    [mkChatMessage [0x31]%N user (ni_hao ++ wo_yao_baoxiu) 1 true]
  = [mkChatMessage [0x31]%N user (ni_hao ++ wo_yao_baoxiu) 1 true;
     mkChatMessage [0x33]%N user bingxiang 3 false].
Proof.
  apply (proj1 (proj2 (transcript_accumulation (frag bingxiang true false) st2
           [mkChatMessage [0x31]%N user (ni_hao ++ wo_yao_baoxiu) 1 true])));
    reflexivity.
Defined.

(** ** The service: basic facts *)

Ltac unfold_setters :=
  unfold set_session, set_inputAudioContext, set_outputAudioContext,
    set_stream, set_processor, set_source, set_nextStartTime, set_outputNode,
    set_sources, set_currentTime, set_nodes, set_closedContexts,
    set_stoppedStreams, set_disconnectedNodes, set_sessionCloses,
    set_micRequests, set_console, set_emitted, set_tasks, set_nextTask,
    set_nextObject in *.

Ltac unfold_rt :=
  cbn in *;
  unfold alloc, log, emit, suspend, unpark, on_this, on_rt in *;
  unfold_setters; cbn [this rt fst snd] in *.

Ltac destruct_state s :=
  let t := fresh "t" in let r := fresh "r" in
  destruct s as [t r]; destruct t, r.

Lemma transcriptions_spec (m : Msg.LiveServerMessage) (s : State) :
  transcriptions m s = on_rt (fun r => set_emitted (emitted r ++ fragments m) r) s.
Proof.
  unfold transcriptions, fragments.
  destruct (_ ← Msg.serverContent m; Msg.inputTranscription _);
    destruct (_ ← Msg.serverContent m; Msg.outputTranscription _);
    destruct_state s; unfold_rt; cbn; rewrite <- ?app_assoc, ?app_nil_r;
    reflexivity.
Qed.

Lemma lookup_stop_all (set : gset nat) (ns : gmap nat SourceNode) (h : nat) :
  stop_all set ns !! h =
    (fun n => if bool_decide (h ∈ set) then stop n else n) <$> ns !! h.
Proof.
  unfold stop_all. rewrite map_lookup_imap.
  by destruct (ns !! h).
Qed.

Lemma duration_nonneg (b : AudioBuffer) : (0 <= duration b)%Q.
Proof. unfold duration, Qle. cbn. lia. Qed.

Lemma Qmax_ge_l (a b : Q) : (a <= Qmax a b)%Q.
Proof. apply Q.le_max_l. Qed.

Lemma Qmax_ge_r (a b : Q) : (b <= Qmax a b)%Q.
Proof. apply Q.le_max_r. Qed.

(** States that agree on what [wf] reads, up to larger counters. *)
Lemma wf_ext (s s' : State) :
  currentTime (rt s') = currentTime (rt s) →
  nextStartTime (this s') = nextStartTime (this s) →
  sources (this s') = sources (this s) →
  nodes (rt s') = nodes (rt s) →
  closedContexts (rt s') = closedContexts (rt s) →
  inputAudioContext (this s') = inputAudioContext (this s) →
  outputAudioContext (this s') = outputAudioContext (this s) →
  tasks (rt s') = tasks (rt s) →
  (nextObject (rt s) ≤ nextObject (rt s'))%nat →
  (nextTask (rt s) ≤ nextTask (rt s'))%nat →
  wf s → wf s'.
Proof.
  intros Hc Hn Hs Hno Hcl Hi Hou Ht Ho Hk [].
  constructor; rewrite ?Hc, ?Hn, ?Hs, ?Hno, ?Hcl, ?Hi, ?Hou, ?Ht; auto.
  - intros h Hh. specialize (wf_nodes_fresh0 h Hh). lia.
  - intros c Hh. specialize (wf_closed_fresh0 c Hh). lia.
  - intros c Hh. specialize (wf_input_fresh0 c Hh). lia.
  - intros c Hh. specialize (wf_output_fresh0 c Hh). lia.
  - intros k Hh. specialize (wf_tasks_fresh0 k Hh). lia.
Qed.

Lemma wf_initial : wf initial.
Proof.
  constructor; cbn.
  - apply Qle_refl.
  - apply Qle_refl.
  - intros h. split; [set_solver|]. intros (n & Hn & _).
    by rewrite lookup_empty in Hn.
  - intros h n Hn. by rewrite lookup_empty in Hn.
  - intros h [n Hn]. by rewrite lookup_empty in Hn.
  - set_solver.
  - discriminate.
  - discriminate.
  - intros h [n Hn]. by rewrite lookup_empty in Hn.
Qed.

(** ** Every event keeps the state well formed *)

Lemma wf_transcriptions m s : wf s → wf (transcriptions m s).
Proof.
  rewrite transcriptions_spec. apply wf_ext; destruct_state s; cbn; done.
Qed.

Lemma wf_log e s : wf s → wf (log e s).
Proof. apply wf_ext; destruct_state s; cbn; done. Qed.

Lemma wf_alloc s : wf s → wf (snd (alloc s)).
Proof. apply wf_ext; destruct_state s; cbn; done || lia. Qed.

Lemma wf_this_other f s :
  nextStartTime (f (this s)) = nextStartTime (this s) →
  sources (f (this s)) = sources (this s) →
  inputAudioContext (f (this s)) = inputAudioContext (this s) →
  outputAudioContext (f (this s)) = outputAudioContext (this s) →
  wf s → wf (on_this f s).
Proof. intros. eapply wf_ext; [..|eassumption]; cbn; done. Qed.

Lemma wf_suspend c s : wf s → wf (fst (suspend c s)).
Proof.
  intros []. destruct_state s. unfold_rt. constructor; cbn in *; auto.
  intros k [x Hk]. destruct (decide (nextTask0 = k)) as [->|Hne]; [lia|].
  rewrite lookup_insert_ne in Hk by done.
  specialize (wf_tasks_fresh0 k (ex_intro _ x Hk)). lia.
Qed.

Lemma wf_unpark k s : wf s → wf (unpark k s).
Proof.
  intros []. destruct_state s. unfold_rt. constructor; cbn in *; auto.
  intros k' [x Hk]. apply wf_tasks_fresh0. exists x.
  destruct (decide (k = k')) as [->|Hne].
  - by rewrite lookup_delete_eq in Hk.
  - by rewrite lookup_delete_ne in Hk.
Qed.

(** Stopping every remembered source, forgetting them, cursor to 0. *)
Lemma wf_stop_clear s :
  wf s →
  wf (on_this (fun t => set_nextStartTime 0%Q (set_sources ∅ t))
        (on_rt (fun r => set_nodes (stop_all (sources (this s)) (nodes r)) r) s)).
Proof.
  intros []. destruct_state s. unfold_rt. constructor; cbn in *; auto.
  - apply Qle_refl.
  - intros h. split; [set_solver|]. intros (n & Hn & Hl).
    rewrite lookup_stop_all in Hn.
    destruct (nodes0 !! h) as [n0|] eqn:E; [|discriminate].
    cbn in Hn. injection Hn as <-.
    case_bool_decide as Hin.
    + unfold live, stop in Hl. cbn in Hl. discriminate.
    + exfalso. apply Hin, wf_sources0. eauto.
  - intros h n Hn. rewrite lookup_stop_all in Hn.
    destruct (nodes0 !! h) as [n0|] eqn:E; [|discriminate].
    cbn in Hn. injection Hn as <-.
    specialize (wf_listener0 h n0 E). by case_bool_decide.
  - intros h [n Hn]. rewrite lookup_stop_all in Hn.
    destruct (nodes0 !! h) as [n0|] eqn:E; [|discriminate]. eauto.
Qed.

Lemma wf_interruption i s : wf s → wf (interruption i s).
Proof.
  intros H. unfold interruption. destruct i; [|done].
  apply (wf_stop_clear (log log_model_interrupted s)), wf_log, H.
Qed.

Lemma wf_cleanup s : wf s → wf (fst (cleanup s)).
Proof. intros H. apply (wf_stop_clear s H). Qed.

Lemma wf_schedule b s : wf s → wf (schedule b s).
Proof.
  intros H. unfold schedule.
  destruct (outputAudioContext (this s)) as [c|]; [|by apply wf_log].
  destruct (outputNode (this s)) as [g|]; [|by apply wf_log].
  destruct H. destruct_state s. unfold_rt. constructor; cbn in *; auto.
  - pose proof (duration_nonneg b). lra.
  - intros h. rewrite elem_of_union, elem_of_singleton, wf_sources0.
    destruct (decide (nextObject0 = h)) as [->|Hne].
    + rewrite lookup_insert_eq. split; [|by left]. intros _. eauto.
    + rewrite lookup_insert_ne by done. split; [|by right].
      intros [->|Hh]; [done|exact Hh].
  - intros h n. destruct (decide (nextObject0 = h)) as [->|Hne].
    + rewrite lookup_insert_eq. by intros [= <-].
    + rewrite lookup_insert_ne by done. apply wf_listener0.
  - intros h. destruct (decide (nextObject0 = h)) as [->|Hne]; [lia|].
    rewrite lookup_insert_ne by done. intros Hh.
    specialize (wf_nodes_fresh0 h Hh). lia.
  - intros c0 Hc. specialize (wf_closed_fresh0 c0 Hc). lia.
  - intros c0 Hc. specialize (wf_input_fresh0 c0 Hc). lia.
  - intros c0 Hc. specialize (wf_output_fresh0 c0 Hc). lia.
Qed.

Lemma wf_fire_ended h s : wf s → wf (fire_ended h s).
Proof.
  intros H. unfold fire_ended.
  destruct (nodes (rt s) !! h) as [n|] eqn:E; [|done].
  destruct (ended n) eqn:En; [done|].
  rewrite (wf_listener s H h n E).
  destruct H. destruct_state s. unfold_rt. constructor; cbn in *; auto.
  - intros h'. rewrite elem_of_difference, elem_of_singleton, wf_sources0.
    destruct (decide (h = h')) as [->|Hne].
    + rewrite lookup_insert_eq. split; [tauto|].
      intros (n' & [= <-] & Hl). unfold live, finish in Hl. cbn in Hl.
      by rewrite andb_false_r in Hl.
    + rewrite lookup_insert_ne by done. split; [tauto|]. intros Hx. split; [done|].
      congruence.
  - intros h' n'. destruct (decide (h = h')) as [->|Hne].
    + rewrite lookup_insert_eq. intros [= <-]. cbn. eauto.
    + rewrite lookup_insert_ne by done. apply wf_listener0.
  - intros h'. destruct (decide (h = h')) as [->|Hne].
    + intros _. apply wf_nodes_fresh0. eauto.
    + rewrite lookup_insert_ne by done. apply wf_nodes_fresh0.
Qed.

Lemma wf_tick dt s : wf s → wf (step (Tick dt) s).
Proof.
  intros H. unfold step. cbn. destruct (Qle_bool 0 dt) eqn:E; [|done].
  apply Qle_bool_iff in E.
  destruct H. destruct_state s. unfold_rt. constructor; cbn in *; auto.
  lra.
Qed.

Lemma wf_reanchor s :
  wf s →
  wf (on_this (fun t =>
        set_nextStartTime (Qmax (nextStartTime t) (currentTime (rt s))) t) s).
Proof.
  intros []. destruct_state s. unfold_rt. constructor; cbn in *; auto.
  eapply Qle_trans; [exact wf_cursor0|apply Qmax_ge_l].
Qed.

Lemma wf_handleServerMessage m s : wf s → wf (fst (handleServerMessage m s)).
Proof.
  intros H. unfold handleServerMessage.
  apply (wf_transcriptions m) in H.
  destruct (audio_branch m (transcriptions m s)).
  - apply wf_suspend, wf_reanchor, H.
  - cbn. apply wf_interruption, H.
Qed.

Lemma wf_handleServerMessage_k i r s :
  wf s → wf (fst (handleServerMessage_k i r s)).
Proof.
  intros H. unfold handleServerMessage_k. cbn.
  apply wf_interruption. destruct r; [by apply wf_log|by apply wf_schedule].
Qed.

Lemma wf_connect s : wf s → wf (fst (connect s)).
Proof.
  intros []. unfold connect. destruct_state s. cbn in *.
  constructor; cbn; auto.
  - intros h Hh. specialize (wf_nodes_fresh0 h Hh). lia.
  - intros c Hc. specialize (wf_closed_fresh0 c Hc). lia.
  - intros c [= <-]. lia.
  - intros c [= <-]. lia.
  - intros k [x Hk]. destruct (decide (nextTask0 = k)) as [->|Hne]; [lia|].
    rewrite lookup_insert_ne in Hk by done.
    specialize (wf_tasks_fresh0 k (ex_intro _ x Hk)). lia.
Qed.

Lemma wf_connect_k r s : wf s → wf (fst (connect_k r s)).
Proof.
  intros H. unfold connect_k. destruct r as [err|[]]; [by apply wf_log|].
  revert H. apply wf_ext; destruct_state s; cbn; done || lia.
Qed.

Lemma wf_onopen s : wf s → wf (onopen s).
Proof.
  intros H. unfold onopen, startInputStreaming.
  apply (wf_log log_session_opened) in H.
  destruct (inputAudioContext _); [|done]. destruct (stream _); [|done].
  revert H. generalize (log log_session_opened s). intros s'.
  apply wf_ext; destruct_state s'; cbn; done || lia.
Qed.

Lemma wf_close_context c s s' :
  (inputAudioContext (this s) = Some c ∨ outputAudioContext (this s) = Some c) →
  close_context c s = Some s' → wf s → wf s'.
Proof.
  unfold close_context. intros Hc. case_bool_decide; [discriminate|].
  intros [= <-] []. destruct_state s. unfold_rt. constructor; cbn in *; auto.
  intros c'. rewrite elem_of_union, elem_of_singleton.
  intros [->|Hin]; [|by apply wf_closed_fresh0].
  destruct Hc; eauto.
Qed.

Lemma wf_disconnect_output s : wf s → wf (fst (disconnect_output s)).
Proof.
  intros H. unfold disconnect_output.
  destruct (outputAudioContext (this s)) as [c|] eqn:E; [|by apply wf_cleanup].
  destruct (close_context c s) as [s'|] eqn:Ec; [|done].
  apply wf_suspend. eapply wf_close_context; eauto.
Qed.

Lemma wf_disconnect_input s : wf s → wf (fst (disconnect_input s)).
Proof.
  intros H. unfold disconnect_input.
  destruct (inputAudioContext (this s)) as [c|] eqn:E;
    [|by apply wf_disconnect_output].
  destruct (close_context c s) as [s'|] eqn:Ec; [|done].
  apply wf_suspend. eapply wf_close_context; eauto.
Qed.

Lemma wf_drop_context s :
  wf s →
  wf (on_this (set_inputAudioContext None) s)
  ∧ wf (on_this (set_outputAudioContext None) s).
Proof.
  intros []. split; destruct_state s; unfold_rt; constructor; cbn in *; auto;
    discriminate.
Qed.

Lemma wf_disconnect s : wf s → wf (fst (disconnect s)).
Proof.
  intros H. unfold disconnect. apply wf_disconnect_input.
  assert (Hext : ∀ s1 s2 : State,
            currentTime (rt s2) = currentTime (rt s1) →
            nextStartTime (this s2) = nextStartTime (this s1) →
            sources (this s2) = sources (this s1) →
            nodes (rt s2) = nodes (rt s1) →
            closedContexts (rt s2) = closedContexts (rt s1) →
            inputAudioContext (this s2) = inputAudioContext (this s1) →
            outputAudioContext (this s2) = outputAudioContext (this s1) →
            tasks (rt s2) = tasks (rt s1) →
            nextObject (rt s2) = nextObject (rt s1) →
            nextTask (rt s2) = nextTask (rt s1) →
            wf s1 → wf s2).
  { intros s1 s2 ? ? ? ? ? ? ? ? Ho Hk. apply wf_ext; try done; lia. }
  repeat match goal with
  | |- wf (match ?x with Some _ => _ | None => _ end) => destruct x
  | |- wf (on_this _ (on_rt _ ?s0)) =>
      apply (Hext s0); [done..|]
  | |- wf (on_rt _ ?s0) => apply (Hext s0); [done..|]
  end; exact H.
Qed.

Lemma wf_step (e : Event) (s : State) : wf s → wf (step e s).
Proof.
  intros H. destruct e; unfold step; cbn [dispatch].
  - by apply wf_tick.
  - by apply wf_connect.
  - destruct (tasks (rt s) !! k) as [[]|]; try done.
    by apply wf_connect_k, wf_unpark.
  - cbn. destruct (session (this s)); [by apply wf_onopen|done].
  - by apply wf_handleServerMessage.
  - destruct (tasks (rt s) !! k) as [[]|]; try done.
    by apply wf_handleServerMessage_k, wf_unpark.
  - by apply wf_fire_ended.
  - by apply wf_disconnect.
  - destruct (tasks (rt s) !! k) as [[]|]; try done.
    + unfold disconnect_input_k. apply wf_disconnect_output.
      by apply wf_drop_context, wf_unpark.
    + unfold disconnect_output_k. apply wf_cleanup.
      by apply wf_drop_context, wf_unpark.
Qed.

Lemma wf_run (es : list Event) (s : State) : wf s → wf (run es s).
Proof.
  revert s. induction es as [|e es IH]; intros s H; [done|].
  cbn. apply IH, wf_step, H.
Qed.

(** ** Ambient events *)

Lemma calm_refl s : calm s s.
Proof. constructor; try done. apply Qle_refl. Qed.

Lemma calm_trans s1 s2 s3 : calm s1 s2 → calm s2 s3 → calm s1 s3.
Proof.
  intros [] []. constructor; try congruence; auto.
  eapply Qle_trans; eassumption.
Qed.

Lemma ambient_calm e s : ambient e = true → calm s (step e s).
Proof.
  destruct e; try discriminate; intros _; unfold step; cbn [dispatch fst].
  - destruct (Qle_bool 0 dt) eqn:E; [|apply calm_refl].
    apply Qle_bool_iff in E.
    destruct_state s. unfold_rt. constructor; cbn; try done. lra.
  - unfold fire_ended. destruct (nodes (rt s) !! h) as [n|] eqn:En;
      [|apply calm_refl].
    destruct (ended n); [apply calm_refl|].
    assert (Hs : ∀ f,
      silent s →
      silent (on_this f (on_rt (fun r => set_nodes (<[h:=finish n]> (nodes r)) r) s))).
    { intros f Hs h' n'. destruct_state s. unfold_rt. cbn in *.
      destruct (decide (h = h')) as [->|Hne].
      - rewrite lookup_insert_eq. intros [= <-]. unfold live, finish. cbn.
        apply andb_false_r.
      - rewrite lookup_insert_ne by done. apply Hs. }
    destruct (onended_delete n).
    + constructor; try (destruct_state s; unfold_rt; cbn; done || apply Qle_refl).
      apply Hs.
    + constructor; try (destruct_state s; unfold_rt; cbn; done || apply Qle_refl).
      apply (Hs (fun t => t)).
Qed.

Lemma run_ambient_calm es s : forallb ambient es = true → calm s (run es s).
Proof.
  revert s. induction es as [|e es IH]; intros s H; [apply calm_refl|].
  cbn in H. apply andb_prop in H as [He Hes].
  cbn. eapply calm_trans; [apply ambient_calm, He|apply IH, Hes].
Qed.

(** ** What one scheduling does *)

Lemma audio_branch_transcriptions m s :
  audio_branch m (transcriptions m s) = audio_branch m s.
Proof. rewrite transcriptions_spec. by destruct_state s. Qed.

Lemma audio_branch_inv m s :
  audio_branch m s = true →
  ∃ c g, outputAudioContext (this s) = Some c ∧ outputNode (this s) = Some g.
Proof.
  unfold audio_branch. destruct (Msg.base64Audio m); [|discriminate].
  intros H. apply andb_prop in H as [H Hg]. apply andb_prop in H as [_ Hc].
  apply bool_decide_eq_true in Hg as [g Hg], Hc as [c Hc]. eauto.
Qed.


(** The start of the method when there is audio to play. *)
Lemma handleServerMessage_audio m s :
  audio_branch m s = true →
  snd (handleServerMessage m s) = Suspended (nextTask (rt s))
  ∧ this (step (ServerMessage m) s) =
      set_nextStartTime (Qmax (nextStartTime (this s)) (currentTime (rt s)))
        (this s)
  ∧ tasks (rt (step (ServerMessage m) s)) =
      <[nextTask (rt s) := KDecode (Msg.is_interrupted m)]> (tasks (rt s))
  ∧ nodes (rt (step (ServerMessage m) s)) = nodes (rt s)
  ∧ currentTime (rt (step (ServerMessage m) s)) = currentTime (rt s)
  ∧ nextObject (rt (step (ServerMessage m) s)) = nextObject (rt s)
  ∧ nextTask (rt (step (ServerMessage m) s)) = S (nextTask (rt s)).
Proof.
  intros H. unfold step. cbn [dispatch]. unfold handleServerMessage.
  rewrite audio_branch_transcriptions, H, transcriptions_spec.
  destruct_state s. unfold_rt. cbn. done.
Qed.

(** The start of the method when there is none. *)
Lemma handleServerMessage_silent m s :
  audio_branch m s = false →
  handleServerMessage m s =
    (interruption (Msg.is_interrupted m) (transcriptions m s), Done).
Proof.
  intros H. unfold handleServerMessage.
  by rewrite audio_branch_transcriptions, H.
Qed.

(** Scheduling with the output context and gain node in place. *)
Lemma schedule_spec b s c g :
  outputAudioContext (this s) = Some c → outputNode (this s) = Some g →
  nodes (rt (schedule b s)) =
    <[nextObject (rt s) :=
        {| buffer := b; connectedTo := g; onended_delete := true;
           startedAt := nextStartTime (this s);
           stopped := false; ended := false |}]> (nodes (rt s))
  ∧ nextStartTime (this (schedule b s)) =
      (nextStartTime (this s) + duration b)%Q
  ∧ sources (this (schedule b s)) = {[nextObject (rt s)]} ∪ sources (this s)
  ∧ nextObject (rt (schedule b s)) = S (nextObject (rt s))
  ∧ outputAudioContext (this (schedule b s)) = Some c
  ∧ outputNode (this (schedule b s)) = Some g
  ∧ currentTime (rt (schedule b s)) = currentTime (rt s)
  ∧ tasks (rt (schedule b s)) = tasks (rt s).
Proof.
  intros Hc Hg. unfold schedule. rewrite Hc, Hg.
  destruct_state s. unfold_rt. cbn in *. done.
Qed.

(** The interruption branch, taken. *)
Lemma interruption_spec s :
  sources (this (interruption true s)) = ∅
  ∧ nextStartTime (this (interruption true s)) = 0%Q
  ∧ nodes (rt (interruption true s)) = stop_all (sources (this s)) (nodes (rt s))
  ∧ outputAudioContext (this (interruption true s)) = outputAudioContext (this s)
  ∧ outputNode (this (interruption true s)) = outputNode (this s)
  ∧ tasks (rt (interruption true s)) = tasks (rt s)
  ∧ nextObject (rt (interruption true s)) = nextObject (rt s)
  ∧ currentTime (rt (interruption true s)) = currentTime (rt s).
Proof. destruct_state s. unfold interruption. unfold_rt. cbn. done. Qed.

(** After stopping every remembered source of a well-formed state, nothing
    sounds. *)
Lemma stop_all_silent s s' :
  wf s →
  nodes (rt s') = stop_all (sources (this s)) (nodes (rt s)) →
  silent s'.
Proof.
  intros H Hn h n. rewrite Hn, lookup_stop_all.
  destruct (nodes (rt s) !! h) as [n0|] eqn:E; [|discriminate].
  cbn. intros [= <-]. case_bool_decide as Hin.
  - reflexivity.
  - destruct (live n0) eqn:El; [|done].
    exfalso. apply Hin, (wf_sources s H). eauto.
Qed.

Lemma stop_all_stops s s' h n :
  nodes (rt s') = stop_all (sources (this s)) (nodes (rt s)) →
  h ∈ sources (this s) → nodes (rt s') !! h = Some n → stopped n = true.
Proof.
  intros Hn Hin. rewrite Hn, lookup_stop_all.
  destruct (nodes (rt s) !! h) as [n0|]; [|discriminate].
  cbn. intros [= <-]. by rewrite bool_decide_eq_true_2.
Qed.

(** ** Settling a decode *)

Lemma unpark_spec k s :
  this (unpark k s) = this s
  ∧ nodes (rt (unpark k s)) = nodes (rt s)
  ∧ nextObject (rt (unpark k s)) = nextObject (rt s)
  ∧ currentTime (rt (unpark k s)) = currentTime (rt s)
  ∧ tasks (rt (unpark k s)) = delete k (tasks (rt s))
  ∧ console (rt (unpark k s)) = console (rt s).
Proof. by destruct_state s. Qed.

Lemma step_decoded k i r s :
  tasks (rt s) !! k = Some (KDecode i) →
  step (DecodeSettled k r) s =
    interruption i
      match r with
      | inr b => schedule b (unpark k s)
      | inl err => log (log_decode_error err) (unpark k s)
      end.
Proof. intros H. unfold step. cbn [dispatch]. by rewrite H. Qed.

Lemma step_decoded_other k r s :
  (∀ i, tasks (rt s) !! k ≠ Some (KDecode i)) →
  step (DecodeSettled k r) s = s.
Proof.
  intros H. unfold step. cbn [dispatch].
  destruct (tasks (rt s) !! k) as [[| i | |]|] eqn:E; try done.
  by destruct (H i).
Qed.

(** A decoded segment, settled in a state whose output side is in place and
    whose message carried no interruption. *)
Lemma step_decoded_ok k b s c g :
  tasks (rt s) !! k = Some (KDecode false) →
  outputAudioContext (this s) = Some c → outputNode (this s) = Some g →
  nodes (rt (step (DecodeSettled k (inr b)) s)) =
    <[nextObject (rt s) :=
        {| buffer := b; connectedTo := g; onended_delete := true;
           startedAt := nextStartTime (this s);
           stopped := false; ended := false |}]> (nodes (rt s))
  ∧ nextStartTime (this (step (DecodeSettled k (inr b)) s)) =
      (nextStartTime (this s) + duration b)%Q
  ∧ sources (this (step (DecodeSettled k (inr b)) s)) =
      {[nextObject (rt s)]} ∪ sources (this s)
  ∧ currentTime (rt (step (DecodeSettled k (inr b)) s)) = currentTime (rt s).
Proof.
  intros Hk Hc Hg. rewrite (step_decoded k false) by done. cbn [interruption].
  destruct (unpark_spec k s) as (Ht & Hn & Ho & Hcl & _).
  destruct (schedule_spec b (unpark k s) c g) as (-> & -> & -> & _ & _ & _ & -> & _);
    rewrite ?Ht, ?Hn, ?Ho, ?Hcl; done.
Qed.

(** The ['ended'] listener forgets the source. *)
Lemma fire_ended_forgets h n s :
  wf s →
  nodes (rt s) !! h = Some n → onended_delete n = true →
  h ∉ sources (this (step (SourceEnded h) s)).
Proof.
  intros H Hn Hl. unfold step. cbn [dispatch fst]. unfold fire_ended.
  rewrite Hn, Hl. destruct (ended n) eqn:E.
  - rewrite (wf_sources s H). intros (n' & Hn' & Hlive).
    assert (n' = n) as -> by congruence.
    unfold live in Hlive. rewrite E in Hlive. by rewrite andb_false_r in Hlive.
  - destruct_state s. unfold_rt. cbn.
    rewrite elem_of_difference, elem_of_singleton. tauto.
Qed.

(** ** The cursor along events *)

Lemma close_context_this c s s' :
  close_context c s = Some s' →
  this s' = this s ∧ nodes (rt s') = nodes (rt s)
  ∧ closedContexts (rt s') = {[c]} ∪ closedContexts (rt s)
  ∧ tasks (rt s') = tasks (rt s) ∧ nextTask (rt s') = nextTask (rt s)
  ∧ stoppedStreams (rt s') = stoppedStreams (rt s)
  ∧ disconnectedNodes (rt s') = disconnectedNodes (rt s)
  ∧ c ∉ closedContexts (rt s).
Proof.
  unfold close_context. case_bool_decide; [discriminate|].
  intros [= <-]. by destruct_state s.
Qed.

Lemma cleanup_cursor s : nextStartTime (this (fst (cleanup s))) = 0%Q.
Proof. by destruct_state s. Qed.

Lemma disconnect_output_cursor s :
  nextStartTime (this (fst (disconnect_output s))) = nextStartTime (this s)
  ∨ nextStartTime (this (fst (disconnect_output s))) = 0%Q.
Proof.
  unfold disconnect_output. destruct (outputAudioContext (this s)) as [c|].
  - destruct (close_context c s) as [s'|] eqn:E; [|by left].
    apply close_context_this in E as (Ht & _). left.
    destruct_state s'. cbn in *. by rewrite <- Ht.
  - right. apply cleanup_cursor.
Qed.

Lemma disconnect_input_cursor s :
  nextStartTime (this (fst (disconnect_input s))) = nextStartTime (this s)
  ∨ nextStartTime (this (fst (disconnect_input s))) = 0%Q.
Proof.
  unfold disconnect_input. destruct (inputAudioContext (this s)) as [c|].
  - destruct (close_context c s) as [s'|] eqn:E; [|by left].
    apply close_context_this in E as (Ht & _). left.
    destruct_state s'. cbn in *. by rewrite <- Ht.
  - apply disconnect_output_cursor.
Qed.

Lemma disconnect_cursor s :
  nextStartTime (this (fst (disconnect s))) = nextStartTime (this s)
  ∨ nextStartTime (this (fst (disconnect s))) = 0%Q.
Proof.
  unfold disconnect.
  match goal with |- context [disconnect_input ?x] =>
    assert (Hx : nextStartTime (this x) = nextStartTime (this s));
    [|rewrite <- Hx; apply disconnect_input_cursor] end.
  destruct_state s. cbn.
  destruct session0, processor0, source0, stream0; reflexivity.
Qed.

Lemma schedule_cursor_le b s :
  (nextStartTime (this s) <= nextStartTime (this (schedule b s)))%Q.
Proof.
  unfold schedule.
  destruct (outputAudioContext (this s)) as [c|] eqn:Ec;
    [|destruct_state s; apply Qle_refl].
  destruct (outputNode (this s)) as [g|] eqn:Eg;
    [|destruct_state s; apply Qle_refl].
  destruct (schedule_spec b s c g Ec Eg) as (_ & Hn & _).
  unfold schedule in Hn. rewrite Ec, Eg in Hn. rewrite Hn.
  pose proof (duration_nonneg b). lra.
Qed.

Lemma interruption_cursor i s :
  nextStartTime (this (interruption i s)) =
    if i then 0%Q else nextStartTime (this s).
Proof. destruct i; [|done]. by destruct_state s. Qed.

(** Across any event the cursor does not decrease, unless the event runs
    the resetting code, and then the cursor is 0. *)
Lemma cursor_step e s :
  (nextStartTime (this s) <= nextStartTime (this (step e s)))%Q
  ∨ (may_reset e s = true ∧ nextStartTime (this (step e s)) = 0%Q).
Proof.
  destruct e; unfold step; cbn [dispatch may_reset fst].
  - left. destruct (Qle_bool 0 dt); destruct_state s; apply Qle_refl.
  - left. destruct_state s. apply Qle_refl.
  - left. destruct (tasks (rt s) !! k) as [[]|]; try apply Qle_refl.
    destruct r as [err|[]]; destruct_state s; apply Qle_refl.
  - left. destruct (session (this s)); [|apply Qle_refl].
    unfold onopen, startInputStreaming.
    destruct_state s. cbn. destruct inputAudioContext0, stream0; apply Qle_refl.
  - unfold handleServerMessage.
    destruct (audio_branch m (transcriptions m s)) eqn:E.
    + left. rewrite transcriptions_spec. destruct_state s. cbn.
      apply Qmax_ge_l.
    + cbn [fst]. rewrite interruption_cursor.
      destruct (Msg.is_interrupted m); [by right|left].
      rewrite transcriptions_spec. destruct_state s. apply Qle_refl.
  - destruct (tasks (rt s) !! k) as [[| i | |]|] eqn:Ek; try (left; apply Qle_refl).
    unfold handleServerMessage_k. cbn [fst]. rewrite interruption_cursor.
    destruct i; [by right|left].
    destruct r as [err|b].
    + destruct_state s. apply Qle_refl.
    + eapply Qle_trans; [|apply schedule_cursor_le].
      destruct_state s. apply Qle_refl.
  - left. unfold fire_ended. destruct (nodes (rt s) !! h) as [n|]; [|apply Qle_refl].
    destruct (ended n); [apply Qle_refl|].
    destruct (onended_delete n); destruct_state s; apply Qle_refl.
  - destruct (disconnect_cursor s) as [->| ->]; [left; apply Qle_refl|by right].
  - destruct (tasks (rt s) !! k) as [[]|] eqn:Ek; try (left; apply Qle_refl).
    + unfold disconnect_input_k.
      destruct (disconnect_output_cursor
                  (on_this (set_inputAudioContext None) (unpark k s))) as [-> | ->];
        [left; destruct_state s; apply Qle_refl|by right].
    + right. split; [done|]. unfold disconnect_output_k. apply cleanup_cursor.
Qed.

(** ** The sources along events *)

Lemma kept_refl s : kept s s.
Proof. intros h n Hn. eauto. Qed.

Lemma kept_same_nodes s s' : nodes (rt s') = nodes (rt s) → kept s s'.
Proof. intros H h n Hn. rewrite H in Hn. eauto. Qed.

Lemma kept_trans s1 s2 s3 : kept s1 s2 → kept s2 s3 → kept s1 s3.
Proof.
  intros H12 H23 h n3 Hn3.
  destruct (H23 h n3 Hn3) as (n2 & Hn2 & Hs & Hb).
  destruct (H12 h n2 Hn2) as (n1 & Hn1 & Hs' & Hb').
  exists n1. split; [done|]. split; congruence.
Qed.

Lemma kept_stop_all s s' :
  nodes (rt s') = stop_all (sources (this s)) (nodes (rt s)) → kept s s'.
Proof.
  intros H h n'. rewrite H, lookup_stop_all.
  destruct (nodes (rt s) !! h) as [n|]; [|discriminate].
  cbn. intros [= <-]. exists n. split; [done|]. by case_bool_decide.
Qed.

Lemma kept_interruption i s : kept s (interruption i s).
Proof.
  destruct i; [|apply kept_refl].
  apply kept_stop_all. by destruct (interruption_spec s) as (_ & _ & -> & _).
Qed.

Lemma kept_fire_ended h s : kept s (fire_ended h s).
Proof.
  unfold fire_ended. destruct (nodes (rt s) !! h) as [n|] eqn:E; [|apply kept_refl].
  destruct (ended n); [apply kept_refl|].
  assert (H : ∀ f, kept s
    (on_this f (on_rt (fun r => set_nodes (<[h:=finish n]> (nodes r)) r) s))).
  { intros f h' n'. destruct_state s. unfold_rt. cbn in *.
    destruct (decide (h = h')) as [->|Hne].
    - rewrite lookup_insert_eq. intros [= <-]. eauto.
    - rewrite lookup_insert_ne by done. eauto. }
  destruct (onended_delete n); [apply H|apply (H (fun t => t))].
Qed.

(** An event that runs no resetting code leaves every source's start time
    and buffer alone; the only source it can add is numbered [nextObject],
    starts at the cursor, and moves the cursor to its own end. *)
Lemma nodes_step e s h n' :
  may_reset e s = false →
  nodes (rt (step e s)) !! h = Some n' →
  (∃ n, nodes (rt s) !! h = Some n
        ∧ startedAt n' = startedAt n ∧ buffer n' = buffer n)
  ∨ (h = nextObject (rt s)
     ∧ startedAt n' = nextStartTime (this s)
     ∧ nextStartTime (this (step e s)) = (startedAt n' + duration (buffer n'))%Q).
Proof.
  intros Hq Hn.
  assert (Hsame : nodes (rt (step e s)) = nodes (rt s) →
    ∃ n, nodes (rt s) !! h = Some n
         ∧ startedAt n' = startedAt n ∧ buffer n' = buffer n).
  { intros E. rewrite E in Hn. eauto. }
  destruct e; unfold step in *; cbn [dispatch may_reset fst] in *;
    try discriminate.
  - left. apply Hsame. destruct (Qle_bool 0 dt); by destruct_state s.
  - left. apply Hsame. by destruct_state s.
  - left. apply Hsame. destruct (tasks (rt s) !! k) as [[]|]; try done.
    destruct r as [err|[]]; by destruct_state s.
  - left. apply Hsame. destruct (session (this s)); [|done].
    unfold onopen, startInputStreaming.
    destruct_state s. cbn. by destruct inputAudioContext0, stream0.
  - left. apply Hsame. unfold handleServerMessage.
    destruct (audio_branch m (transcriptions m s)) eqn:E.
    + rewrite transcriptions_spec. by destruct_state s.
    + rewrite andb_true_r in Hq. rewrite Hq. cbn.
      rewrite transcriptions_spec. by destruct_state s.
  - destruct (tasks (rt s) !! k) as [[| i | |]|] eqn:Ek;
      try (left; apply Hsame; done).
    subst i. unfold handleServerMessage_k in *. cbn [fst interruption] in *.
    destruct r as [err|b].
    + left. apply Hsame. by destruct_state s.
    + destruct (unpark_spec k s) as (Ht & Hno & Ho & _).
      unfold schedule in *. rewrite Ht in *.
      destruct (outputAudioContext (this s)) as [c|] eqn:Ec;
        [|left; apply Hsame; by destruct_state s].
      destruct (outputNode (this s)) as [g|] eqn:Eg;
        [|left; apply Hsame; by destruct_state s].
      destruct_state s. unfold_rt. cbn in *.
      destruct (decide (nextObject0 = h)) as [->|Hne].
      * rewrite lookup_insert_eq in Hn. injection Hn as <-. by right.
      * rewrite lookup_insert_ne in Hn by done. left. eauto.
  - left. exact (kept_fire_ended _ _ _ _ Hn).
Qed.


(** ** One segment, from message to playback *)



Lemma interruption_nodes i x h :
  nodes (rt (interruption i x)) !! h =
    (fun n => if i && bool_decide (h ∈ sources (this x)) then stop n else n)
      <$> nodes (rt x) !! h.
Proof.
  destruct i.
  - destruct (interruption_spec x) as (_ & _ & -> & _).
    apply lookup_stop_all.
  - cbn. by destruct (nodes (rt x) !! h).
Qed.

(** The source that a settled decode creates: started at the cursor, with
    the decoded buffer and the ['ended'] listener; stopped at once only if
    the message also carried the interruption. *)
Lemma step_decoded_node k i b s c g :
  tasks (rt s) !! k = Some (KDecode i) →
  outputAudioContext (this s) = Some c → outputNode (this s) = Some g →
  ∃ n, nodes (rt (step (DecodeSettled k (inr b)) s)) !! nextObject (rt s) = Some n
       ∧ startedAt n = nextStartTime (this s) ∧ buffer n = b
       ∧ onended_delete n = true ∧ stopped n = i ∧ ended n = false.
Proof.
  intros Hk Hc Hg. rewrite (step_decoded k i) by done.
  destruct (unpark_spec k s) as (Ht & Hn & Ho & _).
  destruct (schedule_spec b (unpark k s) c g) as (Hsn & _ & Hss & _);
    [by rewrite Ht..|].
  rewrite interruption_nodes, Hsn, Hss, Ho, lookup_insert_eq, Ht. cbn.
  rewrite bool_decide_eq_true_2
    by (apply elem_of_union; left; by apply elem_of_singleton).
  eexists. split; [reflexivity|]. by destruct i.
Qed.

(** [handle] is the two events in a row. *)
Lemma handle_audio m r s :
  audio_branch m s = true →
  handle m r s = step (DecodeSettled (nextTask (rt s)) r) (step (ServerMessage m) s).
Proof.
  intros Ha. destruct (handleServerMessage_audio m s Ha) as (Hs & _).
  unfold handle.
  change (step (ServerMessage m) s) with (fst (handleServerMessage m s)).
  destruct (handleServerMessage m s) as [s' o]. cbn in *. by rewrite Hs.
Qed.

Lemma handle_silent m r s :
  audio_branch m s = false →
  handle m r s = interruption (Msg.is_interrupted m) (transcriptions m s).
Proof.
  intros Ha. unfold handle. by rewrite (handleServerMessage_silent m s Ha).
Qed.

Lemma wf_handle m r s : wf s → wf (handle m r s).
Proof.
  intros H. destruct (audio_branch m s) eqn:E.
  - rewrite handle_audio by done. by apply wf_step, wf_step.
  - rewrite handle_silent by done. by apply wf_interruption, wf_transcriptions.
Qed.


(** The message arrives, ambient events pass while the decode is under way,
    the decode settles. *)
Lemma enqueue_steps s m b amb :
  wf s → audio_branch m s = true → forallb ambient amb = true →
  let s1 := step (ServerMessage m) s in
  let s2 := run amb s1 in
  let h := nextObject (rt s2) in
  let s3 := step (DecodeSettled (nextTask (rt s)) (inr b)) s2 in
  nextStartTime (this s1) = Qmax (nextStartTime (this s)) (currentTime (rt s))
  ∧ (∃ n, nodes (rt s3) !! h = Some n
          ∧ startedAt n = nextStartTime (this s1) ∧ buffer n = b
          ∧ onended_delete n = true
          ∧ stopped n = Msg.is_interrupted m ∧ ended n = false)
  ∧ (Msg.is_interrupted m = false →
       nextStartTime (this s3) = (nextStartTime (this s1) + duration b)%Q
       ∧ sources (this s3) = {[h]} ∪ sources (this s2))
  ∧ h ∉ sources (this (step (SourceEnded h) s3)).
Proof.
  intros Hwf Ha Hamb s1 s2 h s3.
  destruct (audio_branch_inv m s Ha) as (c & g & Hc & Hg).
  destruct (handleServerMessage_audio m s Ha) as (_ & Ht & Htk & _).
  pose proof (run_ambient_calm amb s1 Hamb) as Hcalm.
  subst s1 s2 h s3.
  set (s1 := step (ServerMessage m) s) in *.
  set (s2 := run amb s1) in *.
  assert (Hcur : nextStartTime (this s1)
                 = Qmax (nextStartTime (this s)) (currentTime (rt s))).
  { rewrite Ht. by destruct (this s). }
  assert (Hk : tasks (rt s2) !! nextTask (rt s)
               = Some (KDecode (Msg.is_interrupted m))).
  { rewrite (calm_tasks _ _ Hcalm), Htk. apply lookup_insert_eq. }
  assert (Hc2 : outputAudioContext (this s2) = Some c).
  { rewrite (calm_output _ _ Hcalm), Ht. by destruct (this s). }
  assert (Hg2 : outputNode (this s2) = Some g).
  { rewrite (calm_gain _ _ Hcalm), Ht. by destruct (this s). }
  destruct (step_decoded_node _ _ b s2 c g Hk Hc2 Hg2)
    as (n & Hn & Hs & Hb & Hl & Hst & He).
  split; [exact Hcur|]. split; [|split].
  - exists n. rewrite <- (calm_cursor _ _ Hcalm). done.
  - intros Hi. rewrite Hi in Hk.
    destruct (step_decoded_ok _ b s2 c g Hk Hc2 Hg2) as (_ & Hcu & Hso & _).
    split; [|exact Hso]. by rewrite Hcu, (calm_cursor _ _ Hcalm).
  - eapply fire_ended_forgets; [|exact Hn|exact Hl].
    apply wf_step, wf_run, wf_step, Hwf.
Qed.

(** A message handled in one go: the segment starts at
    [max(nextStartTime, currentTime)]; the cursor ends up at its end, or at
    0 if the message also carried the interruption. *)
Lemma handle_enqueue s m b :
  wf s → audio_branch m s = true →
  let s' := handle m (inr b) s in
  (∃ n, nodes (rt s') !! nextObject (rt s) = Some n
        ∧ startedAt n = Qmax (nextStartTime (this s)) (currentTime (rt s))
        ∧ buffer n = b ∧ stopped n = Msg.is_interrupted m ∧ ended n = false)
  ∧ nextStartTime (this s') =
      (if Msg.is_interrupted m then 0
       else Qmax (nextStartTime (this s)) (currentTime (rt s)) + duration b)%Q
  ∧ (Msg.is_interrupted m = false →
       sources (this s') = {[nextObject (rt s)]} ∪ sources (this s)).
Proof.
  intros Hwf Ha s'. unfold s'. rewrite handle_audio by done.
  destruct (enqueue_steps s m b [] Hwf Ha eq_refl)
    as (Hcur & (n & Hn & Hs & Hb & _ & Hst & He) & Hc & _).
  cbn [run fold_left] in *.
  destruct (handleServerMessage_audio m s Ha) as (_ & Ht & Htk & _ & _ & Ho & _).
  rewrite Ho in *. rewrite Hcur in *.
  split; [eauto 8|]. split.
  - destruct (Msg.is_interrupted m) eqn:Hi.
    + rewrite (step_decoded _ true) by (rewrite Htk; apply lookup_insert_eq).
      apply interruption_cursor.
    + by destruct (Hc eq_refl).
  - intros Hi. destruct (Hc Hi) as [_ Hso].
    rewrite Hso, Ht. by destruct (this s).
Qed.




(** ** Interruption *)

(** The interruption branch on a well-formed state. *)
Lemma interruption_effect x :
  wf x →
  silent (interruption true x)
  ∧ sources (this (interruption true x)) = ∅
  ∧ nextStartTime (this (interruption true x)) = 0%Q
  ∧ (∀ h, h ∈ sources (this x) →
       ∃ n, nodes (rt (interruption true x)) !! h = Some n ∧ stopped n = true).
Proof.
  intros Hwf.
  destruct (interruption_spec x) as (Hs & Hc & Hn & _).
  split; [by eapply stop_all_silent|]. split; [done|]. split; [done|].
  intros h Hh. destruct (proj1 (wf_sources x Hwf h) Hh) as (n & Hx & _).
  rewrite Hn, lookup_stop_all, Hx. cbn. eexists. split; [done|].
  by rewrite bool_decide_eq_true_2.
Qed.

(** Whatever way a message with the interruption flag goes, its handling
    ends with the interruption branch, run on a well-formed state that
    still remembers every source remembered before. *)
Lemma handle_interrupted m r s :
  wf s → Msg.is_interrupted m = true →
  ∃ x, handle m r s = interruption true x ∧ wf x
       ∧ sources (this s) ⊆ sources (this x).
Proof.
  intros Hwf Hi. destruct (audio_branch m s) eqn:Ha.
  - rewrite handle_audio by done.
    destruct (handleServerMessage_audio m s Ha) as (_ & Ht & Htk & _).
    set (s1 := step (ServerMessage m) s) in *.
    assert (Hwf1 : wf s1) by by apply wf_step.
    assert (Hk : tasks (rt s1) !! nextTask (rt s) = Some (KDecode true)).
    { rewrite Htk, lookup_insert_eq. by rewrite Hi. }
    rewrite (step_decoded _ true) by done.
    destruct (unpark_spec (nextTask (rt s)) s1) as (Hu & _).
    assert (Hs1 : sources (this s1) = sources (this s)).
    { rewrite Ht. by destruct (this s). }
    eexists. split; [reflexivity|]. destruct r as [err|b].
    + split; [by apply wf_log, wf_unpark|].
      rewrite <- Hs1, <- Hu. by destruct_state (unpark (nextTask (rt s)) s1).
    + split; [by apply wf_schedule, wf_unpark|].
      unfold schedule. rewrite Hu.
      destruct (outputAudioContext (this s1)) as [c|] eqn:Ec;
        [|rewrite <- Hs1, <- Hu; by destruct_state (unpark (nextTask (rt s)) s1)].
      destruct (outputNode (this s1)) as [g|] eqn:Eg;
        [|rewrite <- Hs1, <- Hu; by destruct_state (unpark (nextTask (rt s)) s1)].
      rewrite <- Hs1, <- Hu. destruct_state (unpark (nextTask (rt s)) s1).
      cbn. apply union_subseteq_r.
  - rewrite handle_silent by done. rewrite Hi.
    eexists. split; [reflexivity|]. split; [by apply wf_transcriptions|].
    rewrite transcriptions_spec. by destruct_state s.
Qed.

Lemma Qmax_zero (c : Q) : (0 <= c)%Q → (Qmax 0 c == c)%Q.
Proof. intros H. by apply Q.max_r. Qed.

(** C2. After the interruption branch of [handleServerMessage] has run,
    every source that was remembered is stopped, nothing is left sounding,
    [sources] is empty and the cursor is 0; the next segment enqueued
    therefore starts at the output clock's current time. *)
Theorem interrupt_clears (s : State) (m : Msg.LiveServerMessage)
    (r : Exception + AudioBuffer) :
  wf s → Msg.is_interrupted m = true →
  let s' := handle m r s in
  (∀ h, h ∈ sources (this s) →
     ∃ n, nodes (rt s') !! h = Some n ∧ stopped n = true)
  ∧ silent s'
  ∧ sources (this s') = ∅
  ∧ nextStartTime (this s') = 0%Q
  ∧ (∀ amb m2 b,
       forallb ambient amb = true →
       audio_branch m2 (run amb s') = true →
       let s2 := run amb s' in
       ∃ n, nodes (rt (handle m2 (inr b) s2)) !! nextObject (rt s2) = Some n
            ∧ (startedAt n == currentTime (rt s2))%Q ∧ buffer n = b).
Proof.
  intros Hwf Hi s'.
  destruct (handle_interrupted m r s Hwf Hi) as (x & Hx & Hwfx & Hsub).
  destruct (interruption_effect x Hwfx) as (Hsil & Hs & Hc & Hst).
  assert (Hwf' : wf s') by by apply wf_handle.
  subst s'. rewrite Hx in *.
  split; [intros h Hh; apply Hst, Hsub, Hh|]. do 3 (split; [done|]).
  intros amb m2 b Hamb Ha2 s2.
  pose proof (run_ambient_calm amb (interruption true x) Hamb) as Hcalm.
  fold s2 in Hcalm.
  assert (Hwf2 : wf s2) by by apply wf_run.
  destruct (handle_enqueue s2 m2 b Hwf2 Ha2) as ((n & Hn & Hsn & Hb & _) & _).
  exists n. split; [exact Hn|]. split; [|exact Hb].
  rewrite Hsn, (calm_cursor _ _ Hcalm), Hc.
  apply Qmax_zero, (wf_clock s2 Hwf2).
Qed.

Lemma wf_playing : wf playing.
Proof. apply wf_handle, wf_step, wf_run, wf_initial. Qed.

Lemma interrupt_clears_witness :
  sources (this (handle interrupt_only (inl TypeError) playing)) = ∅
  ∧ nextStartTime (this (handle interrupt_only (inl TypeError) playing)) = 0%Q.
Proof.
  pose proof (interrupt_clears playing interrupt_only (inl TypeError)
                wf_playing eq_refl) as H.
  cbv zeta in H. destruct H as (_ & _ & H1 & H2 & _). split; assumption.
Defined.

(** ** A failed decode *)









(** ** The cursor against the clock *)

(** C4, as stated, fails: the cursor is not always at or past the output
    clock. In a call where nothing has been played yet the clock is at 5
    and the cursor still at 0; and after an interruption the cursor is back
    at 0 while the clock has reached 7. *)
Lemma cursor_behind_clock :
  (nextStartTime (this (step (Tick 5) in_call))
   < currentTime (rt (step (Tick 5) in_call)))%Q
  ∧ (nextStartTime
       (this (run [ServerMessage interrupt_only; Tick 2] playing))
     < currentTime (rt (run [ServerMessage interrupt_only; Tick 2] playing)))%Q.
Proof. split; vm_compute; reflexivity. Qed.

(** C4, amended. A new service starts with the cursor at 0. Across every
    event the cursor does not decrease, except when the event runs the
    interruption branch or the clean-up of [disconnect], which set it to 0
    (not to the clock). The cursor is at or past the output clock right
    after the audio branch has re-anchored it; at other times the clock may
    be ahead of it. *)
Theorem cursor_monotone_between_resets (e : Event) (s : State) :
  nextStartTime new_service = 0%Q
  ∧ ((nextStartTime (this s) <= nextStartTime (this (step e s)))%Q
     ∨ (may_reset e s = true ∧ nextStartTime (this (step e s)) = 0%Q))
  ∧ (∀ m, e = ServerMessage m → audio_branch m s = true →
       (currentTime (rt (step e s)) <= nextStartTime (this (step e s)))%Q).
Proof.
  split; [reflexivity|]. split; [apply cursor_step|].
  intros m -> Ha.
  destruct (handleServerMessage_audio m s Ha) as (_ & -> & _ & _ & -> & _).
  destruct (this s). cbn. apply Q.le_max_r.
Qed.

Lemma cursor_monotone_between_resets_witness :
  (currentTime (rt (step (ServerMessage (turn [audio_part some_base64] None))
                      (step (Tick 5) in_call)))
   <= nextStartTime
        (this (step (ServerMessage (turn [audio_part some_base64] None))
                 (step (Tick 5) in_call))))%Q.
Proof.
  apply (proj2 (proj2 (cursor_monotone_between_resets
                         (ServerMessage (turn [audio_part some_base64] None))
                         (step (Tick 5) in_call)))
           (turn [audio_part some_base64] None) eq_refl eq_refl).
Defined.

(** ** An interruption while a decode is under way *)






(** ** Teardown *)

Lemma not_elem_of_bool_decide (c : nat) (X : gset nat) :
  c ∉ X → bool_decide (c ∈ X) = false.
Proof. apply bool_decide_eq_false_2. Qed.

Ltac elem_tac :=
  rewrite ?elem_of_union, ?elem_of_singleton; intuition.

Ltac run_closes :=
  repeat first
    [ progress unfold disconnect_input, disconnect_output,
        disconnect_input_k, disconnect_output_k, cleanup, close_context
    | rewrite not_elem_of_bool_decide by elem_tac
    | rewrite lookup_insert_eq
    | progress cbn ].

(** Lines 186-207 of [disconnect]: what is handed on to the closing of the
    contexts. *)
Lemma disconnect_prelude s :
  ∃ x, disconnect s = disconnect_input x
       ∧ this x = set_stream None (set_source None (set_processor None (this s)))
       ∧ nodes (rt x) = nodes (rt s)
       ∧ closedContexts (rt x) = closedContexts (rt s)
       ∧ (∀ p, processor (this s) = Some p → p ∈ disconnectedNodes (rt x))
       ∧ (∀ p, source (this s) = Some p → p ∈ disconnectedNodes (rt x))
       ∧ (∀ m, stream (this s) = Some m → m ∈ stoppedStreams (rt x)).
Proof.
  unfold disconnect. eexists. split; [reflexivity|].
  destruct_state s. cbn.
  destruct session0, processor0, source0, stream0; cbn;
    (split; [done|]); (split; [done|]); (split; [done|]);
    (split; [|split]); intros p Hp; try discriminate;
    injection Hp as ->; elem_tac.
Qed.

Lemma close_context_ok c x :
  c ∉ closedContexts (rt x) →
  close_context c x
  = Some (on_rt (fun r => set_closedContexts ({[c]} ∪ closedContexts r) r) x).
Proof. intros H. unfold close_context. by rewrite bool_decide_eq_false_2. Qed.

Lemma settle_done fuel x : settle_closes fuel (x, Done) = (x, Done).
Proof. by destruct fuel. Qed.

Lemma parked_lookup k x :
  tasks (rt (fst (suspend k x))) !! nextTask (rt x) = Some k.
Proof. destruct_state x. cbn. apply lookup_insert_eq. Qed.

Lemma settle_output fuel x :
  (∀ c, outputAudioContext (this x) = Some c → c ∉ closedContexts (rt x)) →
  settle_closes (S fuel) (disconnect_output x) = (torn_output x, Done).
Proof.
  intros Ho. unfold disconnect_output, torn_output.
  destruct (outputAudioContext (this x)) as [c|]; [|apply settle_done].
  rewrite close_context_ok by auto.
  set (x1 := on_rt (fun r => set_closedContexts ({[c]} ∪ closedContexts r) r) x).
  change (settle_closes (S fuel) (suspend KCloseOutput x1))
    with (settle_closes fuel
            (dispatch (CloseSettled (nextTask (rt x1)))
               (fst (suspend KCloseOutput x1)))).
  cbn [dispatch]. rewrite parked_lookup.
  unfold disconnect_output_k.
  change (nextTask (rt x1)) with (nextTask (rt x)).
  apply settle_done.
Qed.

Lemma settle_input x :
  contexts_open x →
  settle_closes 2 (disconnect_input x) = (torn_input x, Done).
Proof.
  intros (Hi & Ho & Hne). unfold disconnect_input, torn_input.
  destruct (inputAudioContext (this x)) as [a|] eqn:Ea;
    [|by apply settle_output].
  rewrite close_context_ok by auto.
  set (x1 := on_rt (fun r => set_closedContexts ({[a]} ∪ closedContexts r) r) x).
  change (settle_closes 2 (suspend KCloseInput x1))
    with (settle_closes 1
            (dispatch (CloseSettled (nextTask (rt x1)))
               (fst (suspend KCloseInput x1)))).
  cbn [dispatch]. rewrite parked_lookup.
  unfold disconnect_input_k.
  change (nextTask (rt x1)) with (nextTask (rt x)).
  apply settle_output.
  intros c Hc.
  change (outputAudioContext (this x) = Some c) in Hc.
  change (c ∉ {[a]} ∪ closedContexts (rt x)).
  rewrite elem_of_union, elem_of_singleton.
  intros [->|Hin]; [by apply (Hne a)|by apply (Ho c)].
Qed.

(** Lines 210-222, awaited. *)
Lemma disconnect_input_await x :
  contexts_open x →
  ∃ y, settle_closes 2 (disconnect_input x) = (y, Done)
       ∧ this y =
           set_nextStartTime 0%Q
             (set_sources ∅
                (set_outputAudioContext None
                   (set_inputAudioContext None (this x))))
       ∧ nodes (rt y) = stop_all (sources (this x)) (nodes (rt x))
       ∧ disconnectedNodes (rt y) = disconnectedNodes (rt x)
       ∧ stoppedStreams (rt y) = stoppedStreams (rt x)
       ∧ (∀ c, inputAudioContext (this x) = Some c → c ∈ closedContexts (rt y))
       ∧ (∀ c, outputAudioContext (this x) = Some c → c ∈ closedContexts (rt y)).
Proof.
  intros Hopen. exists (torn_input x). split; [by apply settle_input|].
  clear Hopen. unfold torn_input, torn_output, after_close.
  destruct_state x. cbn.
  destruct inputAudioContext0 as [a|], outputAudioContext0 as [b|]; cbn;
    do 4 (split; [done|]); split; intros c Hc; try discriminate;
    injection Hc as ->; elem_tac.
Qed.

(** [disconnect], awaited, from a state whose contexts are open: it ends
    normally, everything held is released, and the service is left with
    nothing but its session promise and gain node. *)
Lemma disconnect_await_spec s :
  contexts_open s →
  snd (disconnect_await s) = Done
  ∧ released s (fst (disconnect_await s))
  ∧ this (fst (disconnect_await s)) =
      {| session := session (this s); inputAudioContext := None;
         outputAudioContext := None; stream := None; processor := None;
         source := None; nextStartTime := 0; outputNode := outputNode (this s);
         sources := ∅ |}
  ∧ nodes (rt (fst (disconnect_await s))) =
      stop_all (sources (this s)) (nodes (rt s)).
Proof.
  intros Hopen.
  destruct (disconnect_prelude s) as (x & Hx & Ht & Hn & Hcl & Hp & Hs & Hm).
  assert (Hopen' : contexts_open x).
  { destruct Hopen as (Hi & Ho & Hne). unfold contexts_open.
    rewrite Ht, Hcl. by destruct (this s). }
  destruct (disconnect_input_await x Hopen')
    as (y & Hy & Hty & Hny & Hdy & Hsy & Hiy & Hoy).
  unfold disconnect_await. rewrite Hx, Hy. cbn [fst snd].
  assert (Hsrc : sources (this x) = sources (this s)).
  { rewrite Ht. by destruct (this s). }
  assert (Hthis : this y =
      {| session := session (this s); inputAudioContext := None;
         outputAudioContext := None; stream := None; processor := None;
         source := None; nextStartTime := 0; outputNode := outputNode (this s);
         sources := ∅ |}).
  { rewrite Hty, Ht. by destruct (this s). }
  split; [done|]. split; [|split; [done|by rewrite Hny, Hn, Hsrc]].
  constructor; rewrite ?Hthis; try done.
  - intros p Hq. rewrite Hdy. by apply Hp.
  - intros p Hq. rewrite Hdy. by apply Hs.
  - intros m Hq. rewrite Hsy. by apply Hm.
  - intros c Hq. apply Hiy. rewrite Ht. by destruct (this s).
  - intros c Hq. apply Hoy. rewrite Ht. by destruct (this s).
  - intros h n Hh. rewrite Hny, Hn, Hsrc, lookup_stop_all.
    destruct (nodes (rt s) !! h); [|discriminate]. cbn. intros [= <-].
    by rewrite bool_decide_eq_true_2.
Qed.

Lemma stop_all_empty (ns : gmap nat SourceNode) : stop_all ∅ ns = ns.
Proof.
  apply map_eq. intros h. rewrite lookup_stop_all.
  destruct (ns !! h); [|done]. cbn. by rewrite bool_decide_eq_false_2.
Qed.

Lemma contexts_open_none s :
  inputAudioContext (this s) = None → outputAudioContext (this s) = None →
  contexts_open s.
Proof.
  intros Hi Ho. unfold contexts_open. rewrite Hi, Ho.
  split; [|split]; intros c Hc; discriminate.
Qed.

Lemma contexts_open_nothing_closed s a b :
  closedContexts (rt s) = ∅ →
  inputAudioContext (this s) = Some a → outputAudioContext (this s) = Some b →
  a ≠ b → contexts_open s.
Proof.
  intros Hc Hi Ho Hne. unfold contexts_open. rewrite Hc, Hi, Ho.
  split; [|split]; intros c [= <-]; try apply not_elem_of_empty.
  intros [= ?]. by apply Hne.
Qed.

(** What [connect] has done when it reaches [await getUserMedia]. *)
Lemma connect_spec s :
  snd (connect s) = Suspended (nextTask (rt s))
  ∧ this (fst (connect s)) =
      set_outputNode (Some (S (S (nextObject (rt s)))))
        (set_outputAudioContext (Some (S (nextObject (rt s))))
           (set_inputAudioContext (Some (nextObject (rt s))) (this s)))
  ∧ closedContexts (rt (fst (connect s))) = closedContexts (rt s)
  ∧ tasks (rt (fst (connect s))) = <[nextTask (rt s) := KGetUserMedia]> (tasks (rt s))
  ∧ micRequests (rt (fst (connect s))) = S (micRequests (rt s))
  ∧ console (rt (fst (connect s))) = console (rt s).
Proof. by destruct_state s. Qed.

Lemma contexts_open_connect s : wf s → contexts_open (fst (connect s)).
Proof.
  intros Hwf. destruct (connect_spec s) as (_ & Ht & Hc & _).
  unfold contexts_open. rewrite Ht, Hc. destruct (this s). cbn.
  split; [|split]; intros c [= <-].
  - intros Hin. pose proof (wf_closed_fresh s Hwf _ Hin). lia.
  - intros Hin. pose proof (wf_closed_fresh s Hwf _ Hin). lia.
  - intros [= ?]. lia.
Qed.

(** [connect], awaited, when the microphone is refused. *)
Lemma connect_denied s err :
  wf s →
  snd (connect_await (inl err) s) = Thrown err
  ∧ this (fst (connect_await (inl err) s)) = this (fst (connect s))
  ∧ closedContexts (rt (fst (connect_await (inl err) s))) = closedContexts (rt s)
  ∧ tasks (rt (fst (connect_await (inl err) s))) = tasks (rt s)
  ∧ micRequests (rt (fst (connect_await (inl err) s))) = S (micRequests (rt s))
  ∧ console (rt (fst (connect_await (inl err) s))) =
      console (rt s) ++ [log_mic_denied err].
Proof.
  intros Hwf.
  assert (Hnone : tasks (rt s) !! nextTask (rt s) = None).
  { destruct (tasks (rt s) !! nextTask (rt s)) eqn:E; [|done].
    pose proof (wf_tasks_fresh s Hwf _ (ex_intro _ _ E)). lia. }
  unfold connect_await. destruct_state s. cbn in *.
  rewrite lookup_insert_eq. cbn. rewrite delete_insert_id by done. done.
Qed.

(** The precondition of the teardown is kept by everything but a teardown
    under way: held contexts stay open across every other event, and an
    awaited [disconnect] leaves none held. So it holds whenever calls of
    [disconnect] do not overlap. *)
Lemma contexts_open_step e s :
  wf s → contexts_open s → teardown_phase e = false →
  contexts_open (step e s).
Proof.
  intros Hwf Hopen He.
  assert (Hsame : ∀ s',
    inputAudioContext (this s') = inputAudioContext (this s) →
    outputAudioContext (this s') = outputAudioContext (this s) →
    closedContexts (rt s') = closedContexts (rt s) → contexts_open s').
  { intros s' Hi Ho Hc. unfold contexts_open in *. by rewrite Hi, Ho, Hc. }
  assert (Hint : ∀ i x,
    inputAudioContext (this (interruption i x)) = inputAudioContext (this x)
    ∧ outputAudioContext (this (interruption i x)) = outputAudioContext (this x)
    ∧ closedContexts (rt (interruption i x)) = closedContexts (rt x)).
  { intros i x. destruct i; by destruct_state x. }
  destruct e; try discriminate; unfold step; cbn [dispatch fst].
  - apply Hsame; destruct (Qle_bool 0 dt); by destruct_state s.
  - by apply contexts_open_connect.
  - destruct (tasks (rt s) !! k) as [[]|]; try done.
    apply Hsame; destruct r as [err|[]]; by destruct_state s.
  - destruct (session (this s)); [|done].
    unfold onopen, startInputStreaming.
    apply Hsame; destruct_state s; cbn;
      by destruct inputAudioContext0, stream0.
  - unfold handleServerMessage.
    destruct (audio_branch m (transcriptions m s)).
    + apply Hsame; rewrite transcriptions_spec; by destruct_state s.
    + cbn [fst]. destruct (Hint (Msg.is_interrupted m) (transcriptions m s))
        as (Hi & Ho & Hc).
      apply Hsame; rewrite ?Hi, ?Ho, ?Hc, transcriptions_spec;
        by destruct_state s.
  - destruct (tasks (rt s) !! k) as [[| i | |]|]; try done.
    unfold handleServerMessage_k. cbn [fst].
    destruct (Hint i match r with
                     | inl err => log (log_decode_error err) (unpark k s)
                     | inr b => schedule b (unpark k s)
                     end) as (Hi & Ho & Hc).
    apply Hsame; rewrite ?Hi, ?Ho, ?Hc; destruct r as [err|b];
      try (by destruct_state s);
      unfold schedule; destruct_state s; cbn;
      by destruct outputAudioContext0, outputNode0.
  - unfold fire_ended. destruct (nodes (rt s) !! h) as [n|]; [|done].
    destruct (ended n); [done|].
    apply Hsame; destruct (onended_delete n); by destruct_state s.
Qed.

Lemma contexts_open_disconnected s :
  contexts_open s → contexts_open (fst (disconnect_await s)).
Proof.
  intros H. destruct (disconnect_await_spec s H) as (_ & _ & Ht & _).
  apply contexts_open_none; by rewrite Ht.
Qed.


Lemma contexts_open_playing : contexts_open playing.
Proof.
  apply (contexts_open_nothing_closed playing 0 1); [reflexivity..|lia].
Qed.


(** What happens when the microphone is granted only after such a
    [disconnect]: [connect] carries on, keeps the stream and opens the
    session; nothing releases them. *)
Lemma late_grant_after_disconnect :
  let s := run [CallConnect; CallDisconnect; CloseSettled 1; CloseSettled 2;
                MicSettled 0 (inr tt)] initial in
  inputAudioContext (this s) = None ∧ outputAudioContext (this s) = None
  ∧ stream (this s) = Some 3 ∧ session (this s) = Some 4
  ∧ stoppedStreams (rt s) = ∅.
Proof. vm_compute. done. Qed.

(** ** Microphone refused *)

(** C8, as stated, fails: when the microphone is refused, [connect] throws
    the error on, but both audio contexts it created stay held and open. *)
Lemma mic_denied_keeps_contexts :
  snd (connect_await (inl NotAllowedError) initial) = Thrown NotAllowedError
  ∧ inputAudioContext (this (fst (connect_await (inl NotAllowedError) initial)))
    = Some 0
  ∧ outputAudioContext (this (fst (connect_await (inl NotAllowedError) initial)))
    = Some 1
  ∧ closedContexts (rt (fst (connect_await (inl NotAllowedError) initial))) = ∅.
Proof. vm_compute. done. Qed.

(** C8, amended. If the microphone is refused, [connect] logs the error
    and throws it on to the caller; [getUserMedia] has been asked once and
    nothing of [connect] is left waiting, so there is no retry; no stream
    is held and no session is opened. [connect] itself releases nothing:
    the two audio contexts it created stay held and open. A
    [disconnect] by the caller then releases them without an error. *)
Theorem mic_denied_propagates (s : State) (err : Exception) :
  wf s →
  let s' := fst (connect_await (inl err) s) in
  snd (connect_await (inl err) s) = Thrown err
  ∧ console (rt s') = console (rt s) ++ [log_mic_denied err]
  ∧ micRequests (rt s') = S (micRequests (rt s))
  ∧ tasks (rt s') = tasks (rt s)
  ∧ stream (this s') = stream (this s) ∧ session (this s') = session (this s)
  ∧ (∃ a b, inputAudioContext (this s') = Some a
            ∧ outputAudioContext (this s') = Some b
            ∧ (a ∉ closedContexts (rt s')) ∧ (b ∉ closedContexts (rt s')))
  ∧ snd (disconnect_await s') = Done
  ∧ released s' (fst (disconnect_await s')).
Proof.
  intros Hwf s'.
  destruct (connect_denied s err Hwf) as (Ho & Ht & Hc & Htk & Hm & Hl).
  fold s' in Ht, Hc, Htk, Hm, Hl.
  destruct (connect_spec s) as (_ & Htc & Hcc & _).
  pose proof (contexts_open_connect s Hwf) as Hopen.
  assert (Hopen' : contexts_open s').
  { unfold contexts_open in *. rewrite Ht, Hc. rewrite Hcc in Hopen.
    exact Hopen. }
  destruct (disconnect_await_spec s' Hopen') as (Hd & Hr & _).
  do 4 (split; [done|]).
  split; [rewrite Ht, Htc; by destruct (this s)|].
  split; [rewrite Ht, Htc; by destruct (this s)|].
  split; [|done].
  destruct Hopen' as (Hi & Hou & _).
  exists (nextObject (rt s)), (S (nextObject (rt s))).
  assert (Hia : inputAudioContext (this s') = Some (nextObject (rt s))).
  { rewrite Ht, Htc. by destruct (this s). }
  assert (Hob : outputAudioContext (this s') = Some (S (nextObject (rt s)))).
  { rewrite Ht, Htc. by destruct (this s). }
  split; [exact Hia|]. split; [exact Hob|].
  split; [by apply Hi|by apply Hou].
Qed.

Lemma mic_denied_propagates_witness :
  snd (connect_await (inl NotAllowedError) initial) = Thrown NotAllowedError
  ∧ snd (disconnect_await (fst (connect_await (inl NotAllowedError) initial)))
    = Done.
Proof.
  pose proof (mic_denied_propagates initial NotAllowedError wf_initial) as H.
  cbv zeta in H. destruct H as (H1 & _ & _ & _ & _ & _ & _ & H2 & _).
  split; assumption.
Defined.

(** ** One segment per message *)

Lemma base64Audio_first sc p rest :
  Msg.base64Audio (with_parts sc (p :: rest)) = part_audio p.
Proof. reflexivity. Qed.

(** The sources after a message has been handled: those from before, and
    at most the one numbered [nextObject]. *)
Lemma handle_nodes m r s h :
  is_Some (nodes (rt (handle m r s)) !! h) →
  is_Some (nodes (rt s) !! h)
  ∨ (h = nextObject (rt s) ∧ audio_branch m s = true).
Proof.
  intros [n Hn]. destruct (audio_branch m s) eqn:Ha.
  - rewrite handle_audio in Hn by done.
    destruct (handleServerMessage_audio m s Ha)
      as (_ & Ht & Htk & Hno & _ & Ho & _).
    set (s1 := step (ServerMessage m) s) in *.
    assert (Hk : tasks (rt s1) !! nextTask (rt s)
                 = Some (KDecode (Msg.is_interrupted m))).
    { rewrite Htk. apply lookup_insert_eq. }
    rewrite (step_decoded _ _ _ _ Hk) in Hn.
    apply kept_interruption in Hn as (n0 & Hn0 & _).
    destruct (unpark_spec (nextTask (rt s)) s1) as (Hut & Hun & Huo & _).
    destruct r as [err|b].
    + left. exists n0. rewrite <- Hno, <- Hun. by destruct_state (unpark (nextTask (rt s)) s1).
    + destruct (audio_branch_inv m s Ha) as (c & g & Hc & Hg).
      destruct (schedule_spec b (unpark (nextTask (rt s)) s1) c g) as (Hsn & _).
      { rewrite Hut, Ht. by destruct (this s). }
      { rewrite Hut, Ht. by destruct (this s). }
      rewrite Hsn, Huo, Ho, Hun, Hno in Hn0.
      destruct (decide (nextObject (rt s) = h)) as [<-|Hne]; [by right|].
      rewrite lookup_insert_ne in Hn0 by done. left. eauto.
  - rewrite handle_silent in Hn by done.
    apply kept_interruption in Hn as (n0 & Hn0 & _).
    rewrite transcriptions_spec in Hn0. left. exists n0.
    by destruct_state s.
Qed.

(** C9. Of the parts of a message's model turn only the first is looked
    at: a message handled with all its parts leaves the same state and
    outcome as the message cut down to its first part; handling one message
    adds at most one source, the one numbered [nextObject]; and when the
    first part carries no inline audio, nothing is scheduled whatever the
    later parts carry. *)
Theorem only_first_part_is_played (s : State) :
  (∀ sc p rest,
     handleServerMessage (with_parts sc (p :: rest)) s
     = handleServerMessage (with_parts sc [p]) s)
  ∧ (∀ m r h,
       is_Some (nodes (rt (handle m r s)) !! h) →
       is_Some (nodes (rt s) !! h) ∨ h = nextObject (rt s))
  ∧ (∀ sc p rest r h,
       part_audio p = None →
       is_Some (nodes (rt (handle (with_parts sc (p :: rest)) r s)) !! h) →
       is_Some (nodes (rt s) !! h)).
Proof.
  split; [|split].
  - intros sc p rest. reflexivity.
  - intros m r h Hh. destruct (handle_nodes m r s h Hh) as [H|[H _]]; auto.
  - intros sc p rest r h Hp Hh.
    destruct (handle_nodes _ r s h Hh) as [H|[_ H]]; [done|].
    unfold audio_branch in H. rewrite base64Audio_first, Hp in H. discriminate.
Qed.

Lemma only_first_part_is_played_witness :
  ¬ is_Some
      (nodes (rt (handle (with_parts
                            (Msg.mkServerContent None None None None None)
                            [empty_part; audio_part some_base64])
                    (inr one_second) in_call))
       !! nextObject (rt in_call)).
Proof.
  intros H.
  apply (proj2 (proj2 (only_first_part_is_played in_call)) _ empty_part
           [audio_part some_base64] (inr one_second) _ eq_refl) in H.
  destruct H as [n Hn]. vm_compute in Hn. discriminate.
Defined.

(** * Further properties of the service *)

(** ** Invariants of every reachable state *)

(** X1. In every state the service can reach, whatever the events and their
    order, [sources] holds exactly the sources that have been started and
    have neither been stopped nor ended. *)
Theorem sources_are_the_live_sources (es : list Event) (h : nat) :
  h ∈ sources (this (run es initial))
  ↔ ∃ n, nodes (rt (run es initial)) !! h = Some n ∧ live n = true.
Proof. apply wf_sources, wf_run, wf_initial. Qed.

Lemma kept_close_suspend c k x x' :
  close_context c x = Some x' → kept x (fst (suspend k x')).
Proof.
  intros H. apply close_context_this in H as (_ & Hn & _).
  intros h n Hh. exists n. split; [|done].
  rewrite <- Hn. by destruct_state x'.
Qed.

Lemma kept_cleanup x : kept x (fst (cleanup x)).
Proof. apply kept_stop_all. by destruct_state x. Qed.

Lemma kept_disconnect_output x : kept x (fst (disconnect_output x)).
Proof.
  unfold disconnect_output. destruct (outputAudioContext (this x)) as [c|].
  - destruct (close_context c x) as [x'|] eqn:E; [|apply kept_refl].
    by eapply kept_close_suspend.
  - apply kept_cleanup.
Qed.

Lemma kept_disconnect_input x : kept x (fst (disconnect_input x)).
Proof.
  unfold disconnect_input. destruct (inputAudioContext (this x)) as [c|].
  - destruct (close_context c x) as [x'|] eqn:E; [|apply kept_refl].
    by eapply kept_close_suspend.
  - apply kept_disconnect_output.
Qed.

Lemma kept_nodes_eq x y z : nodes (rt y) = nodes (rt x) → kept y z → kept x z.
Proof. intros H Hk h n Hn. rewrite <- H. by apply Hk. Qed.

(** Whatever the event, a source of the state after it was there before
    with the same start time, or was started at the cursor. *)
Lemma step_starts e s h n' :
  nodes (rt (step e s)) !! h = Some n' →
  (∃ n, nodes (rt s) !! h = Some n ∧ startedAt n' = startedAt n)
  ∨ startedAt n' = nextStartTime (this s).
Proof.
  intros Hn.
  assert (Hkept : kept s (step e s) →
    ∃ n, nodes (rt s) !! h = Some n ∧ startedAt n' = startedAt n).
  { intros Hk. destruct (Hk h n' Hn) as (n & ? & ? & _). eauto. }
  destruct (may_reset e s) eqn:Hr.
  - destruct e; try discriminate; unfold step in *;
      cbn [dispatch may_reset fst] in *.
    + left. apply Hkept. unfold handleServerMessage.
      apply andb_prop in Hr as [_ Ha]. apply negb_true_iff in Ha.
      rewrite Ha. cbn [fst].
      eapply kept_nodes_eq; [|apply kept_interruption].
      rewrite transcriptions_spec. by destruct_state s.
    + destruct (tasks (rt s) !! k) as [[| i | |]|] eqn:Ek; try discriminate.
      subst i. unfold handleServerMessage_k in Hn. cbn [fst] in Hn.
      apply kept_interruption in Hn as (n0 & Hn0 & Hs & _).
      rewrite Hs. destruct r as [err|b].
      * left. exists n0. split; [|done]. by destruct_state s.
      * destruct (unpark_spec k s) as (Ht & Hno & Ho & _).
        unfold schedule in Hn0. rewrite Ht in Hn0.
        destruct (outputAudioContext (this s)) as [c|];
          [|left; exists n0; split; [|done]; by destruct_state s].
        destruct (outputNode (this s)) as [g|];
          [|left; exists n0; split; [|done]; by destruct_state s].
        destruct_state s. unfold_rt. cbn in *.
        destruct (decide (nextObject0 = h)) as [->|Hne].
        -- rewrite lookup_insert_eq in Hn0. injection Hn0 as <-. by right.
        -- rewrite lookup_insert_ne in Hn0 by done. left. eauto.
    + left. apply Hkept. destruct (disconnect_prelude s) as (x & -> & _ & Hx & _).
      eapply kept_nodes_eq; [exact Hx|apply kept_disconnect_input].
    + left. apply Hkept.
      destruct (tasks (rt s) !! k) as [[]|]; try apply kept_refl.
      * unfold disconnect_input_k.
        eapply kept_nodes_eq; [|apply kept_disconnect_output].
        by destruct_state s.
      * unfold disconnect_output_k.
        eapply kept_nodes_eq; [|apply kept_cleanup]. by destruct_state s.
  - destruct (nodes_step e s h n' Hr Hn) as [(n & ? & ? & _)|(_ & ? & _)];
      eauto.
Qed.

(** X2. In every state the service can reach the cursor is not negative and no
    source was ever started at a negative time: [source.start(when)] is
    never handed a [when] below 0. *)
Theorem never_started_before_zero (es : list Event) :
  (0 <= nextStartTime (this (run es initial)))%Q
  ∧ ∀ h n, nodes (rt (run es initial)) !! h = Some n → (0 <= startedAt n)%Q.
Proof.
  split; [apply wf_cursor, wf_run, wf_initial|].
  assert (Hgen : ∀ s, wf s →
    (∀ h n, nodes (rt s) !! h = Some n → (0 <= startedAt n)%Q) →
    ∀ h n, nodes (rt (run es s)) !! h = Some n → (0 <= startedAt n)%Q).
  { induction es as [|e es IH]; intros s Hwf Hs; [exact Hs|].
    cbn [run fold_left]. apply IH; [by apply wf_step|].
    intros h n Hn. destruct (step_starts e s h n Hn) as [(n0 & Hn0 & ->)| ->].
    - by eapply Hs.
    - by apply wf_cursor. }
  apply Hgen; [apply wf_initial|].
  intros h n Hn. cbn in Hn. by rewrite lookup_empty in Hn.
Qed.

(** ** Segments laid end to end *)



Lemma laid_out_ge bs t : (t <= laid_out bs t)%Q.
Proof.
  revert t. induction bs as [|b bs IH]; intros t; [apply Qle_refl|].
  cbn. eapply Qle_trans; [|apply IH].
  pose proof (duration_nonneg b). lra.
Qed.




(** ** More on teardown *)

Ltac skip_tasks :=
  repeat first [ rewrite lookup_delete_ne by lia
               | rewrite lookup_insert_ne by lia ].

(** What an awaited [disconnect] does to the rest of the browser state. *)
Lemma disconnect_input_await_rest x :
  contexts_open x →
  (∀ k, (k < nextTask (rt x))%nat →
     tasks (rt (fst (settle_closes 2 (disconnect_input x)))) !! k
     = tasks (rt x) !! k)
  ∧ sessionCloses (rt (fst (settle_closes 2 (disconnect_input x))))
    = sessionCloses (rt x)
  ∧ console (rt (fst (settle_closes 2 (disconnect_input x)))) = console (rt x)
  ∧ stoppedStreams (rt (fst (settle_closes 2 (disconnect_input x))))
    = stoppedStreams (rt x)
  ∧ nextObject (rt (fst (settle_closes 2 (disconnect_input x))))
    = nextObject (rt x)
  ∧ session (this (fst (settle_closes 2 (disconnect_input x))))
    = session (this x)
  ∧ outputNode (this (fst (settle_closes 2 (disconnect_input x))))
    = outputNode (this x).
Proof.
  intros Hopen. rewrite settle_input by done. cbn [fst].
  clear Hopen. unfold torn_input, torn_output, after_close.
  destruct_state x. cbn in *.
  destruct inputAudioContext0 as [a|], outputAudioContext0 as [b|]; cbn;
    (split; [|done]); intros k Hk; skip_tasks; done.
Qed.

Lemma disconnect_unfold s : disconnect s = disconnect_input (release_capture s).
Proof. reflexivity. Qed.

Lemma release_capture_spec s :
  this (release_capture s)
  = set_stream None (set_source None (set_processor None (this s)))
  ∧ closedContexts (rt (release_capture s)) = closedContexts (rt s)
  ∧ tasks (rt (release_capture s)) = tasks (rt s)
  ∧ nextTask (rt (release_capture s)) = nextTask (rt s)
  ∧ sessionCloses (rt (release_capture s))
    = sessionCloses (rt s)
      ++ match session (this s) with Some p => [p] | None => [] end
  ∧ console (rt (release_capture s)) = console (rt s)
  ∧ nextObject (rt (release_capture s)) = nextObject (rt s)
  ∧ stoppedStreams (rt (release_capture s))
    = match stream (this s) with
      | Some m => {[m]} ∪ stoppedStreams (rt s)
      | None => stoppedStreams (rt s)
      end.
Proof.
  destruct_state s. unfold release_capture. cbn.
  destruct session0, processor0, source0, stream0; cbn;
    rewrite ?app_nil_r; done.
Qed.

Lemma contexts_open_release_capture s :
  contexts_open s → contexts_open (release_capture s).
Proof.
  destruct (release_capture_spec s) as (Ht & Hcl & _).
  unfold contexts_open. rewrite Ht, Hcl. by destruct (this s).
Qed.

Lemma disconnect_await_rest s :
  contexts_open s →
  (∀ k, (k < nextTask (rt s))%nat →
     tasks (rt (fst (disconnect_await s))) !! k = tasks (rt s) !! k)
  ∧ sessionCloses (rt (fst (disconnect_await s)))
    = sessionCloses (rt s)
      ++ match session (this s) with Some p => [p] | None => [] end
  ∧ console (rt (fst (disconnect_await s))) = console (rt s)
  ∧ stoppedStreams (rt (fst (disconnect_await s)))
    = match stream (this s) with
      | Some m => {[m]} ∪ stoppedStreams (rt s)
      | None => stoppedStreams (rt s)
      end
  ∧ nextObject (rt (fst (disconnect_await s))) = nextObject (rt s)
  ∧ session (this (fst (disconnect_await s))) = session (this s)
  ∧ outputNode (this (fst (disconnect_await s))) = outputNode (this s).
Proof.
  intros Hopen. unfold disconnect_await. rewrite disconnect_unfold.
  destruct (release_capture_spec s) as (Ht & _ & Htk & Hnt & Hsc & Hco & Hno & Hst).
  destruct (disconnect_input_await_rest (release_capture s))
    as (Hk & -> & -> & -> & -> & -> & ->).
  { by apply contexts_open_release_capture. }
  rewrite Hsc, Hco, Hno, Hst, Ht. split; [|by destruct (this s)].
  intros k Hlt. rewrite Hk by (by rewrite Hnt). by rewrite Htk.
Qed.

(** X4. [disconnect] never drops the session promise nor the gain node, and
    every call asks the session to close again: after two calls in a row
    the session has been asked twice. *)
Theorem disconnect_keeps_session (s : State) (p : nat) :
  contexts_open s → session (this s) = Some p →
  let s1 := fst (disconnect_await s) in
  let s2 := fst (disconnect_await s1) in
  session (this s2) = Some p
  ∧ outputNode (this s2) = outputNode (this s)
  ∧ sessionCloses (rt s2) = sessionCloses (rt s) ++ [p; p].
Proof.
  intros Hopen Hp s1 s2.
  destruct (disconnect_await_rest s Hopen) as (_ & Hc1 & _ & _ & _ & Hs1 & Hg1).
  fold s1 in Hc1, Hs1, Hg1.
  assert (Hopen1 : contexts_open s1) by by apply contexts_open_disconnected.
  destruct (disconnect_await_rest s1 Hopen1) as (_ & Hc2 & _ & _ & _ & Hs2 & Hg2).
  fold s2 in Hc2, Hs2, Hg2.
  rewrite Hs2, Hs1, Hg2, Hg1, Hc2, Hc1, Hs1, Hp, <- app_assoc. done.
Qed.

Lemma disconnect_keeps_session_witness :
  session (this (fst (disconnect_await (fst (disconnect_await playing)))))
  = Some 4.
Proof.
  apply (proj1 (disconnect_keeps_session playing 4 contexts_open_playing
                  eq_refl)).
Defined.

Lemma close_context_closed c x :
  c ∈ closedContexts (rt x) → close_context c x = None.
Proof. intros H. unfold close_context. by rewrite bool_decide_eq_true_2. Qed.

(** [disconnect] on a service that still holds a context on which
    [close()] has already run. *)
Lemma disconnect_on_closed y :
  (∃ a, inputAudioContext (this y) = Some a ∧ a ∈ closedContexts (rt y))
  ∨ (inputAudioContext (this y) = None
     ∧ ∃ b, outputAudioContext (this y) = Some b ∧ b ∈ closedContexts (rt y)) →
  snd (disconnect y) = Thrown InvalidStateError
  ∧ sources (this (fst (disconnect y))) = sources (this y)
  ∧ nextStartTime (this (fst (disconnect y))) = nextStartTime (this y).
Proof.
  intros H. rewrite disconnect_unfold.
  destruct (release_capture_spec y) as (Ht & Hcl & _).
  set (x := release_capture y) in *.
  assert (Hx : sources (this x) = sources (this y)
               ∧ nextStartTime (this x) = nextStartTime (this y)
               ∧ inputAudioContext (this x) = inputAudioContext (this y)
               ∧ outputAudioContext (this x) = outputAudioContext (this y)).
  { rewrite Ht. by destruct (this y). }
  destruct Hx as (Hsrc & Hcur & Hxi & Hxo).
  unfold disconnect_input. rewrite Hxi.
  destruct H as [(a & Ha & Hin)|(Hnone & b & Hb & Hin)].
  - rewrite Ha, close_context_closed by (by rewrite Hcl). done.
  - rewrite Hnone. unfold disconnect_output.
    rewrite Hxo, Hb, close_context_closed by (by rewrite Hcl). done.
Qed.

(** Where the first stretch of [disconnect] stops when a context is held:
    the first held context has been closed and is still held. *)
Lemma disconnect_first_stretch s :
  contexts_open s →
  is_Some (inputAudioContext (this s)) ∨ is_Some (outputAudioContext (this s)) →
  sources (this (fst (disconnect s))) = sources (this s)
  ∧ nextStartTime (this (fst (disconnect s))) = nextStartTime (this s)
  ∧ ((∃ a, inputAudioContext (this (fst (disconnect s))) = Some a
           ∧ a ∈ closedContexts (rt (fst (disconnect s))))
     ∨ (inputAudioContext (this (fst (disconnect s))) = None
        ∧ ∃ b, outputAudioContext (this (fst (disconnect s))) = Some b
               ∧ b ∈ closedContexts (rt (fst (disconnect s))))).
Proof.
  intros (Hi & Ho & Hne) Hheld. rewrite disconnect_unfold.
  destruct (release_capture_spec s) as (Ht & Hcl & _).
  set (x := release_capture s) in *.
  assert (Hx : sources (this x) = sources (this s)
               ∧ nextStartTime (this x) = nextStartTime (this s)
               ∧ inputAudioContext (this x) = inputAudioContext (this s)
               ∧ outputAudioContext (this x) = outputAudioContext (this s)).
  { rewrite Ht. by destruct (this s). }
  destruct Hx as (Hsrc & Hcur & Hxi & Hxo).
  unfold disconnect_input. rewrite Hxi.
  destruct (inputAudioContext (this s)) as [a|] eqn:Ea.
  - rewrite close_context_ok by (rewrite Hcl; auto).
    rewrite <- Hsrc, <- Hcur.
    split; [by destruct_state x|]. split; [by destruct_state x|].
    left. exists a. split.
    + rewrite <- Hxi. by destruct_state x.
    + change (a ∈ {[a]} ∪ closedContexts (rt x)).
      apply elem_of_union. left. by apply elem_of_singleton.
  - destruct Hheld as [[? ?]|[b Hb]]; [discriminate|].
    unfold disconnect_output. rewrite Hxo, Hb.
    rewrite close_context_ok by (rewrite Hcl; auto).
    rewrite <- Hsrc, <- Hcur.
    split; [by destruct_state x|]. split; [by destruct_state x|].
    right. split; [rewrite <- Hxi; by destruct_state x|].
    exists b. split.
    + rewrite <- Hb, <- Hxo. by destruct_state x.
    + change (b ∈ {[b]} ∪ closedContexts (rt x)).
      apply elem_of_union. left. by apply elem_of_singleton.
Qed.

(** X5. A second [disconnect] called while the first is still waiting for a
    context to close finds that context still held and already closed:
    its [close()] rejects, the call ends with InvalidStateError, and its own
    clean-up of the sources and the cursor is never reached. *)
Theorem overlapping_disconnect_rejects (s : State) :
  contexts_open s →
  is_Some (inputAudioContext (this s)) ∨ is_Some (outputAudioContext (this s)) →
  let s1 := fst (disconnect s) in
  snd (disconnect s1) = Thrown InvalidStateError
  ∧ sources (this (fst (disconnect s1))) = sources (this s)
  ∧ nextStartTime (this (fst (disconnect s1))) = nextStartTime (this s).
Proof.
  intros Hopen Hheld s1.
  destruct (disconnect_first_stretch s Hopen Hheld) as (Hs & Hc & Hcl).
  fold s1 in Hs, Hc, Hcl.
  destruct (disconnect_on_closed s1 Hcl) as (Ho & Hs' & Hc').
  split; [done|]. split; congruence.
Qed.

Lemma overlapping_disconnect_rejects_witness :
  snd (disconnect (fst (disconnect playing))) = Thrown InvalidStateError.
Proof.
  apply (proj1 (overlapping_disconnect_rejects playing contexts_open_playing
                  (or_introl (ex_intro _ 0%nat eq_refl)))).
Defined.

(** ** Messages and decodes around a teardown *)

Lemma wf_silent_when_empty s : wf s → sources (this s) = ∅ → silent s.
Proof.
  intros Hwf He h n Hn. destruct (live n) eqn:El; [|done].
  exfalso. apply (not_elem_of_empty (C:=gset nat) h). rewrite <- He.
  apply (wf_sources s Hwf). eauto.
Qed.

Lemma wf_disconnect_await s : wf s → wf (fst (disconnect_await s)).
Proof.
  intros H. unfold disconnect_await.
  assert (Hgen : ∀ fuel p, wf (fst p) → wf (fst (settle_closes fuel p))).
  { induction fuel as [|fuel IH]; intros [x o] Hx; [done|].
    cbn [settle_closes]. destruct o; try done.
    apply IH. by apply (wf_step (CloseSettled k)). }
  apply Hgen. by apply (wf_step CallDisconnect).
Qed.

(** X6. A decode that settles only after [disconnect] has finished: creating
    the source fails on the missing context, the failure is caught and
    logged, and the torn-down service stays exactly as it was, silent. *)
Theorem decode_after_disconnect (s : State) (m : Msg.LiveServerMessage)
    (r : Exception + AudioBuffer) :
  wf s → contexts_open s → audio_branch m s = true →
  let s1 := step (ServerMessage m) s in
  let s2 := fst (disconnect_await s1) in
  let s3 := step (DecodeSettled (nextTask (rt s)) r) s2 in
  this s3 = this s2 ∧ nodes (rt s3) = nodes (rt s2) ∧ silent s3
  ∧ (∀ b, r = inr b → log_decode_error TypeError ∈ console (rt s3)).
Proof.
  intros Hwf Hopen Ha s1 s2 s3.
  assert (Hwf1 : wf s1) by by apply wf_step.
  assert (Hopen1 : contexts_open s1) by by apply contexts_open_step.
  destruct (handleServerMessage_audio m s Ha) as (_ & _ & Htk & _ & _ & _ & Hnt).
  fold s1 in Htk, Hnt.
  destruct (disconnect_await_spec s1 Hopen1) as (_ & _ & Ht2 & _).
  destruct (disconnect_await_rest s1 Hopen1) as (Hk & _).
  fold s2 in Ht2, Hk.
  assert (Hwf2 : wf s2) by by apply wf_disconnect_await.
  assert (Hk2 : tasks (rt s2) !! nextTask (rt s)
                = Some (KDecode (Msg.is_interrupted m))).
  { rewrite Hk by (rewrite Hnt; lia). rewrite Htk. apply lookup_insert_eq. }
  assert (Hsil2 : silent s2).
  { apply wf_silent_when_empty; [done|]. by rewrite Ht2. }
  destruct (unpark_spec (nextTask (rt s)) s2) as (Hut & Hun & _ & _ & _ & Huc).
  set (x := match r with
            | inr b => schedule b (unpark (nextTask (rt s)) s2)
            | inl err => log (log_decode_error err) (unpark (nextTask (rt s)) s2)
            end).
  assert (Hx : this x = this s2 ∧ nodes (rt x) = nodes (rt s2)
               ∧ (∀ b, r = inr b → log_decode_error TypeError ∈ console (rt x))).
  { unfold x. destruct r as [err|b].
    - split; [|split]; [by rewrite <- Hut|by rewrite <- Hun|discriminate].
    - unfold schedule. rewrite Hut, Ht2. cbn [outputAudioContext].
      split; [|split]; [by rewrite <- Ht2, <- Hut|by rewrite <- Hun|].
      intros _ _.
      change (log_decode_error TypeError
              ∈ console (rt (unpark (nextTask (rt s)) s2))
                ++ [log_decode_error TypeError]).
      apply elem_of_app. right. by apply list_elem_of_singleton. }
  destruct Hx as (Hxt & Hxn & Hxc).
  assert (H3 : s3 = interruption (Msg.is_interrupted m) x).
  { unfold s3. by rewrite (step_decoded _ _ _ _ Hk2). }
  assert (Hthis : this s3 = this s2 ∧ nodes (rt s3) = nodes (rt s2)
                  ∧ ∀ e, e ∈ console (rt x) → e ∈ console (rt s3)).
  { rewrite H3. destruct (Msg.is_interrupted m).
    - destruct (interruption_spec x) as (Hs & Hc & Hn & _).
      split; [|split].
      + assert (Hrest : this (interruption true x)
                        = set_nextStartTime 0%Q (set_sources ∅ (this x)))
          by by destruct_state x.
        rewrite Hrest, Hxt, Ht2. reflexivity.
      + rewrite Hn, Hxt, Ht2, Hxn. cbn [sources]. apply stop_all_empty.
      + intros e He.
        change (e ∈ console (rt x) ++ [log_model_interrupted]).
        apply elem_of_app. by left.
    - cbn [interruption]. done. }
  destruct Hthis as (H3t & H3n & H3c).
  split; [done|]. split; [done|]. split.
  - intros h n. rewrite H3n. apply Hsil2.
  - intros b Hb. apply H3c, (Hxc b Hb).
Qed.

Lemma decode_after_disconnect_witness :
  this (step (DecodeSettled (nextTask (rt playing)) (inr half_second))
          (fst (disconnect_await
                  (step (ServerMessage (turn [audio_part some_base64] None))
                     playing))))
  = this (fst (disconnect_await
                 (step (ServerMessage (turn [audio_part some_base64] None))
                    playing))).
Proof.
  apply (proj1 (decode_after_disconnect playing
                  (turn [audio_part some_base64] None) (inr half_second)
                  wf_playing contexts_open_playing eq_refl)).
Defined.

(** X7. When the last stretch of [disconnect] runs, everything is silenced,
    whatever was scheduled while it waited for the contexts to close: every
    remembered source is stopped, none is left live, [sources] is empty, the
    cursor is 0 and the output context is dropped. *)
Theorem disconnect_end_silences (s : State) (k : nat) :
  wf s → tasks (rt s) !! k = Some KCloseOutput →
  let s' := step (CloseSettled k) s in
  silent s' ∧ sources (this s') = ∅ ∧ nextStartTime (this s') = 0%Q
  ∧ outputAudioContext (this s') = None
  ∧ ∀ h, h ∈ sources (this s) →
      ∃ n, nodes (rt s') !! h = Some n ∧ stopped n = true.
Proof.
  intros Hwf Hk s'.
  assert (Hs' : s' = fst (cleanup (on_this (set_outputAudioContext None)
                                     (unpark k s)))).
  { unfold s', step. cbn [dispatch]. by rewrite Hk. }
  set (x := on_this (set_outputAudioContext None) (unpark k s)) in *.
  assert (Hwfx : wf x) by by apply wf_drop_context, wf_unpark.
  assert (Hx : sources (this x) = sources (this s) ∧ nodes (rt x) = nodes (rt s)).
  { unfold x. by destruct_state s. }
  destruct Hx as [Hxs Hxn].
  assert (Hn : nodes (rt s') = stop_all (sources (this x)) (nodes (rt x))).
  { rewrite Hs'. by destruct_state x. }
  split; [by eapply stop_all_silent|].
  rewrite Hs'. split; [by destruct_state x|]. split; [by destruct_state x|].
  split; [unfold x; by destruct_state s|].
  intros h Hh. destruct (proj1 (wf_sources s Hwf h) Hh) as (n & Hsn & _).
  rewrite <- Hs', Hn, lookup_stop_all, Hxn, Hsn, Hxs.
  rewrite bool_decide_eq_true_2 by done. cbn. eauto.
Qed.

Lemma disconnect_end_silences_witness :
  sources
    (this (step (CloseSettled 2)
             (run [CallDisconnect; CloseSettled 1;
                   ServerMessage (turn [audio_part some_base64] None);
                   DecodeSettled 3 (inr half_second)] in_call)))
  = ∅.
Proof.
  apply (proj1 (proj2 (disconnect_end_silences
                         (run [CallDisconnect; CloseSettled 1;
                               ServerMessage (turn [audio_part some_base64] None);
                               DecodeSettled 3 (inr half_second)] in_call)
                         2 (wf_run _ _ (wf_run _ _ wf_initial)) eq_refl))).
Defined.

(** ** Connecting *)

Lemma connect_k_granted x :
  snd (connect_k (inr tt) x) = Done
  ∧ this (fst (connect_k (inr tt) x))
    = set_session (Some (S (nextObject (rt x))))
        (set_stream (Some (nextObject (rt x))) (this x))
  ∧ nextObject (rt (fst (connect_k (inr tt) x))) = S (S (nextObject (rt x)))
  ∧ closedContexts (rt (fst (connect_k (inr tt) x))) = closedContexts (rt x)
  ∧ stoppedStreams (rt (fst (connect_k (inr tt) x))) = stoppedStreams (rt x)
  ∧ sessionCloses (rt (fst (connect_k (inr tt) x))) = sessionCloses (rt x)
  ∧ micRequests (rt (fst (connect_k (inr tt) x))) = micRequests (rt x).
Proof. by destruct_state x. Qed.

Lemma step_mic_settled k r s :
  tasks (rt s) !! k = Some KGetUserMedia →
  dispatch (MicSettled k r) s = connect_k r (unpark k s).
Proof. intros H. cbn [dispatch]. by rewrite H. Qed.

(** X8. A successful start, from any state of the service: [connect] with the
    microphone granted ends normally holding two contexts, the gain node,
    the stream and the session, all different objects; the capture source
    and processor come only with the [onopen] callback. Neither touches the
    cursor or the remembered sources, and the microphone is asked once. *)
Theorem connect_then_open (s : State) :
  wf s →
  let n := nextObject (rt s) in
  let s1 := fst (connect_await (inr tt) s) in
  let s2 := step SessionOpen s1 in
  snd (connect_await (inr tt) s) = Done
  ∧ this s1 =
      {| session := Some (n + 4)%nat; inputAudioContext := Some n;
         outputAudioContext := Some (n + 1)%nat; stream := Some (n + 3)%nat;
         processor := processor (this s); source := source (this s);
         nextStartTime := nextStartTime (this s);
         outputNode := Some (n + 2)%nat; sources := sources (this s) |}
  ∧ this s2 =
      {| session := Some (n + 4)%nat; inputAudioContext := Some n;
         outputAudioContext := Some (n + 1)%nat; stream := Some (n + 3)%nat;
         processor := Some (n + 6)%nat; source := Some (n + 5)%nat;
         nextStartTime := nextStartTime (this s);
         outputNode := Some (n + 2)%nat; sources := sources (this s) |}
  ∧ micRequests (rt s2) = S (micRequests (rt s))
  ∧ contexts_open s2.
Proof.
  intros Hwf n s1 s2.
  assert (Hs1 : connect_await (inr tt) s
                = connect_k (inr tt) (unpark (nextTask (rt s)) (fst (connect s)))).
  { unfold connect_await.
    destruct (connect_spec s) as (Ho & _ & _ & Htk & _).
    destruct (connect s) as [x o] eqn:E. cbn [fst snd] in *. subst o.
    apply step_mic_settled. rewrite Htk. apply lookup_insert_eq. }
  assert (H1 : snd (connect_await (inr tt) s) = Done
    ∧ this s1 =
      {| session := Some (n + 4)%nat; inputAudioContext := Some n;
         outputAudioContext := Some (n + 1)%nat; stream := Some (n + 3)%nat;
         processor := processor (this s); source := source (this s);
         nextStartTime := nextStartTime (this s);
         outputNode := Some (n + 2)%nat; sources := sources (this s) |}
    ∧ nextObject (rt s1) = (n + 5)%nat
    ∧ micRequests (rt s1) = S (micRequests (rt s))
    ∧ closedContexts (rt s1) = closedContexts (rt s)).
  { unfold s1, n. rewrite Hs1. destruct_state s. cbn.
    rewrite !Nat.add_succ_r, !Nat.add_0_r. done. }
  destruct H1 as (Ho & Ht1 & Hn1 & Hm1 & Hc1).
  assert (H2 : this s2 =
      {| session := Some (n + 4)%nat; inputAudioContext := Some n;
         outputAudioContext := Some (n + 1)%nat; stream := Some (n + 3)%nat;
         processor := Some (n + 6)%nat; source := Some (n + 5)%nat;
         nextStartTime := nextStartTime (this s);
         outputNode := Some (n + 2)%nat; sources := sources (this s) |}
    ∧ micRequests (rt s2) = micRequests (rt s1)
    ∧ closedContexts (rt s2) = closedContexts (rt s1)).
  { unfold s2, step. cbn [dispatch fst]. rewrite Ht1. cbn [session].
    unfold onopen, startInputStreaming.
    change (this (log log_session_opened s1)) with (this s1). rewrite Ht1.
    cbn [inputAudioContext stream].
    destruct_state s1. cbn in *. subst.
    rewrite !Nat.add_succ_r, !Nat.add_0_r. injection Ht1 as -> -> -> -> -> -> -> -> ->.
    rewrite !Nat.add_succ_r, !Nat.add_0_r. done. }
  destruct H2 as (Ht2 & Hm2 & Hc2).
  do 3 (split; [done|]). split; [congruence|].
  unfold contexts_open. rewrite Ht2, Hc2, Hc1. cbn.
  split; [|split]; intros c [= <-].
  - intros Hin. pose proof (wf_closed_fresh s Hwf _ Hin). unfold n in *. lia.
  - intros Hin. pose proof (wf_closed_fresh s Hwf _ Hin). unfold n in *. lia.
  - intros [= ?]. lia.
Qed.

Lemma connect_then_open_witness :
  processor (this (step SessionOpen (fst (connect_await (inr tt) initial))))
  = Some 6.
Proof.
  pose proof (connect_then_open initial wf_initial) as H.
  cbv zeta in H. destruct H as (_ & _ & H & _). by rewrite H.
Defined.

(** X9. [disconnect] called while [connect] still waits for the microphone
    does not stop [connect]: when the microphone is granted afterwards,
    [connect] keeps the stream and opens the session all the same. The
    service then holds a stream and a session but no context; [onopen]
    starts no capture; and nothing has stopped the stream or asked the
    session to close. *)
Theorem grant_after_disconnect (s : State) :
  wf s →
  let s1 := fst (connect s) in
  let s2 := fst (disconnect_await s1) in
  let s3 := step (MicSettled (nextTask (rt s)) (inr tt)) s2 in
  let s4 := step SessionOpen s3 in
  snd (disconnect_await s1) = Done
  ∧ stream (this s4) = Some (nextObject (rt s) + 3)%nat
  ∧ session (this s4) = Some (nextObject (rt s) + 4)%nat
  ∧ inputAudioContext (this s4) = None ∧ outputAudioContext (this s4) = None
  ∧ processor (this s4) = None ∧ source (this s4) = None
  ∧ stoppedStreams (rt s4) = stoppedStreams (rt s2)
  ∧ sessionCloses (rt s4) = sessionCloses (rt s2).
Proof.
  intros Hwf s1 s2 s3 s4.
  pose proof (contexts_open_connect s Hwf) as Hopen. fold s1 in Hopen.
  destruct (connect_spec s) as (_ & _ & _ & Htk & _). fold s1 in Htk.
  assert (Hn1 : nextObject (rt s1) = (nextObject (rt s) + 3)%nat
                ∧ nextTask (rt s1) = S (nextTask (rt s))).
  { unfold s1. destruct_state s. cbn. split; lia. }
  destruct Hn1 as [Hn1 Hnt1].
  destruct (disconnect_await_spec s1 Hopen) as (Hd & _ & Ht2 & _).
  destruct (disconnect_await_rest s1 Hopen) as (Hk & _ & _ & _ & Hn2 & _).
  fold s2 in Ht2, Hk, Hn2.
  assert (Hk2 : tasks (rt s2) !! nextTask (rt s) = Some KGetUserMedia).
  { rewrite Hk by lia. rewrite Htk. apply lookup_insert_eq. }
  assert (H3 : s3 = fst (connect_k (inr tt) (unpark (nextTask (rt s)) s2))).
  { unfold s3, step. by rewrite (step_mic_settled _ _ _ Hk2). }
  destruct (connect_k_granted (unpark (nextTask (rt s)) s2))
    as (_ & Ht3 & _ & _ & Hst3 & Hsc3 & _).
  rewrite <- H3 in Ht3, Hst3, Hsc3.
  destruct (unpark_spec (nextTask (rt s)) s2) as (Hut & _ & Huo & _).
  rewrite Hut, Huo, Hn2, Hn1, Ht2 in Ht3.
  assert (Hst3' : stoppedStreams (rt s3) = stoppedStreams (rt s2)).
  { rewrite Hst3. by destruct_state s2. }
  assert (Hsc3' : sessionCloses (rt s3) = sessionCloses (rt s2)).
  { rewrite Hsc3. by destruct_state s2. }
  assert (H4 : this s4 = this s3 ∧ stoppedStreams (rt s4) = stoppedStreams (rt s3)
               ∧ sessionCloses (rt s4) = sessionCloses (rt s3)).
  { unfold s4, step. cbn [dispatch fst]. rewrite Ht3. cbn [session set_session].
    unfold onopen, startInputStreaming.
    change (this (log log_session_opened s3)) with (this s3). rewrite Ht3.
    cbn. done. }
  destruct H4 as (Ht4 & Hst4 & Hsc4).
  split; [done|]. rewrite Ht4, Ht3, Hst4, Hsc4. cbn.
  rewrite !Nat.add_succ_r, !Nat.add_0_r. done.
Qed.

Lemma grant_after_disconnect_witness :
  stream (this (step SessionOpen
                  (step (MicSettled (nextTask (rt initial)) (inr tt))
                     (fst (disconnect_await (fst (connect initial)))))))
  = Some (nextObject (rt initial) + 3)%nat.
Proof.
  pose proof (grant_after_disconnect initial wf_initial) as H.
  cbv zeta in H. destruct H as (_ & H & _). exact H.
Defined.

(** ** Messages *)

(** X10. A message that carries audio together with the interruption flag: its
    own segment is created and stopped at once, so it is never heard;
    everything else is stopped too, [sources] is empty and the cursor 0. *)
Theorem interrupted_audio_never_plays (s : State) (m : Msg.LiveServerMessage)
    (b : AudioBuffer) :
  wf s → audio_branch m s = true → Msg.is_interrupted m = true →
  let s' := handle m (inr b) s in
  (∃ n, nodes (rt s') !! nextObject (rt s) = Some n
        ∧ buffer n = b ∧ stopped n = true)
  ∧ silent s' ∧ sources (this s') = ∅ ∧ nextStartTime (this s') = 0%Q.
Proof.
  intros Hwf Ha Hi s'.
  destruct (handle_enqueue s m b Hwf Ha) as ((n & Hn & _ & Hb & Hst & _) & _).
  fold s' in Hn. rewrite Hi in Hst.
  destruct (handle_interrupted m (inr b) s Hwf Hi) as (x & Hx & Hwfx & _).
  destruct (interruption_effect x Hwfx) as (Hsil & Hs & Hc & _).
  fold s' in Hx. rewrite <- Hx in Hsil, Hs, Hc. eauto 10.
Qed.

Lemma interrupted_audio_never_plays_witness :
  sources (this (handle (turn [audio_part some_base64] (Some true))
                   (inr half_second) playing)) = ∅.
Proof.
  apply (proj1 (proj2 (proj2 (interrupted_audio_never_plays playing
                  (turn [audio_part some_base64] (Some true)) half_second
                  wf_playing eq_refl eq_refl)))).
Defined.

Lemma handle_emitted m r s :
  emitted (rt (handle m r s)) = emitted (rt s) ++ fragments m.
Proof.
  assert (Hint : ∀ i x, emitted (rt (interruption i x)) = emitted (rt x)).
  { intros i x. destruct i; by destruct_state x. }
  assert (Htr : emitted (rt (transcriptions m s)) = emitted (rt s) ++ fragments m).
  { rewrite transcriptions_spec. by destruct_state s. }
  destruct (audio_branch m s) eqn:Ha.
  - rewrite handle_audio by done.
    destruct (handleServerMessage_audio m s Ha) as (_ & _ & Htk & _).
    rewrite (step_decoded _ (Msg.is_interrupted m))
      by (rewrite Htk; apply lookup_insert_eq).
    rewrite Hint.
    assert (Hs1 : emitted (rt (step (ServerMessage m) s))
                  = emitted (rt s) ++ fragments m).
    { unfold step. cbn [dispatch]. unfold handleServerMessage.
      rewrite audio_branch_transcriptions, Ha, transcriptions_spec.
      by destruct_state s. }
    rewrite <- Hs1. destruct r as [err|b].
    + by destruct_state (step (ServerMessage m) s).
    + unfold schedule. destruct_state (step (ServerMessage m) s). cbn.
      by destruct outputAudioContext0, outputNode0.
  - rewrite handle_silent by done. by rewrite Hint.
Qed.

(** X11. Transcriptions are passed on to the caller for every message, whatever
    becomes of its audio and whether the service is connected or not: first
    the user's text, then the model's, a missing text as the empty string,
    both with [isFinal] set to the message's [turnComplete]; and nothing
    else is ever passed on. *)
Theorem transcriptions_forwarded (s : State) (sc : Msg.LiveServerContent)
    (r : Exception + AudioBuffer) :
  emitted (rt (handle (Msg.mkMessage (Some sc)) r s))
  = emitted (rt s)
    ++ match Msg.inputTranscription sc with
       | Some t => [frag (Msg.or_empty (Msg.text t)) true
                      (Msg.bang2 (Msg.turnComplete sc))]
       | None => []
       end
    ++ match Msg.outputTranscription sc with
       | Some t => [frag (Msg.or_empty (Msg.text t)) false
                      (Msg.bang2 (Msg.turnComplete sc))]
       | None => []
       end.
Proof. rewrite handle_emitted. reflexivity. Qed.

(** X12. A message with no transcription, no audio payload (or an empty one) and
    no interruption flag does nothing at all, whatever its [turnComplete]:
    the end of a turn announced on its own is not passed on to anyone. *)
Theorem bare_turn_complete_is_dropped (s : State) (sc : Msg.LiveServerContent) :
  Msg.inputTranscription sc = None → Msg.outputTranscription sc = None →
  Msg.bang2 (Msg.interrupted sc) = false →
  (Msg.base64Audio (Msg.mkMessage (Some sc)) = None
   ∨ Msg.base64Audio (Msg.mkMessage (Some sc)) = Some []) →
  handleServerMessage (Msg.mkMessage (Some sc)) s = (s, Done).
Proof.
  intros Hi Ho Hint Hb. unfold handleServerMessage, transcriptions, audio_branch.
  unfold Msg.is_interrupted. cbn [Msg.serverContent mbind option_bind].
  rewrite Hi, Ho, Hint. by destruct Hb as [-> | ->].
Qed.

Lemma bare_turn_complete_is_dropped_witness :
  handleServerMessage
    (Msg.mkMessage (Some (Msg.mkServerContent None None None (Some true) None)))
    playing
  = (playing, Done).
Proof.
  apply (bare_turn_complete_is_dropped playing
           (Msg.mkServerContent None None None (Some true) None));
    first [reflexivity | by left].
Defined.

(** X13. Without an output context (before [connect], after [disconnect]) no
    message is ever decoded or scheduled: nothing is parked, no source is
    created, and unless the message carries the interruption flag the
    service is left exactly as it was. *)
Theorem no_scheduling_without_output (s : State) (m : Msg.LiveServerMessage)
    (r : Exception + AudioBuffer) :
  outputAudioContext (this s) = None →
  snd (handleServerMessage m s) = Done
  ∧ tasks (rt (handle m r s)) = tasks (rt s)
  ∧ (∀ h, is_Some (nodes (rt (handle m r s)) !! h) → is_Some (nodes (rt s) !! h))
  ∧ (Msg.is_interrupted m = false →
       this (handle m r s) = this s ∧ nodes (rt (handle m r s)) = nodes (rt s)).
Proof.
  intros Hnone.
  assert (Ha : audio_branch m s = false).
  { unfold audio_branch. rewrite Hnone. destruct (Msg.base64Audio m); [|done].
    rewrite bool_decide_eq_false_2 by (intros [? ?]; discriminate).
    by rewrite andb_false_r. }
  rewrite handleServerMessage_silent, handle_silent by done.
  split; [done|]. split; [|split].
  - destruct (Msg.is_interrupted m); rewrite transcriptions_spec;
      by destruct_state s.
  - intros h [n Hn]. apply kept_interruption in Hn as (n0 & Hn0 & _).
    exists n0. rewrite transcriptions_spec in Hn0. by destruct_state s.
  - intros ->. cbn [interruption]. rewrite transcriptions_spec.
    by destruct_state s.
Qed.

Lemma no_scheduling_without_output_witness :
  tasks (rt (handle (turn [audio_part some_base64] None) (inr half_second)
               (fst (disconnect_await playing))))
  = tasks (rt (fst (disconnect_await playing))).
Proof.
  apply (proj1 (proj2 (no_scheduling_without_output
                         (fst (disconnect_await playing))
                         (turn [audio_part some_base64] None)
                         (inr half_second) eq_refl))).
Defined.

(** * Further properties of the transcript *)

Section TranscriptInvariants.

Implicit Types (f : Fragment) (st : Stamp) (prev : list ChatMessage).

(** The updater by cases, in one statement. *)
Lemma onMessage_cases f st prev :
  (∃ init m, prev = init ++ [m]
     ∧ Role_eqb (role m) (role_of (f_isUser f)) && negb (isFinal m) = true
     ∧ onMessage f st prev =
         init ++ [ {| id := id m; role := role m; text := text m ++ f_text f;
                      timestamp := timestamp m; isFinal := f_isFinal f |} ])
  ∨ (pending_for (f_isUser f) prev = false ∧ blank (f_text f) = true
     ∧ onMessage f st prev = prev)
  ∨ (pending_for (f_isUser f) prev = false ∧ blank (f_text f) = false
     ∧ onMessage f st prev =
         prev ++ [ {| id := stamp_id st; role := role_of (f_isUser f);
                      text := f_text f; timestamp := stamp_time st;
                      isFinal := f_isFinal f |} ]).
Proof.
  destruct (pending_for (f_isUser f) prev) eqn:Hp.
  - left. destruct (pending_for_inv _ _ Hp) as (init & m & -> & _).
    rewrite pending_for_snoc in Hp. exists init, m.
    split; [done|]. split; [done|]. by apply onMessage_pending.
  - right. rewrite (onMessage_fresh f st prev Hp).
    destruct (blank (f_text f)); [left|right]; done.
Qed.

Lemma onMessage_length f st prev :
  (List.length prev ≤ List.length (onMessage f st prev))%nat
  ∧ (List.length (onMessage f st prev) ≤ S (List.length prev))%nat.
Proof.
  destruct (onMessage_cases f st prev)
    as [(init & m & -> & _ & ->)|[(_ & _ & ->)|(_ & _ & ->)]];
    rewrite ?length_app; cbn; lia.
Qed.

Lemma onMessage_keeps_earlier f st prev i :
  (S i < List.length prev)%nat → onMessage f st prev !! i = prev !! i.
Proof.
  intros Hi. destruct (onMessage_cases f st prev)
    as [(init & m & -> & _ & ->)|[(_ & _ & ->)|(_ & _ & ->)]]; [|done|].
  - rewrite length_app in Hi. cbn in Hi.
    rewrite !lookup_app_l by lia. done.
  - rewrite lookup_app_l by lia. done.
Qed.

Lemma grown_refl m : grown m m.
Proof. repeat split. exists []. by rewrite app_nil_r. Qed.

Lemma grown_trans m1 m2 m3 : grown m1 m2 → grown m2 m3 → grown m1 m3.
Proof.
  intros (? & ? & ? & a & Ha) (? & ? & ? & b & Hb).
  repeat split; try congruence. exists (a ++ b).
  by rewrite Hb, Ha, <- app_assoc.
Qed.

Lemma onMessage_grows f st prev i m :
  prev !! i = Some m →
  ∃ m', onMessage f st prev !! i = Some m' ∧ grown m m'
        ∧ (isFinal m = true → m' = m).
Proof.
  intros Hm. destruct (onMessage_cases f st prev)
    as [(init & l & -> & Hp & ->)|[(_ & _ & ->)|(_ & _ & ->)]].
  - destruct (decide (i < List.length init)%nat) as [Hlt|Hge].
    + rewrite lookup_app_l in Hm |- * by done.
      exists m. split; [done|]. split; [apply grown_refl|done].
    + pose proof (lookup_lt_Some _ _ _ Hm) as Hi.
      rewrite length_app in Hi. cbn in Hi.
      assert (i = List.length init + 0)%nat as -> by lia.
      rewrite lookup_app_r in Hm |- * by lia.
      replace (List.length init + 0 - List.length init)%nat with 0%nat in * by lia.
      cbn in Hm |- *. injection Hm as ->.
      eexists. split; [done|]. split.
      * repeat split. by exists (f_text f).
      * intros Hf. apply andb_prop in Hp as [_ Hp]. by rewrite Hf in Hp.
  - exists m. split; [done|]. split; [apply grown_refl|done].
  - exists m. split; [|split; [apply grown_refl|done]].
    rewrite lookup_app_l by (by eapply lookup_lt_Some). done.
Qed.

Lemma feed_cons f st fs prev :
  feed ((f, st) :: fs) prev = feed fs (onMessage f st prev).
Proof. reflexivity. Qed.

End TranscriptInvariants.

(** X14. Only the last entry of the transcript is ever changed: an entry that
    has another one after it stays as it is for good. In particular an
    utterance still pending when the other speaker is first heard stays
    pending, and the transcript never gets shorter, growing by at most one
    entry per fragment. *)
Theorem earlier_entries_are_fixed (fs : list (Fragment * Stamp))
    (prev : list ChatMessage) :
  (∀ i, (S i < List.length prev)%nat → feed fs prev !! i = prev !! i)
  ∧ (List.length prev ≤ List.length (feed fs prev))%nat
  ∧ (List.length (feed fs prev) ≤ List.length prev + List.length fs)%nat.
Proof.
  revert prev. induction fs as [|[f st] fs IH]; intros prev.
  { cbn. split; [done|]. lia. }
  rewrite feed_cons. destruct (IH (onMessage f st prev)) as (IH1 & IH2 & IH3).
  destruct (onMessage_length f st prev) as [Hl1 Hl2].
  split; [|cbn [List.length]; lia].
  intros i Hi. rewrite IH1 by lia. by apply onMessage_keeps_earlier.
Qed.

Lemma earlier_entries_are_fixed_witness :
  feed [(frag bingxiang false false, st1); (frag wo_yao_baoxiu true true, st2)]
    [mkChatMessage [0x31]%N user ni_hao 1 false;
     mkChatMessage [0x32]%N model ni_hao 2 false] !! 0%nat
  = Some (mkChatMessage [0x31]%N user ni_hao 1 false).
Proof.
  apply (proj1 (earlier_entries_are_fixed
                  [(frag bingxiang false false, st1);
                   (frag wo_yao_baoxiu true true, st2)]
                  [mkChatMessage [0x31]%N user ni_hao 1 false;
                   mkChatMessage [0x32]%N model ni_hao 2 false]) 0%nat).
  cbn. lia.
Defined.

Lemma feed_grows (fs : list (Fragment * Stamp)) (prev : list ChatMessage)
    (i : nat) (m : ChatMessage) :
  prev !! i = Some m →
  ∃ m', feed fs prev !! i = Some m' ∧ grown m m'
        ∧ (isFinal m = true → m' = m).
Proof.
  revert prev m. induction fs as [|[f st] fs IH]; intros prev m Hm.
  { exists m. split; [done|]. split; [apply grown_refl|done]. }
  rewrite feed_cons.
  destruct (onMessage_grows f st prev i m Hm) as (m1 & Hm1 & Hg1 & Hf1).
  destruct (IH _ _ Hm1) as (m2 & Hm2 & Hg2 & Hf2).
  exists m2. split; [done|]. split; [by eapply grown_trans|].
  intros Hf. rewrite (Hf1 Hf) in *. by apply Hf2.
Qed.

(** X15. An utterance keeps its id, speaker and timestamp for good, and its text
    only ever gets longer at the end; once it is final it never changes
    again. *)
Theorem utterances_only_grow (fs : list (Fragment * Stamp))
    (prev : list ChatMessage) (i : nat) (m : ChatMessage) :
  prev !! i = Some m →
  ∃ m', feed fs prev !! i = Some m' ∧ grown m m'
        ∧ (isFinal m = true → m' = m).
Proof. apply feed_grows. Qed.

Lemma utterances_only_grow_witness :
  ∃ m', feed [(frag wo_yao_baoxiu true true, st1)]
          [mkChatMessage [0x31]%N user ni_hao 1 false] !! 0%nat = Some m'
        ∧ grown (mkChatMessage [0x31]%N user ni_hao 1 false) m'
        ∧ (isFinal (mkChatMessage [0x31]%N user ni_hao 1 false) = true →
           m' = mkChatMessage [0x31]%N user ni_hao 1 false).
Proof.
  apply (utterances_only_grow [(frag wo_yao_baoxiu true true, st1)]
           [mkChatMessage [0x31]%N user ni_hao 1 false] 0
           (mkChatMessage [0x31]%N user ni_hao 1 false)).
  reflexivity.
Defined.

Lemma blank_app_solid (a b : JS.str) : blank a = false → blank (a ++ b) = false.
Proof.
  rewrite !blank_all_white, forallb_app. by intros ->.
Qed.

(** X16. No utterance with an empty or white-space-only text is ever created:
    if the transcript has none, it has none after any fragments, whatever
    they are. *)
Theorem no_blank_utterance (fs : list (Fragment * Stamp))
    (prev : list ChatMessage) :
  Forall (fun m => blank (text m) = false) prev →
  Forall (fun m => blank (text m) = false) (feed fs prev).
Proof.
  revert prev. induction fs as [|[f st] fs IH]; intros prev H; [done|].
  rewrite feed_cons. apply IH.
  destruct (onMessage_cases f st prev)
    as [(init & m & -> & _ & ->)|[(_ & _ & ->)|(_ & Hb & ->)]]; [|done|].
  - apply Forall_app in H as [Hi Hm]. apply Forall_app. split; [done|].
    apply Forall_singleton. cbn [text]. apply blank_app_solid.
    apply Forall_inv in Hm. exact Hm.
  - apply Forall_app. split; [done|]. by apply Forall_singleton.
Qed.

Lemma no_blank_utterance_witness :
  Forall (fun m => blank (text m) = false)
    (feed [(frag [0x20]%N true false, st0); (frag ni_hao true false, st1);
           (frag [0x20]%N true true, st2)] []).
Proof.
  apply (no_blank_utterance
           [(frag [0x20]%N true false, st0); (frag ni_hao true false, st1);
            (frag [0x20]%N true true, st2)] []).
  constructor.
Defined.

Lemma Role_eqb_false (a b : Role) : Role_eqb a b = false → a ≠ b.
Proof. destruct a, b; cbn; congruence. Qed.

(** X17. Two utterances in a row are never both of one speaker with the first
    still pending: a new entry is started only when the last one is final
    or is the other speaker's. *)
Theorem same_speaker_entries_are_separated (fs : list (Fragment * Stamp))
    (prev : list ChatMessage) :
  well_separated prev → well_separated (feed fs prev).
Proof.
  revert prev. induction fs as [|[f st] fs IH]; intros prev H; [done|].
  rewrite feed_cons. apply IH. clear IH.
  destruct (onMessage_cases f st prev)
    as [(init & m & -> & _ & ->)|[(_ & _ & ->)|(Hp & _ & ->)]]; [|done|].
  - intros i a b Ha Hb.
    pose proof (lookup_lt_Some _ _ _ Hb) as Hi.
    rewrite length_app in Hi. cbn in Hi.
    rewrite lookup_app_l in Ha by lia.
    destruct (decide (S i < List.length init)%nat) as [Hlt|Hge].
    + rewrite lookup_app_l in Hb by done.
      apply (H i a b); rewrite lookup_app_l by lia; done.
    + assert (S i = List.length init + 0)%nat as Hs by lia.
      rewrite Hs, lookup_app_r in Hb by lia.
      replace (List.length init + 0 - List.length init)%nat with 0%nat in Hb by lia.
      cbn in Hb. injection Hb as <-. cbn [role].
      apply (H i a m).
      * rewrite lookup_app_l by lia. done.
      * rewrite Hs, lookup_app_r by lia.
        by replace (List.length init + 0 - List.length init)%nat with 0%nat by lia.
  - intros i a b Ha Hb.
    pose proof (lookup_lt_Some _ _ _ Hb) as Hi.
    rewrite length_app in Hi. cbn in Hi.
    rewrite lookup_app_l in Ha by lia.
    destruct (decide (S i < List.length prev)%nat) as [Hlt|Hge].
    + rewrite lookup_app_l in Hb by done. by apply (H i a b).
    + assert (S i = List.length prev + 0)%nat as Hs by lia.
      rewrite Hs, lookup_app_r in Hb by lia.
      replace (List.length prev + 0 - List.length prev)%nat with 0%nat in Hb by lia.
      cbn in Hb. injection Hb as <-. cbn [role].
      assert (Hl : last prev = Some a).
      { rewrite last_lookup. rewrite <- Ha. f_equal. lia. }
      unfold pending_for in Hp. rewrite Hl in Hp.
      apply andb_false_iff in Hp as [Hp|Hp].
      * right. by apply Role_eqb_false.
      * left. by destruct (isFinal a).
Qed.

Lemma same_speaker_entries_are_separated_witness :
  well_separated
    (feed [(frag ni_hao true false, st0); (frag bingxiang true true, st1);
           (frag ni_hao true false, st2)] []).
Proof.
  apply (same_speaker_entries_are_separated
           [(frag ni_hao true false, st0); (frag bingxiang true true, st1);
            (frag ni_hao true false, st2)] []).
  intros i a b Ha. by rewrite lookup_nil in Ha.
Defined.

(** * Properties of the page *)

(** ** What the browser's events leave alone in a service *)

Lemma no_teardown_delete k s s' :
  tasks (rt s') = delete k (tasks (rt s)) → no_teardown s → no_teardown s'.
Proof.
  intros Ht H k' c. rewrite Ht, lookup_delete_Some. intros [_ Hc].
  by apply (H k').
Qed.

Lemma no_teardown_insert k c s s' :
  tasks (rt s') = <[k := c]> (tasks (rt s)) → closing c = false →
  no_teardown s → no_teardown s'.
Proof.
  intros Ht Hc H k' c'. rewrite Ht, lookup_insert_Some.
  intros [[_ <-]|[_ Hl]]; [done|]. by apply (H k').
Qed.

Lemma no_teardown_same s s' :
  tasks (rt s') = tasks (rt s) → no_teardown s → no_teardown s'.
Proof. intros Ht H k' c. rewrite Ht. apply H. Qed.

Lemma interruption_browser i x :
  nothing_released x (interruption i x)
  ∧ tasks (rt (interruption i x)) = tasks (rt x)
  ∧ emitted (rt (interruption i x)) = emitted (rt x).
Proof. destruct i; by destruct_state x. Qed.

Lemma nothing_released_trans s1 s2 s3 :
  nothing_released s1 s2 → nothing_released s2 s3 → nothing_released s1 s3.
Proof.
  intros (? & ? & ? & ? & ? & ?) (? & ? & ? & ? & ? & ?).
  repeat split; congruence.
Qed.

Lemma nothing_released_refl s : nothing_released s s.
Proof. by repeat split. Qed.

(** Whatever the browser makes happen to a service that is not being
    disconnected, nothing of it is released and no disconnect starts. *)
Lemma dispatch_releases_nothing e s :
  e ≠ CallConnect → e ≠ CallDisconnect → no_teardown s →
  nothing_released s (fst (dispatch e s)) ∧ no_teardown (fst (dispatch e s)).
Proof.
  intros He He' Hno. destruct e; try done; cbn [dispatch fst].
  - split; [|eapply no_teardown_same; [|done]];
      destruct (Qle_bool 0 dt); by destruct_state s.
  - destruct (tasks (rt s) !! k) as [[]|]; cbn [fst];
      try (split; [apply nothing_released_refl|done]).
    split; [destruct r as [err|[]]; by destruct_state s|].
    eapply (no_teardown_delete k); [|done].
    destruct r as [err|[]]; by destruct_state s.
  - destruct (session (this s)); [|split; [apply nothing_released_refl|done]].
    unfold onopen, startInputStreaming.
    split; [|eapply no_teardown_same; [|done]];
      destruct_state s; cbn; by destruct inputAudioContext0, stream0.
  - unfold handleServerMessage.
    destruct (audio_branch m (transcriptions m s)); cbn [fst].
    + split; [rewrite transcriptions_spec; by destruct_state s|].
      eapply (no_teardown_insert (nextTask (rt s))
                (KDecode (Msg.is_interrupted m))); [|done..].
      rewrite transcriptions_spec; by destruct_state s.
    + destruct (interruption_browser (Msg.is_interrupted m) (transcriptions m s))
        as (Hr & Ht & _).
      split.
      * eapply nothing_released_trans; [|exact Hr].
        rewrite transcriptions_spec; by destruct_state s.
      * eapply no_teardown_same; [|done]. rewrite Ht, transcriptions_spec.
        by destruct_state s.
  - destruct (tasks (rt s) !! k) as [[| i | |]|]; cbn [fst];
      try (split; [apply nothing_released_refl|done]).
    unfold handleServerMessage_k. cbn [fst].
    match goal with |- context [interruption i ?x] =>
      destruct (interruption_browser i x) as (Hr & Ht & _) end.
    split.
    + eapply nothing_released_trans; [|exact Hr].
      destruct r as [err|b]; [by destruct_state s|].
      unfold schedule; destruct_state s; cbn;
        by destruct outputAudioContext0, outputNode0.
    + eapply (no_teardown_delete k); [|done]. rewrite Ht.
      destruct r as [err|b]; [by destruct_state s|].
      unfold schedule; destruct_state s; cbn;
        by destruct outputAudioContext0, outputNode0.
  - unfold fire_ended. destruct (nodes (rt s) !! h) as [n|];
      [|split; [apply nothing_released_refl|done]].
    destruct (ended n); [split; [apply nothing_released_refl|done]|].
    split; [|eapply no_teardown_same; [|done]];
      destruct (onended_delete n); by destruct_state s.
  - destruct (tasks (rt s) !! k) as [c|] eqn:Hk;
      [|split; [apply nothing_released_refl|done]].
    pose proof (Hno k c Hk) as Hc.
    destruct c; try discriminate; split; (apply nothing_released_refl || done).
Qed.

(** ** The services of the page *)

Section PageServices.

Context (apiKey : bool) (now : nat → Stamp).

(** A stretch of a method of service [j] touches that service only, and
    the reference to the current service is kept or dropped. *)
Lemma run_stretch_spec j w f a :
  (serviceRef (run_stretch now j w f a) = serviceRef a
   ∨ serviceRef (run_stretch now j w f a) = None)
  ∧ (∀ i, i ≠ j → services (run_stretch now j w f a) !! i = services a !! i)
  ∧ (∀ s, services a !! j = Some s →
          services (run_stretch now j w f a) !! j = Some (fst (f s))).
Proof.
  unfold run_stretch. destruct (services a !! j) as [s|] eqn:Hs.
  - pose proof (lookup_lt_Some _ _ _ Hs) as Hlt.
    destruct (f s) as [s' o] eqn:Hf.
    assert (∀ i, i ≠ j → <[j:=s']> (services a) !! i = services a !! i)
      by (intros; by apply list_lookup_insert_ne).
    assert (<[j:=s']> (services a) !! j = Some s')
      by (by apply list_lookup_insert_eq).
    destruct o as [|k|err], w as [[]|]; cbn;
      (split; [auto|]); (split; [done|]); intros ? [= <-]; by rewrite Hf.
  - split; [by left|]. split; [done|]. intros s' [=].
Qed.

(** A service the page no longer refers to, and which is not being
    disconnected, stays that way over any event, and nothing of it is
    released. *)
Lemma abandoned_step e a i s :
  services a !! i = Some s → serviceRef a ≠ Some i → no_teardown s →
  ∃ s', services (page_step apiKey now e a) !! i = Some s'
        ∧ nothing_released s s' ∧ no_teardown s'
        ∧ serviceRef (page_step apiKey now e a) ≠ Some i.
Proof.
  intros Hs Href Hno.
  assert (Hstay : ∀ a', services a' = services a → serviceRef a' = serviceRef a →
    ∃ s', services a' !! i = Some s' ∧ nothing_released s s' ∧ no_teardown s'
          ∧ serviceRef a' ≠ Some i).
  { intros a' H1 H2. exists s. rewrite H1, H2.
    by split; [|split; [apply nothing_released_refl|]]. }
  assert (Hother : ∀ j w f a0, j ≠ i →
    services a0 !! i = Some s → serviceRef a0 ≠ Some i →
    ∃ s', services (run_stretch now j w f a0) !! i = Some s'
          ∧ nothing_released s s' ∧ no_teardown s'
          ∧ serviceRef (run_stretch now j w f a0) ≠ Some i).
  { intros j w f a0 Hj Hs0 Href0.
    destruct (run_stretch_spec j w f a0) as (Hr & Ho & _).
    exists s. rewrite Ho by done.
    split; [done|]. split; [apply nothing_released_refl|]. split; [done|].
    destruct Hr as [-> | ->]; done. }
  assert (Hsame : ∀ e0 w a0, e0 ≠ CallConnect → e0 ≠ CallDisconnect →
    services a0 !! i = Some s → serviceRef a0 ≠ Some i →
    ∃ s', services (run_stretch now i w (dispatch e0) a0) !! i = Some s'
          ∧ nothing_released s s' ∧ no_teardown s'
          ∧ serviceRef (run_stretch now i w (dispatch e0) a0) ≠ Some i).
  { intros e0 w a0 He0 He0' Hs0 Href0.
    destruct (run_stretch_spec i w (dispatch e0) a0) as (Hr & _ & Hat).
    destruct (dispatch_releases_nothing e0 s He0 He0' Hno) as [H1 H2].
    exists (fst (dispatch e0 s)). rewrite (Hat s Hs0).
    do 3 (split; [done|]). destruct Hr as [-> | ->]; done. }
  destruct e as [| | | j e | j | j | j vol]; cbn [page_step].
  - destruct (start_shown a); [|by apply Hstay].
    unfold handleStartCall. destruct apiKey; cbn [negb]; [|by apply Hstay].
    pose proof (lookup_lt_Some _ _ _ Hs) as Hlt.
    apply Hother; cbn.
    + lia.
    + by rewrite lookup_app_l.
    + intros Heq. injection Heq as Heq. lia.
  - destruct (start_shown a); [by apply Hstay|].
    unfold handleEndCall. destruct (serviceRef a) as [j|] eqn:Hj.
    + apply Hother; [congruence|done|congruence].
    + by apply Hstay.
  - unfold unmount. destruct (serviceRef a) as [j|] eqn:Hj.
    + apply Hother; [congruence|done|congruence].
    + apply Hstay; congruence.
  - unfold browser_event. destruct (decide (j = i)) as [->|Hj].
    + rewrite Hs.
      destruct e; try (by apply Hstay); try (by apply Hsame).
      * destruct (settles _ s); [|by apply Hstay]. by apply Hsame.
      * destruct (Hsame SessionOpen None a) as (s' & H1 & H2 & H3 & H4);
          [done..|].
        exists s'. by destruct (session (this s)).
      * destruct (settles _ s); [|by apply Hstay]. by apply Hsame.
      * destruct (settles _ s); [|by apply Hstay]. by apply Hsame.
    + destruct (services a !! j) as [sj|]; [|by apply Hstay].
      destruct e; try (by apply Hstay); try (by apply Hother).
      * destruct (settles _ sj); [|by apply Hstay]. by apply Hother.
      * destruct (Hother j None (dispatch SessionOpen) a)
          as (s' & H1 & H2 & H3 & H4); [done..|].
        exists s'. by destruct (session (this sj)).
      * destruct (settles _ sj); [|by apply Hstay]. by apply Hother.
      * destruct (settles _ sj); [|by apply Hstay]. by apply Hother.
  - destruct (_ ← services a !! j; session (this _)); by apply Hstay.
  - destruct (_ ← services a !! j; session (this _)); by apply Hstay.
  - destruct (_ ← services a !! j; processor (this _)); by apply Hstay.
Qed.

Lemma abandoned_run es a i s :
  services a !! i = Some s → serviceRef a ≠ Some i → no_teardown s →
  ∃ s', services (page_run apiKey now es a) !! i = Some s'
        ∧ nothing_released s s' ∧ no_teardown s'
        ∧ serviceRef (page_run apiKey now es a) ≠ Some i.
Proof.
  revert a s. induction es as [|e es IH]; intros a s Hs Href Hno.
  { exists s. by split; [|split; [apply nothing_released_refl|]]. }
  destruct (abandoned_step e a i s Hs Href Hno) as (s1 & H1 & H2 & H3 & H4).
  destruct (IH _ _ H1 H4 H3) as (s2 & G1 & G2 & G3 & G4).
  exists s2. cbn. split; [done|]. split; [|done].
  by eapply nothing_released_trans.
Qed.

End PageServices.

(** ** [disconnect] stretch by stretch *)

Lemma release_capture_emitted s :
  emitted (rt (release_capture s)) = emitted (rt s).
Proof.
  destruct_state s. unfold release_capture. cbn.
  by destruct session0, processor0, source0, stream0.
Qed.

(** Lines 210-222 with both contexts held and open: two stretches end at
    an [await], the third one ends the method. *)
Lemma disconnect_input_stretches x ci co :
  contexts_open x →
  inputAudioContext (this x) = Some ci → outputAudioContext (this x) = Some co →
  ∃ s1 s2 s3,
    disconnect_input x = (s1, Suspended (nextTask (rt x)))
    ∧ tasks (rt s1) !! nextTask (rt x) = Some KCloseInput
    ∧ dispatch (CloseSettled (nextTask (rt x))) s1
      = (s2, Suspended (S (nextTask (rt x))))
    ∧ tasks (rt s2) !! S (nextTask (rt x)) = Some KCloseOutput
    ∧ dispatch (CloseSettled (S (nextTask (rt x)))) s2 = (s3, Done)
    ∧ emitted (rt s1) = emitted (rt x)
    ∧ emitted (rt s2) = emitted (rt x)
    ∧ emitted (rt s3) = emitted (rt x).
Proof.
  intros (Hi & Ho & Hne) Ei Eo.
  pose proof (Hi _ Ei) as Hci. pose proof (Ho _ Eo) as Hco.
  assert (Hne' : co ≠ ci) by (intros ->; by apply (Hne ci)).
  clear Hi Ho Hne.
  set (x1 := on_rt (fun r => set_closedContexts ({[ci]} ∪ closedContexts r) r) x).
  set (s1 := fst (suspend KCloseInput x1)).
  set (y := on_this (set_inputAudioContext None) (unpark (nextTask (rt x)) s1)).
  set (y1 := on_rt (fun r => set_closedContexts ({[co]} ∪ closedContexts r) r) y).
  set (s2 := fst (suspend KCloseOutput y1)).
  set (z := on_this (set_outputAudioContext None)
              (unpark (S (nextTask (rt x))) s2)).
  exists s1, s2, (fst (cleanup z)).
  assert (H1 : tasks (rt s1) !! nextTask (rt x) = Some KCloseInput)
    by apply (parked_lookup KCloseInput x1).
  assert (Hy : nextTask (rt y1) = S (nextTask (rt x))) by reflexivity.
  assert (H2 : tasks (rt s2) !! S (nextTask (rt x)) = Some KCloseOutput).
  { rewrite <- Hy. apply (parked_lookup KCloseOutput y1). }
  split.
  { unfold disconnect_input. rewrite Ei, close_context_ok by done.
    reflexivity. }
  split; [done|]. split.
  { cbn [dispatch]. rewrite H1. unfold disconnect_input_k.
    fold y. unfold disconnect_output.
    change (outputAudioContext (this y)) with (outputAudioContext (this x)).
    rewrite Eo, close_context_ok; [reflexivity|].
    change (closedContexts (rt y)) with ({[ci]} ∪ closedContexts (rt x)).
    rewrite elem_of_union, elem_of_singleton. intros [?|?]; done. }
  split; [done|]. split.
  { cbn [dispatch]. rewrite H2. unfold disconnect_output_k. fold z.
    reflexivity. }
  done.
Qed.

Lemma disconnect_stretches s ci co :
  contexts_open s →
  inputAudioContext (this s) = Some ci → outputAudioContext (this s) = Some co →
  ∃ s1 s2,
    disconnect s = (s1, Suspended (nextTask (rt s)))
    ∧ tasks (rt s1) !! nextTask (rt s) = Some KCloseInput
    ∧ dispatch (CloseSettled (nextTask (rt s))) s1
      = (s2, Suspended (S (nextTask (rt s))))
    ∧ tasks (rt s2) !! S (nextTask (rt s)) = Some KCloseOutput
    ∧ dispatch (CloseSettled (S (nextTask (rt s)))) s2
      = (fst (disconnect_await s), Done)
    ∧ emitted (rt s1) = emitted (rt s)
    ∧ emitted (rt s2) = emitted (rt s)
    ∧ emitted (rt (fst (disconnect_await s))) = emitted (rt s).
Proof.
  intros Hopen Ei Eo.
  destruct (release_capture_spec s) as (Ht & _ & _ & Hn & _).
  pose proof (release_capture_emitted s) as He.
  destruct (disconnect_input_stretches (release_capture s) ci co)
    as (s1 & s2 & s3 & H1 & H2 & H3 & H4 & H5 & E1 & E2 & E3).
  { by apply contexts_open_release_capture. }
  { rewrite Ht. by destruct (this s). }
  { rewrite Ht. by destruct (this s). }
  rewrite Hn in *. rewrite He in *.
  assert (Hd : disconnect_await s = (s3, Done)).
  { unfold disconnect_await. rewrite disconnect_unfold, H1.
    cbn [settle_closes]. rewrite H3. cbn [settle_closes]. by rewrite H5. }
  exists s1, s2. rewrite Hd. done.
Qed.

(** ** The handlers of the page, stretch by stretch *)

Ltac page_setters :=
  unfold settled, set_connectionState, set_messages, set_micVolume,
    set_serviceRef, set_services, set_awaiting, set_updates, set_alerts,
    set_errors;
  cbn [connectionState messages micVolume serviceRef services awaiting
       updates alerts errors].

Section PageHandlers.

Context (now : nat → Stamp).

Lemma deliver_nothing a : deliver now [] a = a.
Proof.
  destruct a. unfold deliver, set_updates, set_messages. cbn. f_equal. lia.
Qed.

(** A stretch that hands nothing to [onMessage]. *)
Lemma run_stretch_quiet i w f a s s' o :
  services a !! i = Some s → f s = (s', o) →
  emitted (rt s') = emitted (rt s) →
  run_stretch now i w f a =
    match o with
    | Suspended k =>
        match w with
        | Some w =>
            set_awaiting (<[(i, k) := w]> (awaiting a))
              (set_services (<[i := s']> (services a)) a)
        | None => set_services (<[i := s']> (services a)) a
        end
    | _ => settled w o (set_services (<[i := s']> (services a)) a)
    end.
Proof.
  intros Hs Hf He. unfold run_stretch. rewrite Hs, Hf, He, drop_all.
  by rewrite deliver_nothing.
Qed.

(** A promise settles for service [i], resuming the stretch parked as [k]
    that [w] awaits. *)
Lemma browser_settle i e k w a s s' o :
  services a !! i = Some s → settles e s = Some k →
  awaiting a !! (i, k) = w →
  dispatch e s = (s', o) → emitted (rt s') = emitted (rt s) →
  browser_event now i e a =
    match o with
    | Suspended k' =>
        match w with
        | Some w =>
            set_awaiting (<[(i, k') := w]> (delete (i, k) (awaiting a)))
              (set_services (<[i := s']> (services a)) a)
        | None =>
            set_services (<[i := s']> (services a))
              (set_awaiting (delete (i, k) (awaiting a)) a)
        end
    | _ =>
        settled w o
          (set_services (<[i := s']> (services a))
             (set_awaiting (delete (i, k) (awaiting a)) a))
    end.
Proof.
  intros Hs Hk Hw Hd He. unfold browser_event. rewrite Hs.
  destruct e; try discriminate; rewrite Hk, Hw;
    rewrite (run_stretch_quiet i w _ _ s s' o) by done;
    by destruct o, w.
Qed.

(** Lines 27-34 of [handleStartCall], the key being set: a new service is
    made the current one and its [connect] runs up to the microphone
    request, which the handler awaits. *)
Lemma handleStartCall_spec a :
  handleStartCall true now a =
    {| connectionState := CONNECTING; messages := []; micVolume := micVolume a;
       serviceRef := Some (length (services a));
       services := services a ++ [fst (connect initial)];
       awaiting := <[(length (services a), 0) := AwaitStart]> (awaiting a);
       updates := updates a; alerts := alerts a; errors := errors a |}.
Proof.
  unfold handleStartCall. cbn [negb].
  erewrite (run_stretch_quiet _ _ connect _ initial);
    [|cbn; by rewrite lookup_app_r, Nat.sub_diag by lia|reflexivity|reflexivity].
  cbn. f_equal.
  rewrite insert_app_r_alt, Nat.sub_diag by lia. reflexivity.
Qed.

Lemma lookup_snoc_services (l : list State) (x : State) :
  (l ++ [x]) !! length l = Some x.
Proof. by rewrite lookup_app_r, Nat.sub_diag by lia. Qed.

Lemma insert_snoc_services (l : list State) (x y : State) :
  <[length l := y]> (l ++ [x]) = l ++ [y].
Proof. by rewrite insert_app_r_alt, Nat.sub_diag by lia. Qed.

End PageHandlers.

(** ** Starting and ending calls *)

(** A click on the start button, the key being set, leaves the services
    there are as they were and makes a new one the current one. *)
Lemma start_drops_reference now a i s :
  start_shown a = true → services a !! i = Some s →
  services (page_step true now ClickStart a) !! i = Some s
  ∧ serviceRef (page_step true now ClickStart a) ≠ Some i.
Proof.
  intros Hshown Hs. cbn [page_step]. rewrite Hshown, handleStartCall_spec.
  pose proof (lookup_lt_Some _ _ _ Hs) as Hlt. cbn. split.
  - by rewrite lookup_app_l.
  - intros Heq. injection Heq as Heq. lia.
Qed.




(** The page after a call was started and the microphone refused. *)
Lemma failed_start now a err :
  start_shown a = true →
  page_run true now
    [ClickStart; Browser (length (services a)) (MicSettled 0 (inl err))] a
  = {| connectionState := ERROR; messages := []; micVolume := micVolume a;
       serviceRef := Some (length (services a));
       services := services a ++ [fst (connect_await (inl err) initial)];
       awaiting := delete (length (services a), 0)
                     (<[(length (services a), 0) := AwaitStart]> (awaiting a));
       updates := updates a; alerts := alerts a;
       errors := errors a ++ [err] |}.
Proof.
  intros Hshown. unfold page_run. cbn [fold_left page_step].
  rewrite Hshown, handleStartCall_spec.
  erewrite (browser_settle now _ (MicSettled 0 (inl err)) 0 (Some AwaitStart)
              _ (fst (connect initial))
              (fst (connect_await (inl err) initial)) (Thrown err));
    [|apply lookup_snoc_services|by vm_compute|apply lookup_insert_eq
     |by vm_compute|by vm_compute].
  page_setters. f_equal. apply insert_snoc_services.
Qed.

Lemma no_teardown_denied err :
  no_teardown (fst (connect_await (inl err) initial)).
Proof.
  intros k c.
  change (tasks (rt (fst (connect_await (inl err) initial))))
    with (delete 0 (<[0 := KGetUserMedia]> (∅ : gmap nat Continuation))).
  rewrite lookup_delete_Some, lookup_insert_Some, lookup_empty.
  intros [? [[? ?]|[? ?]]]; done.
Qed.

(** X19. When the microphone is refused, the page shows the error and the start
    button again, with an empty transcript, and keeps referring to the
    service, whose two audio contexts stay open: the end button is not
    shown, so nothing on the page disconnects it. Starting again abandons
    it: whatever happens then, it keeps both contexts and they are never
    closed. *)
Theorem failed_start_keeps_contexts (now : nat → Stamp) (a : App)
    (err : Exception) (es : list PageEvent) :
  start_shown a = true →
  let i := length (services a) in
  let a' := page_run true now
              [ClickStart; Browser i (MicSettled 0 (inl err))] a in
  connectionState a' = ERROR ∧ start_shown a' = true
  ∧ serviceRef a' = Some i ∧ messages a' = [] ∧ errors a' = errors a ++ [err]
  ∧ ∃ s, services a' !! i = Some s
         ∧ inputAudioContext (this s) = Some 0
         ∧ outputAudioContext (this s) = Some 1
         ∧ closedContexts (rt s) = ∅
         ∧ ∃ s', services (page_run true now (ClickStart :: es) a') !! i
                 = Some s'
                 ∧ inputAudioContext (this s') = Some 0
                 ∧ outputAudioContext (this s') = Some 1
                 ∧ closedContexts (rt s') = ∅.
Proof.
  intros Hshown i a'.
  set (s := fst (connect_await (inl err) initial)).
  assert (Ha : a' = _) by apply (failed_start now a err Hshown).
  assert (Hs : services a' !! i = Some s).
  { rewrite Ha. apply lookup_snoc_services. }
  assert (Hsh : start_shown a' = true) by (by rewrite Ha).
  split; [by rewrite Ha|]. split; [done|].
  do 3 (split; [by rewrite Ha|]).
  exists s. do 4 (split; [done|]).
  destruct (start_drops_reference now a' i s Hsh Hs) as [H1 H2].
  destruct (abandoned_run true now es _ i s H1 H2 (no_teardown_denied err))
    as (s' & G1 & (Gi & Go & Gc & _) & _).
  exists s'. split; [exact G1|]. by rewrite Gi, Go, Gc.
Qed.

Lemma failed_start_keeps_contexts_witness :
  ∃ s', services
          (page_run true tick_stamp
             [ClickStart; Browser 1 (MicSettled 0 (inr tt));
              Browser 1 SessionOpen; ClickEnd; Browser 1 (CloseSettled 1);
              Browser 1 (CloseSettled 2); Browser 0 (CloseSettled 1)]
             (page_run true tick_stamp
                [ClickStart; Browser 0 (MicSettled 0 (inl NotAllowedError))]
                mounted)) !! 0 = Some s'
        ∧ inputAudioContext (this s') = Some 0
        ∧ outputAudioContext (this s') = Some 1
        ∧ closedContexts (rt s') = ∅.
Proof.
  pose proof (failed_start_keeps_contexts tick_stamp mounted NotAllowedError
                [Browser 1 (MicSettled 0 (inr tt)); Browser 1 SessionOpen;
                 ClickEnd; Browser 1 (CloseSettled 1);
                 Browser 1 (CloseSettled 2); Browser 0 (CloseSettled 1)]
                eq_refl) as H.
  cbv zeta in H.
  destruct H as (_ & _ & _ & _ & _ & s & _ & _ & _ & _ & H).
  exact H.
Defined.

(** X20. Ending a call: a click on the end button disconnects the current
    service, which holds two open contexts. While the contexts are being
    closed the page shows the call as before, the end button included;
    when the second close has resolved the page shows it disconnected with
    the volume at 0 and refers to no service. The transcript stays on the
    page, everything the service held has been released, and the other
    services were not touched. *)
Theorem end_call_releases (apiKey : bool) (now : nat → Stamp) (a : App)
    (i : nat) (s : State) (ci co : nat) :
  serviceRef a = Some i → services a !! i = Some s →
  start_shown a = false → contexts_open s →
  inputAudioContext (this s) = Some ci →
  outputAudioContext (this s) = Some co →
  let k := nextTask (rt s) in
  let closing := page_run apiKey now [ClickEnd; Browser i (CloseSettled k)] a in
  let a' := page_step apiKey now (Browser i (CloseSettled (S k))) closing in
  connectionState closing = connectionState a ∧ serviceRef closing = Some i
  ∧ connectionState a' = DISCONNECTED ∧ micVolume a' = 0%Q
  ∧ serviceRef a' = None ∧ messages a' = messages a
  ∧ (∃ s', services a' !! i = Some s' ∧ released s s')
  ∧ (∀ j, j ≠ i → services a' !! j = services a !! j).
Proof.
  intros Href Hs Hshown Hopen Ei Eo k closing a'.
  assert (Hk : k = nextTask (rt s)) by reflexivity. clearbody k. subst k.
  destruct (disconnect_stretches s ci co Hopen Ei Eo)
    as (s1 & s2 & D1 & T1 & D2 & T2 & D3 & E1 & E2 & E3).
  destruct (disconnect_await_spec s Hopen) as (_ & Hrel & _).
  set (s3 := fst (disconnect_await s)) in *.
  set (k := nextTask (rt s)) in *.
  pose proof (lookup_lt_Some _ _ _ Hs) as Hlt.
  assert (Hc : closing =
    set_awaiting (<[(i, S k) := AwaitEnd]>
                    (delete (i, k) (<[(i, k) := AwaitEnd]> (awaiting a))))
      (set_services (<[i := s2]> (<[i := s1]> (services a))) a)).
  { subst closing. unfold page_run. cbn [fold_left page_step].
    rewrite Hshown. unfold handleEndCall. rewrite Href.
    rewrite (run_stretch_quiet now i (Some AwaitEnd) disconnect a s s1
               (Suspended k) Hs D1 E1).
    erewrite (browser_settle now i (CloseSettled k) k (Some AwaitEnd) _ s1 s2
                (Suspended (S k)));
      [reflexivity
      |page_setters; by apply list_lookup_insert_eq
      |unfold settles; by rewrite T1
      |page_setters; apply lookup_insert_eq
      |exact D2|congruence]. }
  assert (Ha : a' =
    set_micVolume 0%Q
      (set_connectionState DISCONNECTED
         (set_serviceRef None
            (set_services (<[i := s3]> (<[i := s2]> (<[i := s1]> (services a))))
               (set_awaiting
                  (delete (i, S k)
                     (<[(i, S k) := AwaitEnd]>
                        (delete (i, k) (<[(i, k) := AwaitEnd]> (awaiting a)))))
                  a))))).
  { subst a'. rewrite Hc. cbn [page_step].
    erewrite (browser_settle now i (CloseSettled (S k)) (S k) (Some AwaitEnd)
                _ s2 s3 Done);
      [reflexivity
      |page_setters; apply list_lookup_insert_eq; by rewrite length_insert
      |unfold settles; by rewrite T2
      |page_setters; apply lookup_insert_eq
      |exact D3|congruence]. }
  rewrite Hc, Ha. page_setters. cbn [connectionState serviceRef micVolume messages services].
  do 6 (split; [done|]). split.
  - exists s3. split; [|done].
    apply list_lookup_insert_eq. by rewrite !length_insert.
  - intros j Hj. by rewrite !list_lookup_insert_ne.
Qed.

Lemma contexts_open_in_call : contexts_open in_call.
Proof.
  apply (contexts_open_nothing_closed in_call 0 1); [reflexivity..|lia].
Qed.

Lemma end_call_releases_witness :
  connectionState
    (page_step true tick_stamp (Browser 0 (CloseSettled (S (nextTask (rt in_call)))))
       (page_run true tick_stamp
          [ClickEnd; Browser 0 (CloseSettled (nextTask (rt in_call)))]
          (page_run true tick_stamp
             [ClickStart; Browser 0 (MicSettled 0 (inr tt));
              Browser 0 SessionOpen] mounted))) = DISCONNECTED
  ∧ serviceRef
      (page_step true tick_stamp (Browser 0 (CloseSettled (S (nextTask (rt in_call)))))
         (page_run true tick_stamp
            [ClickEnd; Browser 0 (CloseSettled (nextTask (rt in_call)))]
            (page_run true tick_stamp
               [ClickStart; Browser 0 (MicSettled 0 (inr tt));
                Browser 0 SessionOpen] mounted))) = None.
Proof.
  pose proof (end_call_releases true tick_stamp
                (page_run true tick_stamp
                   [ClickStart; Browser 0 (MicSettled 0 (inr tt));
                    Browser 0 SessionOpen] mounted)
                0 in_call 0 1) as H.
  cbv zeta in H.
  destruct H as (_ & _ & H1 & _ & H2 & _).
  - vm_compute. reflexivity.
  - vm_compute. reflexivity.
  - vm_compute. reflexivity.
  - exact contexts_open_in_call.
  - reflexivity.
  - reflexivity.
  - split; [exact H1|exact H2].
Defined.

(** ** Ending a call that is still connecting *)

Section LastService.

Context (now : nat → Stamp).

(** The same as [browser_settle] for the service created last. *)
Lemma browser_settle_last l e k w a s s' o :
  services a = l ++ [s] → settles e s = Some k →
  awaiting a !! (length l, k) = w →
  dispatch e s = (s', o) → emitted (rt s') = emitted (rt s) →
  browser_event now (length l) e a =
    match o with
    | Suspended k' =>
        match w with
        | Some w =>
            set_awaiting
              (<[(length l, k') := w]> (delete (length l, k) (awaiting a)))
              (set_services (l ++ [s']) a)
        | None =>
            set_services (l ++ [s'])
              (set_awaiting (delete (length l, k) (awaiting a)) a)
        end
    | _ =>
        settled w o
          (set_services (l ++ [s'])
             (set_awaiting (delete (length l, k) (awaiting a)) a))
    end.
Proof.
  intros Hl Hk Hw Hd He.
  rewrite (browser_settle now (length l) e k w a s s' o); try done.
  - by rewrite Hl, insert_snoc_services.
  - rewrite Hl. apply lookup_snoc_services.
Qed.

End LastService.

(** The service of a call that was ended while connecting, the microphone
    being granted afterwards and the session opening. *)
Lemma no_teardown_late_call :
  no_teardown
    (run [CallConnect; CallDisconnect; CloseSettled 1; CloseSettled 2;
          MicSettled 0 (inr tt); SessionOpen] initial).
Proof.
  intros k c.
  assert (Ht : tasks (rt (run [CallConnect; CallDisconnect; CloseSettled 1;
                               CloseSettled 2; MicSettled 0 (inr tt);
                               SessionOpen] initial)) = ∅) by reflexivity.
  rewrite Ht, lookup_empty. discriminate.
Qed.

Lemma late_call_page now a :
  start_shown a = true →
  page_run true now
    [ClickStart; ClickEnd;
     Browser (length (services a)) (CloseSettled 1);
     Browser (length (services a)) (CloseSettled 2);
     Browser (length (services a)) (MicSettled 0 (inr tt));
     Browser (length (services a)) SessionOpen] a
  = {| connectionState := CONNECTED; messages := []; micVolume := 0;
       serviceRef := None;
       services :=
         services a
         ++ [run [CallConnect; CallDisconnect; CloseSettled 1; CloseSettled 2;
                  MicSettled 0 (inr tt); SessionOpen] initial];
       awaiting :=
         delete (length (services a), 0)
           (delete (length (services a), 2)
              (<[(length (services a), 2) := AwaitEnd]>
                 (delete (length (services a), 1)
                    (<[(length (services a), 1) := AwaitEnd]>
                       (<[(length (services a), 0) := AwaitStart]>
                          (awaiting a))))));
       updates := updates a; alerts := alerts a; errors := errors a |}.
Proof.
  intros Hshown.
  set (c0 := fst (connect initial)).
  set (d1 := fst (disconnect c0)).
  set (d2 := fst (dispatch (CloseSettled 1) d1)).
  set (d3 := fst (dispatch (CloseSettled 2) d2)).
  set (d4 := fst (dispatch (MicSettled 0 (inr tt)) d3)).
  set (d5 := fst (dispatch SessionOpen d4)).
  change (run _ initial) with d5.
  unfold page_run. cbn [fold_left].
  (* the start *)
  cbn [page_step]. rewrite Hshown, handleStartCall_spec. fold c0.
  (* the end button, shown while connecting *)
  cbn [start_shown connectionState]. unfold handleEndCall.
  cbn [serviceRef].
  rewrite (run_stretch_quiet now (length (services a)) (Some AwaitEnd) disconnect _ c0 d1
             (Suspended 1));
    [|apply lookup_snoc_services|by vm_compute|by vm_compute].
  page_setters. rewrite insert_snoc_services.
  (* the input context is closed *)
  rewrite (browser_settle_last now (services a) (CloseSettled 1) 1
             (Some AwaitEnd) _ d1 d2 (Suspended 2));
    [|reflexivity|by vm_compute|apply lookup_insert_eq|by vm_compute|by vm_compute].
  page_setters.
  (* the output context is closed *)
  rewrite (browser_settle_last now (services a) (CloseSettled 2) 2
             (Some AwaitEnd) _ d2 d3 Done);
    [|reflexivity|by vm_compute|apply lookup_insert_eq|by vm_compute|by vm_compute].
  page_setters.
  (* the microphone is granted *)
  rewrite (browser_settle_last now (services a) (MicSettled 0 (inr tt)) 0
             (Some AwaitStart) _ d3 d4 Done);
    [|reflexivity|by vm_compute| |by vm_compute|by vm_compute].
  2: { cbn [awaiting].
       rewrite lookup_delete_ne by (intros [= ?]; lia).
       rewrite lookup_insert_ne by (intros [= ?]; lia).
       rewrite lookup_delete_ne by (intros [= ?]; lia).
       rewrite lookup_insert_ne by (intros [= ?]; lia).
       apply lookup_insert_eq. }
  page_setters.
  (* the session opens *)
  unfold browser_event. cbn [services].
  rewrite lookup_snoc_services.
  rewrite (run_stretch_quiet now (length (services a)) None (dispatch SessionOpen) _ d4 d5 Done);
    [|apply lookup_snoc_services|by vm_compute|by vm_compute].
  assert (H4 : session (this d4) = Some 4) by (by vm_compute).
  rewrite H4.
  page_setters. by rewrite insert_snoc_services.
Qed.

(** X21. A click on the end button while the call is still connecting does not
    cancel it. The contexts are closed and the page shows the call
    disconnected; but when the microphone is granted afterwards the stream
    is kept and the session is opened all the same, and when it opens the
    page shows a call in progress while it refers to no service. No capture
    is set up, and whatever happens later (a click on the end button
    included) the stream is never stopped and the session never asked to
    close. *)
Theorem end_while_connecting (now : nat → Stamp) (a : App)
    (es : list PageEvent) :
  start_shown a = true →
  let i := length (services a) in
  let a' := page_run true now
              [ClickStart; ClickEnd; Browser i (CloseSettled 1);
               Browser i (CloseSettled 2); Browser i (MicSettled 0 (inr tt));
               Browser i SessionOpen] a in
  connectionState a' = CONNECTED ∧ serviceRef a' = None
  ∧ ∃ s, services a' !! i = Some s
         ∧ stream (this s) = Some 3 ∧ session (this s) = Some 4
         ∧ processor (this s) = None ∧ source (this s) = None
         ∧ stoppedStreams (rt s) = ∅ ∧ sessionCloses (rt s) = []
         ∧ ∃ s', services (page_run true now es a') !! i = Some s'
                 ∧ stoppedStreams (rt s') = ∅ ∧ sessionCloses (rt s') = [].
Proof.
  intros Hshown i a'.
  assert (Ha : a' = _) by apply (late_call_page now a Hshown).
  set (s := run [CallConnect; CallDisconnect; CloseSettled 1; CloseSettled 2;
                 MicSettled 0 (inr tt); SessionOpen] initial) in *.
  assert (Hs : services a' !! i = Some s).
  { rewrite Ha. apply lookup_snoc_services. }
  assert (Href : serviceRef a' ≠ Some i) by (by rewrite Ha).
  do 2 (split; [by rewrite Ha|]).
  exists s. do 7 (split; [done|]).
  destruct (abandoned_run true now es a' i s Hs Href no_teardown_late_call)
    as (s' & G1 & (_ & _ & _ & Gs & _ & Gc) & _).
  exists s'. split; [exact G1|]. by rewrite Gs, Gc.
Qed.

Lemma end_while_connecting_witness :
  ∃ s', services
          (page_run true tick_stamp
             [ClickEnd; Browser 0 (Tick 1); Unmount]
             (page_run true tick_stamp
                [ClickStart; ClickEnd; Browser 0 (CloseSettled 1);
                 Browser 0 (CloseSettled 2); Browser 0 (MicSettled 0 (inr tt));
                 Browser 0 SessionOpen] mounted)) !! 0 = Some s'
        ∧ stoppedStreams (rt s') = ∅ ∧ sessionCloses (rt s') = [].
Proof.
  pose proof (end_while_connecting tick_stamp mounted
                [ClickEnd; Browser 0 (Tick 1); Unmount] eq_refl) as H.
  cbv zeta in H.
  destruct H as (_ & _ & s & _ & _ & _ & _ & _ & _ & _ & H).
  exact H.
Defined.

(** ** The transcript on the page *)

Lemma feed_app fs1 fs2 (prev : list ChatMessage) :
  feed (fs1 ++ fs2) prev = feed fs2 (feed fs1 prev).
Proof. apply fold_left_app. Qed.

Lemma run_stretch_messages now i w f a :
  ∃ fs, messages (run_stretch now i w f a) = feed fs (messages a).
Proof.
  unfold run_stretch. destruct (services a !! i) as [s|]; [|by exists []].
  destruct (f s) as [s' o]. eexists.
  destruct o as [|k|err], w as [[]|]; reflexivity.
Qed.

Lemma page_step_messages apiKey now e a :
  is_start e = false →
  ∃ fs, messages (page_step apiKey now e a) = feed fs (messages a).
Proof.
  intros He. destruct e as [| | | i e | i | i | i vol]; try discriminate;
    cbn [page_step].
  - destruct (start_shown a); [by exists []|].
    unfold handleEndCall. destruct (serviceRef a);
      [apply run_stretch_messages|by exists []].
  - unfold unmount. destruct (serviceRef a);
      [apply run_stretch_messages|by exists []].
  - unfold browser_event. destruct (services a !! i) as [s|]; [|by exists []].
    destruct e; try (by exists []); try apply run_stretch_messages.
    + destruct (settles _ s); [|by exists []].
      destruct (run_stretch_messages now i (awaiting a !! (i, n))
                  (dispatch (MicSettled k r))
                  (set_awaiting (delete (i, n) (awaiting a)) a)) as [fs H].
      by exists fs.
    + destruct (run_stretch_messages now i None (dispatch SessionOpen) a)
        as [fs H].
      exists fs. by destruct (session (this s)).
    + destruct (settles _ s); [|by exists []].
      destruct (run_stretch_messages now i (awaiting a !! (i, n))
                  (dispatch (DecodeSettled k r))
                  (set_awaiting (delete (i, n) (awaiting a)) a)) as [fs H].
      by exists fs.
    + destruct (settles _ s); [|by exists []].
      destruct (run_stretch_messages now i (awaiting a !! (i, n))
                  (dispatch (CloseSettled k))
                  (set_awaiting (delete (i, n) (awaiting a)) a)) as [fs H].
      by exists fs.
  - destruct (_ ← services a !! i; session (this _)); by exists [].
  - destruct (_ ← services a !! i; session (this _)); by exists [].
  - destruct (_ ← services a !! i; processor (this _)); by exists [].
Qed.

(** X22. Only a click on the start button clears the transcript. Whatever else
    happens (fragments of any service arriving, the call being ended, the
    session closing or failing, the microphone being refused, the component
    being unmounted), the transcript afterwards is the one before with
    further fragments fed to the updater. So nothing said is taken away:
    every utterance is still there, in its place, with the same id, speaker
    and timestamp and a text that may only have grown at the end. *)
Theorem transcript_cleared_only_by_start (apiKey : bool) (now : nat → Stamp)
    (es : list PageEvent) (a : App) :
  forallb (fun e => negb (is_start e)) es = true →
  (∃ fs, messages (page_run apiKey now es a) = feed fs (messages a))
  ∧ ∀ i m, messages a !! i = Some m →
      ∃ m', messages (page_run apiKey now es a) !! i = Some m' ∧ grown m m'
            ∧ (isFinal m = true → m' = m).
Proof.
  intros Hes.
  assert (Hfs : ∃ fs, messages (page_run apiKey now es a) = feed fs (messages a)).
  { revert a. induction es as [|e es IH]; intros a; [by exists []|].
    cbn in Hes. apply andb_prop in Hes as [He Hes].
    apply negb_true_iff in He.
    destruct (page_step_messages apiKey now e a He) as [fs1 H1].
    destruct (IH Hes (page_step apiKey now e a)) as [fs2 H2].
    exists (fs1 ++ fs2).
    change (page_run apiKey now (e :: es) a)
      with (page_run apiKey now es (page_step apiKey now e a)).
    by rewrite H2, H1, feed_app. }
  split; [done|]. destruct Hfs as [fs ->]. intros i m. apply feed_grows.
Qed.

Lemma transcript_cleared_only_by_start_witness :
  ∃ fs, messages
          (page_run true tick_stamp
             [ClickEnd; Browser 0 (CloseSettled 1); Browser 0 (CloseSettled 2);
              SessionClosed 0;
              Browser 0
                (ServerMessage
                   (Msg.mkMessage
                      (Some (Msg.mkServerContent
                               (Some (Msg.mkTranscription (Some bingxiang)))
                               None None None None))))]
             (page_run true tick_stamp
                [ClickStart; Browser 0 (MicSettled 0 (inr tt));
                 Browser 0 SessionOpen;
                 Browser 0
                   (ServerMessage
                      (Msg.mkMessage
                         (Some (Msg.mkServerContent
                                  (Some (Msg.mkTranscription (Some ni_hao)))
                                  None None None None))))] mounted))
        = feed fs
            (messages
               (page_run true tick_stamp
                  [ClickStart; Browser 0 (MicSettled 0 (inr tt));
                   Browser 0 SessionOpen;
                   Browser 0
                     (ServerMessage
                        (Msg.mkMessage
                           (Some (Msg.mkServerContent
                                    (Some (Msg.mkTranscription (Some ni_hao)))
                                    None None None None))))] mounted)).
Proof.
  apply (transcript_cleared_only_by_start true tick_stamp
           [ClickEnd; Browser 0 (CloseSettled 1); Browser 0 (CloseSettled 2);
            SessionClosed 0;
            Browser 0
              (ServerMessage
                 (Msg.mkMessage
                    (Some (Msg.mkServerContent
                             (Some (Msg.mkTranscription (Some bingxiang)))
                             None None None None))))]).
  reflexivity.
Defined.
